(** * Rei do Churrasco WhatsApp bot: a shallow embedding and its properties

    The development follows the JavaScript sources:
    - [src/lib/pix.js]: rotation between the PIX keys ([Module Pix]);
    - [src/lib/respostasAutomaticas.js]: business hours, anti-spam and
      automatic replies ([Module Horario], [Module Respostas]);
    - [src/lib/supabase.js] and [src/index.js]: couriers, sending, order
      fan-out, status updates, the order poller and the reconnection handler
      ([Module Envio], [Module Poller], [Module Concorrencia],
      [Module Reconexao]).

    Module-level [let]/[const] bindings of the sources become fields of
    explicit state records; [Date.now()] and [Math.random()] readings and
    the answers of Supabase and of the WhatsApp socket are inputs.  Logging
    is left out.  The message generators of [src/lib/mensagens.js], which
    may throw on a malformed row, and the keyword matching of
    [detectarIntencao] are parameters.

    The first part holds the embedding, the second part ([Module ...Fatos])
    its properties. *)

From Stdlib Require Import ZArith QArith Qround Qpower String Ascii List Lia Bool.
From Stdlib Require Import DecimalString DecimalNat.
From stdpp Require Import gmap strings list.

Local Open Scope string_scope.
Local Open Scope list_scope.
Local Open Scope Z_scope.

(** ** JavaScript helpers shared by the modules *)

Module JS.

(** [\d] of a JavaScript regular expression: the ASCII digits. *)
Definition ehDigito (c : ascii) : bool :=
  let n := nat_of_ascii c in ((48 <=? n)%nat && (n <=? 57)%nat).

Fixpoint filtrarTexto (f : ascii -> bool) (s : string) : string :=
  match s with
  | EmptyString => EmptyString
  | String c r => if f c then String c (filtrarTexto f r) else filtrarTexto f r
  end.

(** [s.replace(/\D/g, '')] *)
Definition apenasDigitos (s : string) : string := filtrarTexto ehDigito s.

(** Truthiness of a string: only the empty string is falsy. *)
Definition textoVerdadeiro (s : string) : bool :=
  match s with EmptyString => false | String _ _ => true end.

(** Truthiness of a field that may be [null]/[undefined] or a string. *)
Definition verdadeiro (v : option string) : bool :=
  match v with Some s => textoVerdadeiro s | None => false end.

(** [a || b] on such fields. *)
Definition ou (a b : option string) : option string :=
  if verdadeiro a then a else b.

(** A value where the code expects a telephone: [null] or [undefined], a
    text, or anything else (a number, a boolean, an object), of which the
    code only tests the truthiness before it calls [replace] on it. *)
Inductive Valor :=
| Nulo
| Cadeia (t : string)
| Outro (verdadeiro : bool).

Definition valorVerdadeiro (v : Valor) : bool :=
  match v with
  | Nulo => false
  | Cadeia t => textoVerdadeiro t
  | Outro b => b
  end.

(** [a || b] on such values. *)
Definition ouValor (a b : Valor) : Valor :=
  if valorVerdadeiro a then a else b.

(** [Array.prototype.sort] with a comparator [(a, b) => chave(a) - chave(b)]:
    the sort is stable, so elements with equal keys keep their order.
    Insertion from the right gives exactly that order. *)
Fixpoint inserirOrdenado {A} (chave : A -> Z) (e : A) (l : list A) : list A :=
  match l with
  | [] => [e]
  | x :: r => if chave e <=? chave x then e :: x :: r
              else x :: inserirOrdenado chave e r
  end.

Definition ordenarPor {A} (chave : A -> Z) (l : list A) : list A :=
  fold_right (inserirOrdenado chave) [] l.

(** A JavaScript [Map] keeps its entries in insertion order: an association
    list, oldest insertion first.  [set] on a present key keeps its place. *)
Fixpoint mapGet {V} (k : string) (m : list (string * V)) : option V :=
  match m with
  | [] => None
  | (k', v) :: r => if String.eqb k k' then Some v else mapGet k r
  end.

Fixpoint mapSet {V} (k : string) (v : V) (m : list (string * V)) : list (string * V) :=
  match m with
  | [] => [(k, v)]
  | (k', v') :: r => if String.eqb k k' then (k', v) :: r
                     else (k', v') :: mapSet k v r
  end.

Definition mapDelete {V} (k : string) (m : list (string * V)) : list (string * V) :=
  List.filter (fun e => negb (String.eqb k (fst e))) m.

(** [Math.floor(Math.random() * n)], the reading of [Math.random()] being
    the rational [r]. *)
Definition indiceAleatorio (r : Q) (n : nat) : nat :=
  Z.to_nat (Qfloor (r * inject_Z (Z.of_nat n))).

(** Ascending order of the keys: every element is at most each later one. *)
Fixpoint crescente {A} (chave : A -> Z) (l : list A) : Prop :=
  match l with
  | [] => True
  | x :: r => Forall (fun y => chave x <= chave y) r /\ crescente chave r
  end.

(** The outcome of a call that may throw. *)
Inductive Resultado (A : Type) : Type :=
| Retorno (a : A)
| Excecao (erro : string).
Arguments Retorno {A} a.
Arguments Excecao {A} erro.

(** The answer of a Supabase query: [{ data, error }], or a rejected promise. *)
Inductive RespostaSupabase (A : Type) : Type :=
| Dados (data : A)
| Falha (erro : string).
Arguments Dados {A} data.
Arguments Falha {A} erro.

End JS.

(** ** PIX key rotation ([src/lib/pix.js]) *)

Module Pix.
Import JS.

Record ChavePix := { tipo : string; chave : string; titular : string }.

Definition CHAVES_PIX : list ChavePix :=
  [ {| tipo := "Aleatória";
       chave := "74849085-bf79-49ce-9897-95ccee2a3004";
       titular := "Rei do Churrasco" |};
    {| tipo := "E-mail";
       chave := "Marcos.f.alves1984@gmail.com";
       titular := "Rei do Churrasco" |} ].

(** The value stored per sender in [ultimoEnvioPorNumero]. *)
Record UltimoEnvio := { indice : nat; timestamp : Z }.

Record Estado := {
  ultimoEnvioPorNumero : list (string * UltimoEnvio);
  usoPorIndice : gmap nat nat
}.

(** [new Map(CHAVES_PIX.map((_, indice) => [indice, 0]))] and an empty history. *)
Definition inicial : Estado :=
  {| ultimoEnvioPorNumero := [];
     usoPorIndice := list_to_map (List.map (fun i => (i, 0%nat)) (seq 0 (length CHAVES_PIX))) |}.

Definition INTERVALO_BLOQUEIO_REPETICAO_MS : Z := 6 * 60 * 60 * 1000.
Definition RETENCAO_HISTORICO_MS : Z := 24 * 60 * 60 * 1000.
Definition LIMITE_HISTORICO : nat := 2000.

Definition normalizarNumero (numero : string) : string := apenasDigitos numero.

(** [!info?.timestamp || (agora - info.timestamp) > RETENCAO_HISTORICO_MS] *)
Definition expirado (agora : Z) (info : UltimoEnvio) : bool :=
  (timestamp info =? 0) || (RETENCAO_HISTORICO_MS <? agora - timestamp info).

Definition limparHistoricoAntigo (agora : Z) (h : list (string * UltimoEnvio))
  : list (string * UltimoEnvio) :=
  let h1 := List.filter (fun e => negb (expirado agora (snd e))) h in
  if (length h1 <=? LIMITE_HISTORICO)%nat then h1
  else
    let entradasOrdenadas := ordenarPor (fun e => timestamp (snd e)) h1 in
    let excedente := (length h1 - LIMITE_HISTORICO)%nat in
    fold_left (fun acc e => mapDelete (fst e) acc) (firstn excedente entradasOrdenadas) h1.

(** [usoPorIndice.get(indice) || 0] *)
Definition uso (u : gmap nat nat) (i : nat) : nat := default 0%nat (u !! i).

Definition todosIndices : list nat := seq 0 (length CHAVES_PIX).

(** The candidate indices after the anti-repetition filter and the
    restoration of the full set when the filter leaves nothing. *)
Definition indicesCandidatos (ultimoEnvio : option UltimoEnvio) (agora : Z) : list nat :=
  let c :=
    match ultimoEnvio with
    | Some u =>
        if (1 <? length CHAVES_PIX)%nat
           && (agora - timestamp u <? INTERVALO_BLOQUEIO_REPETICAO_MS)
        then List.filter (fun i => negb (i =? indice u)%nat) todosIndices
        else todosIndices
    | None => todosIndices
    end in
  if (length c =? 0)%nat then todosIndices else c.

(** [Math.min(...xs)]; [None] stands for [Infinity], the minimum of nothing. *)
Definition minimo (xs : list nat) : option nat :=
  match xs with
  | [] => None
  | x :: r => Some (fold_left Nat.min r x)
  end.

Definition grupoSorteio (u : gmap nat nat) (candidatos : list nat) : list nat :=
  let menorUso := minimo (List.map (uso u) candidatos) in
  let indicesBalanceados :=
    List.filter (fun i => match menorUso with
                          | Some m => (uso u i =? m)%nat
                          | None => false
                          end) candidatos in
  if (0 <? length indicesBalanceados)%nat then indicesBalanceados else candidatos.

(** The history entry consulted for a sender: none when the normalized
    number is empty. *)
Definition ultimoEnvioDe (numeroNormalizado : string) (h : list (string * UltimoEnvio))
  : option UltimoEnvio :=
  if textoVerdadeiro numeroNormalizado then mapGet numeroNormalizado h else None.

(** [selecionarChavePixInteligente]; [agoraLimpeza] and [agora] are the two
    readings of [Date.now()] (in [limparHistoricoAntigo] and in the function
    itself), [sorteio] the reading of [Math.random()].  The result carries
    the index drawn beside the key.  When the drawn position holds no index
    (impossible for a reading in [0, 1) and a non-empty key list) the
    function answers [undefined], here [None]. *)
Definition selecionarComIndice (numeroRemetente : string) (agoraLimpeza agora : Z)
  (sorteio : Q) (s : Estado) : Estado * option (nat * ChavePix) :=
  let h := limparHistoricoAntigo agoraLimpeza (ultimoEnvioPorNumero s) in
  let numeroNormalizado := normalizarNumero numeroRemetente in
  let ultimoEnvio := ultimoEnvioDe numeroNormalizado h in
  let candidatos := indicesCandidatos ultimoEnvio agora in
  let grupo := grupoSorteio (usoPorIndice s) candidatos in
  match nth_error grupo (indiceAleatorio sorteio (length grupo)) with
  | Some indiceSorteado =>
      let u' := <[indiceSorteado := S (uso (usoPorIndice s) indiceSorteado)]> (usoPorIndice s) in
      let h' := if textoVerdadeiro numeroNormalizado
                then mapSet numeroNormalizado
                       {| indice := indiceSorteado; timestamp := agora |} h
                else h in
      ({| ultimoEnvioPorNumero := h'; usoPorIndice := u' |},
       match nth_error CHAVES_PIX indiceSorteado with
       | Some c => Some (indiceSorteado, c)
       | None => None
       end)
  | None => ({| ultimoEnvioPorNumero := h; usoPorIndice := usoPorIndice s |}, None)
  end.

Definition selecionarChavePixInteligente (numeroRemetente : string)
  (agoraLimpeza agora : Z) (sorteio : Q) (s : Estado) : Estado * option ChavePix :=
  let '(s', r) := selecionarComIndice numeroRemetente agoraLimpeza agora sorteio s in
  (s', option_map snd r).

End Pix.

(** ** Business hours ([src/lib/respostasAutomaticas.js]) *)

Module Horario.

(** The weekday of [Intl.DateTimeFormat('pt-BR', { weekday: 'long' })]:
    domingo, segunda-feira, ..., sexta-feira, sábado. *)
Inductive DiaSemana := Domingo | Segunda | Terca | Quarta | Quinta | Sexta | Sabado.

(** [estaNoHorario], on the weekday and the minutes since midnight that
    [obterDataHoraAtual] reads. *)
Definition estaNoHorario (diaSemana : DiaSemana) (totalMinutos : Z) : bool :=
  match diaSemana with
  | Domingo => false
  | Sexta | Sabado => 17 * 60 <=? totalMinutos
  | _ => (17 * 60 <=? totalMinutos) && (totalMinutos <? 23 * 60)
  end.

(** [verificarLojaAbertaSupabase], on the settings object that
    [carregarConfiguracoesLoja] returns (setting_key to setting_value). *)
Definition verificarLojaAbertaSupabase (config : gmap string string)
  (diaSemana : DiaSemana) (totalMinutos : Z) : bool :=
  match config !! "manual_status" with
  | Some v =>
      if String.eqb v "closed" then false
      else if String.eqb v "open" then true
      else estaNoHorario diaSemana totalMinutos
  | None => estaNoHorario diaSemana totalMinutos
  end.

End Horario.

(** ** Automatic replies and anti-spam ([src/lib/respostasAutomaticas.js]) *)

Module Respostas.
Import JS.

(** The strings that [detectarIntencao] returns. *)
Inductive Intencao :=
| Saudacao | Churrasco | IntencaoPix | IntencaoHorario
| IntencaoPedido | Entrega | Marmita | Localizacao.

Definition ehPix (i : Intencao) : bool :=
  match i with IntencaoPix => true | _ => false end.

(** What [processarMensagemRecebida] resolves to when it answers: one text,
    or an array of texts (the PIX reply). *)
Inductive Resposta :=
| Texto (t : string)
| Textos (ts : list string).

Record Estado := {
  ultimasRespostas : gmap string Z;
  pix : Pix.Estado
}.

Definition INTERVALO_MINIMO_RESPOSTA_MS : Z := 2 * 60 * 1000.

(** The readings of [Date.now()] that one call makes, in order: in
    [podeResponder], in [registrarResposta], in [limparHistoricoAntigo] and
    in [selecionarChavePixInteligente]. *)
Record Leituras := {
  agoraVerificacao : Z;
  agoraRegistro : Z;
  agoraLimpezaPix : Z;
  agoraPix : Z
}.

Definition podeResponder (agora : Z) (numeroRemetente : string)
  (m : gmap string Z) : bool :=
  match m !! numeroRemetente with
  | Some ultimaResposta =>
      negb (negb (ultimaResposta =? 0)
            && (agora - ultimaResposta <? INTERVALO_MINIMO_RESPOSTA_MS))
  | None => true
  end.

Definition registrarResposta (agora : Z) (numeroRemetente : string)
  (m : gmap string Z) : gmap string Z :=
  filter (fun e => ~ (60 * 60 * 1000 < agora - snd e)) (<[numeroRemetente := agora]> m).

Section Colaboradores.

(** Keyword matching and message texts are collaborators of this module:
    any intent detector, and any texts. *)
Variable detectarIntencao : string -> option Intencao.
Variable gerarTexto : Intencao -> string.
Variable textoPix : Pix.ChavePix -> string.

(** [gerarRespostaPix]: reading [pixSelecionado.tipo] of [undefined] throws. *)
Definition gerarRespostaPix (numeroRemetente : string) (t : Leituras) (sorteio : Q)
  (p : Pix.Estado) : Pix.Estado * Resultado (option Resposta) :=
  match Pix.selecionarChavePixInteligente numeroRemetente
          (agoraLimpezaPix t) (agoraPix t) sorteio p with
  | (p', Some pixSelecionado) =>
      (p', Retorno (Some (Textos [textoPix pixSelecionado; Pix.chave pixSelecionado])))
  | (p', None) => (p', Excecao "TypeError")
  end.

Definition processarMensagemRecebida (mensagem numeroRemetente : string)
  (t : Leituras) (sorteio : Q) (s : Estado) : Estado * Resultado (option Resposta) :=
  match detectarIntencao mensagem with
  | None => (s, Retorno None)
  | Some intencao =>
      if negb (ehPix intencao)
         && negb (podeResponder (agoraVerificacao t) numeroRemetente (ultimasRespostas s))
      then (s, Retorno None)
      else
        let registradas := registrarResposta (agoraRegistro t) numeroRemetente
                             (ultimasRespostas s) in
        match intencao with
        | IntencaoPix =>
            let '(p', r) := gerarRespostaPix numeroRemetente t sorteio (pix s) in
            ({| ultimasRespostas := registradas; pix := p' |}, r)
        | _ =>
            ({| ultimasRespostas := registradas; pix := pix s |},
             Retorno (Some (Texto (gerarTexto intencao))))
        end
  end.

End Colaboradores.

End Respostas.

(** ** Sending and fan-out ([src/index.js]) *)

Module Envio.
Import JS.

(** The columns of an [orders] row that the bot reads.  The message
    generators read more of the row (the items, the address, the payment
    method).  The [id] is a text (a uuid), as [pedido.id?.slice(0, 8)]
    expects; the telephones are whatever the row holds. *)
Record Pedido := {
  id : string;
  created_at : Z;
  status : string;
  customer_phone : Valor;
  telefone : Valor;
  order_type : option string;
  tipo_entrega : option string
}.

(** A row of [funcionarios]. *)
Record Entregador := {
  nome : string;
  telefoneEntregador : Valor
}.

Inductive StatusConexao := Desconectado | AguardandoQr | Conectado.

Definition conectado (s : StatusConexao) : bool :=
  match s with Conectado => true | _ => false end.

(** The module-level bindings that sending touches, the environment they
    read, and three logs kept for the statements: [chamadas] records every
    call of [enviarMensagem] (telephone, text), [transmitidas] every
    [sock.sendMessage] that resolved (jid, text), and [esperas] counts the
    awaits that leave the event loop: a [sock.sendMessage], the query of
    [funcionarios], a timer. *)
Record Mundo := {
  sockAtivo : bool;
  statusConexao : StatusConexao;
  mensagensEnviadas : nat;
  pedidosNotificados : nat;
  cacheEntregadores : list Entregador;
  ultimaAtualizacaoCache : option Z;
  (* environment *)
  relogio : Z;
  funcionarios : RespostaSupabase (list Entregador);
  transporte : list bool;
  (* logs *)
  chamadas : list (Valor * string);
  transmitidas : list (string * string);
  esperas : nat
}.

(** *** A state monad with exceptions, for the asynchronous functions *)

Definition M (A : Type) : Type := Mundo -> Resultado A * Mundo.

Definition ret {A} (a : A) : M A := fun w => (Retorno a, w).

Definition bind {A B} (c : M A) (k : A -> M B) : M B :=
  fun w => match c w with
           | (Retorno a, w') => k a w'
           | (Excecao e, w') => (Excecao e, w')
           end.

Definition lancar {A} (e : string) : M A := fun w => (Excecao e, w).

(** A call of a function that returns or throws, and touches nothing. *)
Definition elevar {A} (r : Resultado A) : M A := fun w => (r, w).

(** [try { c } catch (erro) { h(erro) }] *)
Definition tentar {A} (c : M A) (h : string -> M A) : M A :=
  fun w => match c w with
           | (Retorno a, w') => (Retorno a, w')
           | (Excecao e, w') => h e w'
           end.

Definition ler : M Mundo := fun w => (Retorno w, w).
Definition modificar (f : Mundo -> Mundo) : M unit := fun w => (Retorno tt, f w).

Notation "x <- c ;; k" := (bind c (fun x => k))
  (at level 100, c at next level, right associativity).
Notation "c ;;; k" := (bind c (fun _ => k))
  (at level 100, right associativity).

(** [for (const x of xs) { corpo(x) }] *)
Fixpoint paraCada {A} (corpo : A -> M unit) (xs : list A) : M unit :=
  match xs with
  | [] => ret tt
  | x :: r => corpo x ;;; paraCada corpo r
  end.

(** *** Field updates *)

Definition registrarChamada (telefone : Valor) (mensagem : string) (w : Mundo) : Mundo :=
  {| sockAtivo := sockAtivo w; statusConexao := statusConexao w;
     mensagensEnviadas := mensagensEnviadas w; pedidosNotificados := pedidosNotificados w;
     cacheEntregadores := cacheEntregadores w;
     ultimaAtualizacaoCache := ultimaAtualizacaoCache w;
     relogio := relogio w; funcionarios := funcionarios w; transporte := transporte w;
     chamadas := chamadas w ++ [(telefone, mensagem)];
     transmitidas := transmitidas w; esperas := esperas w |}.

Definition consumirTransporte (resto : list bool) (w : Mundo) : Mundo :=
  {| sockAtivo := sockAtivo w; statusConexao := statusConexao w;
     mensagensEnviadas := mensagensEnviadas w; pedidosNotificados := pedidosNotificados w;
     cacheEntregadores := cacheEntregadores w;
     ultimaAtualizacaoCache := ultimaAtualizacaoCache w;
     relogio := relogio w; funcionarios := funcionarios w; transporte := resto;
     chamadas := chamadas w; transmitidas := transmitidas w; esperas := esperas w |}.

Definition registrarTransmissao (jid mensagem : string) (w : Mundo) : Mundo :=
  {| sockAtivo := sockAtivo w; statusConexao := statusConexao w;
     mensagensEnviadas := mensagensEnviadas w; pedidosNotificados := pedidosNotificados w;
     cacheEntregadores := cacheEntregadores w;
     ultimaAtualizacaoCache := ultimaAtualizacaoCache w;
     relogio := relogio w; funcionarios := funcionarios w; transporte := transporte w;
     chamadas := chamadas w;
     transmitidas := transmitidas w ++ [(jid, mensagem)]; esperas := esperas w |}.

Definition contarMensagemEnviada (w : Mundo) : Mundo :=
  {| sockAtivo := sockAtivo w; statusConexao := statusConexao w;
     mensagensEnviadas := S (mensagensEnviadas w); pedidosNotificados := pedidosNotificados w;
     cacheEntregadores := cacheEntregadores w;
     ultimaAtualizacaoCache := ultimaAtualizacaoCache w;
     relogio := relogio w; funcionarios := funcionarios w; transporte := transporte w;
     chamadas := chamadas w; transmitidas := transmitidas w; esperas := esperas w |}.

Definition contarPedidoNotificado (w : Mundo) : Mundo :=
  {| sockAtivo := sockAtivo w; statusConexao := statusConexao w;
     mensagensEnviadas := mensagensEnviadas w; pedidosNotificados := S (pedidosNotificados w);
     cacheEntregadores := cacheEntregadores w;
     ultimaAtualizacaoCache := ultimaAtualizacaoCache w;
     relogio := relogio w; funcionarios := funcionarios w; transporte := transporte w;
     chamadas := chamadas w; transmitidas := transmitidas w; esperas := esperas w |}.

Definition definirCache (es : list Entregador) (agora : Z) (w : Mundo) : Mundo :=
  {| sockAtivo := sockAtivo w; statusConexao := statusConexao w;
     mensagensEnviadas := mensagensEnviadas w; pedidosNotificados := pedidosNotificados w;
     cacheEntregadores := es;
     ultimaAtualizacaoCache := Some agora;
     relogio := relogio w; funcionarios := funcionarios w; transporte := transporte w;
     chamadas := chamadas w; transmitidas := transmitidas w; esperas := esperas w |}.

Definition avancarRelogio (ms : Z) (w : Mundo) : Mundo :=
  {| sockAtivo := sockAtivo w; statusConexao := statusConexao w;
     mensagensEnviadas := mensagensEnviadas w; pedidosNotificados := pedidosNotificados w;
     cacheEntregadores := cacheEntregadores w;
     ultimaAtualizacaoCache := ultimaAtualizacaoCache w;
     relogio := relogio w + ms; funcionarios := funcionarios w; transporte := transporte w;
     chamadas := chamadas w; transmitidas := transmitidas w; esperas := esperas w |}.

Definition contarEspera (w : Mundo) : Mundo :=
  {| sockAtivo := sockAtivo w; statusConexao := statusConexao w;
     mensagensEnviadas := mensagensEnviadas w; pedidosNotificados := pedidosNotificados w;
     cacheEntregadores := cacheEntregadores w;
     ultimaAtualizacaoCache := ultimaAtualizacaoCache w;
     relogio := relogio w; funcionarios := funcionarios w; transporte := transporte w;
     chamadas := chamadas w; transmitidas := transmitidas w; esperas := S (esperas w) |}.

(** *** Couriers *)

Definition INTERVALO_CACHE_MS : Z := 5 * 60 * 1000.

(** [buscarEntregadoresAtivos] ([src/lib/supabase.js]): the active couriers
    with a telephone; an empty list when the query fails. *)
Definition buscarEntregadoresAtivos : M (list Entregador) :=
  modificar contarEspera ;;;
  w <- ler ;;
  match funcionarios w with
  | Dados data => ret (List.filter (fun e => valorVerdadeiro (telefoneEntregador e)) data)
  | Falha _ => ret []
  end.

Definition atualizarCacheEntregadores : M unit :=
  tentar (es <- buscarEntregadoresAtivos ;;
          w <- ler ;;
          modificar (definirCache es (relogio w)))
         (fun _ => ret tt).

Definition obterEntregadores : M (list Entregador) :=
  w <- ler ;;
  let agora := relogio w in
  (match ultimaAtualizacaoCache w with
   | Some ultima =>
       if (ultima =? 0) || (INTERVALO_CACHE_MS <? agora - ultima)
       then atualizarCacheEntregadores else ret tt
   | None => atualizarCacheEntregadores
   end) ;;;
  w' <- ler ;;
  ret (cacheEntregadores w').

(** [await new Promise(resolve => setTimeout(resolve, ms))] *)
Definition esperar (ms : Z) : M unit :=
  modificar contarEspera ;;; modificar (avancarRelogio ms).

(** *** Sending *)

(** [formatarNumeroWhatsApp] on a telephone that is a text. *)
Definition formatarNumeroWhatsApp (telefone : string) : option string :=
  if negb (textoVerdadeiro telefone) then None
  else
    let numero := apenasDigitos telefone in
    let numero := if String.prefix "55" numero then numero else "55" +:+ numero in
    let numero :=
      if (String.length numero =? 13)%nat && String.prefix "55" numero then
        let ddd := String.substring 2 2 numero in
        let nono := String.substring 4 1 numero in
        let resto := String.substring 5 (String.length numero - 5) numero in
        if String.eqb nono "9" then "55" +:+ ddd +:+ resto else numero
      else numero in
    Some (numero +:+ "@s.whatsapp.net").

(** [formatarNumeroWhatsApp] on whatever the caller passes: a falsy value
    gives [null]; only a text has [replace], so a truthy value that is not
    a text throws a [TypeError]. *)
Definition formatarNumeroWhatsAppDe (telefone : Valor) : Resultado (option string) :=
  match telefone with
  | Cadeia t => Retorno (formatarNumeroWhatsApp t)
  | Nulo => Retorno None
  | Outro false => Retorno None
  | Outro true => Excecao "TypeError"
  end.

(** [sock.sendMessage(jid, { text })]: the next entry of [transporte] tells
    whether the promise resolves; it resolves when none is left. *)
Definition sockSendMessage (jid mensagem : string) : M unit :=
  modificar contarEspera ;;;
  w <- ler ;;
  match transporte w with
  | false :: resto => modificar (consumirTransporte resto) ;;; lancar "sendMessage"
  | true :: resto =>
      modificar (consumirTransporte resto) ;;; modificar (registrarTransmissao jid mensagem)
  | [] => modificar (registrarTransmissao jid mensagem)
  end.

(** [enviarMensagem]: the number is formatted before the [try] block. *)
Definition enviarMensagem (telefone : Valor) (mensagem : string) : M bool :=
  modificar (registrarChamada telefone mensagem) ;;;
  w <- ler ;;
  if negb (sockAtivo w) || negb (conectado (statusConexao w)) then ret false
  else
    jid <- elevar (formatarNumeroWhatsAppDe telefone) ;;
    match jid with
    | None => ret false
    | Some jid =>
        tentar (sockSendMessage jid mensagem ;;;
                modificar contarMensagemEnviada ;;;
                ret true)
               (fun _ => ret false)
    end.

Section Configuracao.

(** [process.env.NUMERO_LOJA || ''] and the message generators of
    [src/lib/mensagens.js], collaborators of the dispatcher.  The three
    generators of a new order are called outside any [try] block and throw
    on some rows: on a [null] element of [items] ([formatarItensPedido]), on
    a [payment_method] that is not a text ([traduzirFormaPagamento]). *)
Variable NUMERO_LOJA : string.
Variable gerarMensagemCliente : Pedido -> Resultado string.
Variable gerarMensagemPedidoRecebido : Pedido -> Resultado string.
Variable gerarMensagemEntregador : Pedido -> Resultado string.
Variable gerarMensagemStatusAtualizado : Pedido -> string -> string.

Definition tipoDoPedido (pedido : Pedido) : string :=
  default "" (ou (order_type pedido) (tipo_entrega pedido)).

Definition ehDelivery (pedido : Pedido) : bool :=
  String.eqb (tipoDoPedido pedido) "delivery" || String.eqb (tipoDoPedido pedido) "entrega".

(** The body of the loop over the couriers. *)
Definition notificarEntregador (mensagemEntregador : string) (entregador : Entregador)
  : M unit :=
  if valorVerdadeiro (telefoneEntregador entregador) then
    _ <- enviarMensagem (telefoneEntregador entregador) mensagemEntregador ;;
    esperar 500
  else ret tt.

Definition processarNovoPedido (pedido : Pedido) : M unit :=
  let telefoneCliente := ouValor (customer_phone pedido) (telefone pedido) in
  (if valorVerdadeiro telefoneCliente then
     mensagemCliente <- elevar (gerarMensagemCliente pedido) ;;
     _ <- enviarMensagem telefoneCliente mensagemCliente ;; ret tt
   else ret tt) ;;;
  (if textoVerdadeiro NUMERO_LOJA then
     mensagemLoja <- elevar (gerarMensagemPedidoRecebido pedido) ;;
     enviadoLoja <- enviarMensagem (Cadeia NUMERO_LOJA) mensagemLoja ;;
     if enviadoLoja : bool then modificar contarPedidoNotificado else ret tt
   else ret tt) ;;;
  (if ehDelivery pedido then
     entregadores <- obterEntregadores ;;
     if (length entregadores =? 0)%nat then ret tt
     else
       mensagemEntregador <- elevar (gerarMensagemEntregador pedido) ;;
       paraCada (notificarEntregador mensagemEntregador) entregadores
   else ret tt).

Definition statusNotificar : list string :=
  [ "confirmed"; "confirmado";
    "preparing"; "preparando";
    "ready"; "pronto";
    "out_for_delivery"; "saiu_entrega";
    "delivered"; "entregue";
    "completed"; "finalizado" ].

Definition inclui (xs : list string) (x : string) : bool :=
  existsb (String.eqb x) xs.

Definition processarAtualizacaoStatus (pedido : Pedido) : M unit :=
  if negb (inclui statusNotificar (status pedido)) then ret tt
  else
    (if textoVerdadeiro NUMERO_LOJA then
       _ <- enviarMensagem (Cadeia NUMERO_LOJA)
              (gerarMensagemStatusAtualizado pedido (status pedido)) ;; ret tt
     else ret tt) ;;;
    let telefoneCliente := ouValor (customer_phone pedido) (telefone pedido) in
    if (String.eqb (status pedido) "ready" || String.eqb (status pedido) "pronto")
       && valorVerdadeiro telefoneCliente
    then _ <- enviarMensagem telefoneCliente
                (gerarMensagemStatusAtualizado pedido (status pedido)) ;; ret tt
    else ret tt.

End Configuracao.

End Envio.

(** ** The order poller ([src/index.js]) *)

Module Poller.
Import JS Envio.

(** [pedidosProcessados], a JavaScript [Set] of order ids: the ids in
    insertion order, oldest first. *)
Definition setHas (x : string) (s : list string) : bool := existsb (String.eqb x) s.

Definition setAdd (x : string) (s : list string) : list string :=
  if setHas x s then s else s ++ [x].

Definition setDelete (x : string) (s : list string) : list string :=
  List.filter (fun y => negb (String.eqb x y)) s.

Definition MAX_PEDIDOS_CACHE : nat := 100.
Definition LIMITE_CONSULTA : nat := 10.

(** The poller's bindings, the sending world, and two logs kept for the
    statements: [despachos] records the id of every order handed to
    [processarNovoPedido], [consultas] the cursor of every query issued. *)
Record Estado := {
  mundo : Mundo;
  ultimoPedidoProcessado : Z;
  pedidosProcessados : list string;
  lojaFechadaPeloAdmin : bool;
  despachos : list string;
  consultas : list Z
}.

Definition comMundo (w : Mundo) (s : Estado) : Estado :=
  {| mundo := w; ultimoPedidoProcessado := ultimoPedidoProcessado s;
     pedidosProcessados := pedidosProcessados s;
     lojaFechadaPeloAdmin := lojaFechadaPeloAdmin s;
     despachos := despachos s; consultas := consultas s |}.

Definition comCursor (c : Z) (s : Estado) : Estado :=
  {| mundo := mundo s; ultimoPedidoProcessado := c;
     pedidosProcessados := pedidosProcessados s;
     lojaFechadaPeloAdmin := lojaFechadaPeloAdmin s;
     despachos := despachos s; consultas := consultas s |}.

Definition comProcessados (p : list string) (s : Estado) : Estado :=
  {| mundo := mundo s; ultimoPedidoProcessado := ultimoPedidoProcessado s;
     pedidosProcessados := p;
     lojaFechadaPeloAdmin := lojaFechadaPeloAdmin s;
     despachos := despachos s; consultas := consultas s |}.

Definition comLojaFechada (b : bool) (s : Estado) : Estado :=
  {| mundo := mundo s; ultimoPedidoProcessado := ultimoPedidoProcessado s;
     pedidosProcessados := pedidosProcessados s;
     lojaFechadaPeloAdmin := b;
     despachos := despachos s; consultas := consultas s |}.

Definition registrarDespacho (i : string) (s : Estado) : Estado :=
  {| mundo := mundo s; ultimoPedidoProcessado := ultimoPedidoProcessado s;
     pedidosProcessados := pedidosProcessados s;
     lojaFechadaPeloAdmin := lojaFechadaPeloAdmin s;
     despachos := despachos s ++ [i]; consultas := consultas s |}.

Definition registrarConsulta (s : Estado) : Estado :=
  {| mundo := mundo s; ultimoPedidoProcessado := ultimoPedidoProcessado s;
     pedidosProcessados := pedidosProcessados s;
     lojaFechadaPeloAdmin := lojaFechadaPeloAdmin s;
     despachos := despachos s;
     consultas := consultas s ++ [ultimoPedidoProcessado s] |}.

(** [verificarStatusLoja], on the answer of the [store_settings] query for
    [manual_status]: [data?.setting_value] is the value read, absent when the
    row has none; a failed query leaves the flag as it was. *)
Definition verificarStatusLoja (resposta : RespostaSupabase (option string))
  (s : Estado) : Estado :=
  match resposta with
  | Falha _ => s
  | Dados setting_value =>
      let novoStatus := match setting_value with
                        | Some v => String.eqb v "closed"
                        | None => false
                        end in
      if negb (Bool.eqb novoStatus (lojaFechadaPeloAdmin s))
      then comLojaFechada novoStatus s else s
  end.

(** The query of [verificarNovosPedidos] over the rows of [orders]:
    [.gt('created_at', cursor).order('created_at', { ascending: true }).limit(10)].
    Rows with equal [created_at] keep the order of the table. *)
Definition consultarNovosPedidos (tabela : list Pedido) (cursor : Z) : list Pedido :=
  firstn LIMITE_CONSULTA
    (ordenarPor created_at (List.filter (fun p => cursor <? created_at p) tabela)).

(** The trimming of [pedidosProcessados] after an insertion. *)
Definition limitarCache (s : list string) : list string :=
  if (MAX_PEDIDOS_CACHE <? length s)%nat then
    let idsArray := s in
    let idsParaRemover := firstn (length idsArray - MAX_PEDIDOS_CACHE) idsArray in
    fold_left (fun acc i => setDelete i acc) idsParaRemover s
  else s.

Section Configuracao.

Variable NUMERO_LOJA : string.
Variable gerarMensagemCliente : Pedido -> Resultado string.
Variable gerarMensagemPedidoRecebido : Pedido -> Resultado string.
Variable gerarMensagemEntregador : Pedido -> Resultado string.

Definition despachar (pedido : Pedido) (s : Estado) : Resultado unit * Estado :=
  let '(r, w) := processarNovoPedido NUMERO_LOJA gerarMensagemCliente
                   gerarMensagemPedidoRecebido gerarMensagemEntregador
                   pedido (mundo s) in
  (r, comMundo w (registrarDespacho (id pedido) s)).

(** What follows [await processarNovoPedido(pedido)] in the loop body. *)
Definition concluirPedido (pedido : Pedido) (s : Estado) : Estado :=
  comCursor (created_at pedido)
    (comProcessados (limitarCache (setAdd (id pedido) (pedidosProcessados s))) s).

(** The [for (const pedido of novosPedidos)] loop inside the [try] block:
    an exception of [processarNovoPedido] leaves the loop at that order,
    before the order is marked as processed and before the cursor moves. *)
Fixpoint processarLote (novosPedidos : list Pedido) (s : Estado)
  : Resultado unit * Estado :=
  match novosPedidos with
  | [] => (Retorno tt, s)
  | pedido :: resto =>
      if setHas (id pedido) (pedidosProcessados s) then
        processarLote resto (comCursor (created_at pedido) s)
      else
        match despachar pedido s with
        | (Retorno _, s1) => processarLote resto (concluirPedido pedido s1)
        | (Excecao e, s1) => (Excecao e, s1)
        end
  end.

(** The orders that a tick observes: none when the shop is closed by the
    admin or the query fails. *)
Definition loteObservado (resposta : RespostaSupabase (list Pedido)) (s : Estado)
  : list Pedido :=
  if lojaFechadaPeloAdmin s then []
  else match resposta with
       | Dados tabela => consultarNovosPedidos tabela (ultimoPedidoProcessado s)
       | Falha _ => []
       end.

(** One tick; [resposta] is the [orders] table at the time of the query, or
    the failure of the query.  The [catch] of the function only logs. *)
Definition verificarNovosPedidos (resposta : RespostaSupabase (list Pedido))
  (s : Estado) : Estado :=
  if lojaFechadaPeloAdmin s then s
  else
    let s0 := registrarConsulta s in
    match resposta with
    | Falha _ => s0
    | Dados tabela =>
        snd (processarLote (consultarNovosPedidos tabela (ultimoPedidoProcessado s0)) s0)
    end.

(** Whether the loop of a tick ran to its end: no dispatch threw. *)
Definition tickConcluido (resposta : RespostaSupabase (list Pedido)) (s : Estado) : bool :=
  match fst (processarLote (loteObservado resposta s) (registrarConsulta s)) with
  | Retorno _ => true
  | Excecao _ => false
  end.

(** A run of ticks, one answer per tick. *)
Definition executarTicks (respostas : list (RespostaSupabase (list Pedido)))
  (s : Estado) : Estado :=
  fold_left (fun acc r => verificarNovosPedidos r acc) respostas s.

End Configuracao.

End Poller.

(** ** Ticks as the event loop runs them ([src/index.js])

    [setInterval(verificarNovosPedidos, INTERVALO_POLLING_MS)] starts a call
    of the asynchronous [verificarNovosPedidos] at every firing.  A call runs
    until its next [await] and is resumed when the awaited promise settles;
    other callbacks run in between.  The calls in flight are kept with the
    point where each is suspended. *)

Module Concorrencia.
Import JS Envio Poller.

(** Where a call of [verificarNovosPedidos] is suspended. *)
Inductive Suspensao :=
| AguardandoConsulta (cursor : Z)
| AguardandoDespacho (pedido : Pedido) (resto : list Pedido).

Inductive Marca := Inicio | Fim.

(** The poller state, the calls in flight by call number, the number of the
    next call, and the log of dispatch starts and ends per call. *)
Record Sistema := {
  estado : Estado;
  emVoo : gmap nat Suspensao;
  proximoTick : nat;
  registro : list (nat * (Marca * Pedido))
}.

Inductive Evento :=
| Disparo
| RespostaConsulta (tick : nat) (resposta : RespostaSupabase (list Pedido))
| FimDespacho (tick : nat).

Definition sistemaInicial (s : Estado) : Sistema :=
  {| estado := s; emVoo := ∅; proximoTick := 0; registro := [] |}.

(** Start and end of each order of a list, one order after the other. *)
Definition emSequencia (pedidos : list Pedido) : list (Marca * Pedido) :=
  flat_map (fun p => [(Inicio, p); (Fim, p)]) pedidos.

Section Configuracao.

Variable NUMERO_LOJA : string.
Variable gerarMensagemCliente : Pedido -> Resultado string.
Variable gerarMensagemPedidoRecebido : Pedido -> Resultado string.
Variable gerarMensagemEntregador : Pedido -> Resultado string.

(** Whether [await processarNovoPedido(pedido)] leaves the event loop: the
    dispatch reaches a [sock.sendMessage], the query of the couriers or the
    pause between two couriers.  A dispatch that reaches none of them
    settles in a microtask, before any timer fires. *)
Definition suspende (pedido : Pedido) (s : Estado) : bool :=
  negb (esperas (mundo (snd (despachar NUMERO_LOJA gerarMensagemCliente
                               gerarMensagemPedidoRecebido gerarMensagemEntregador
                               pedido s)))
        =? esperas (mundo s))%nat.

(** The loop from its current position to the next dispatch that leaves
    the event loop: the part that runs without suspension.  The answer
    holds the orders dispatched on the way, and the order (with the rest of
    the batch) at which the call is suspended, if any. *)
Fixpoint avancar (novosPedidos : list Pedido) (s : Estado)
  : Estado * list Pedido * option (Pedido * list Pedido) :=
  match novosPedidos with
  | [] => (s, [], None)
  | pedido :: resto =>
      if setHas (id pedido) (pedidosProcessados s)
      then avancar resto (comCursor (created_at pedido) s)
      else if suspende pedido s then (s, [], Some (pedido, resto))
      else
        match despachar NUMERO_LOJA gerarMensagemCliente gerarMensagemPedidoRecebido
                gerarMensagemEntregador pedido s with
        | (Retorno _, s1) =>
            let '(s', feitos, parada) := avancar resto (concluirPedido pedido s1) in
            (s', pedido :: feitos, parada)
        | (Excecao _, s1) => (s1, [pedido], None)
        end
  end.

(** Resume call [tick] at the head of [novosPedidos]. *)
Definition retomar (tick : nat) (novosPedidos : list Pedido) (s : Estado)
  (sys : Sistema) : Sistema :=
  match avancar novosPedidos s with
  | (s', feitos, None) =>
      {| estado := s'; emVoo := delete tick (emVoo sys);
         proximoTick := proximoTick sys;
         registro := registro sys ++ List.map (pair tick) (emSequencia feitos) |}
  | (s', feitos, Some (pedido, resto)) =>
      {| estado := s'; emVoo := <[tick := AguardandoDespacho pedido resto]> (emVoo sys);
         proximoTick := proximoTick sys;
         registro := registro sys ++ List.map (pair tick) (emSequencia feitos)
                       ++ [(tick, (Inicio, pedido))] |}
  end.

Definition encerrar (tick : nat) (s : Estado) (sys : Sistema) : Sistema :=
  {| estado := s; emVoo := delete tick (emVoo sys);
     proximoTick := proximoTick sys; registro := registro sys |}.

Definition passo (sys : Sistema) (e : Evento) : Sistema :=
  match e with
  | Disparo =>
      if lojaFechadaPeloAdmin (estado sys) then sys
      else
        {| estado := registrarConsulta (estado sys);
           emVoo := <[proximoTick sys :=
                        AguardandoConsulta (ultimoPedidoProcessado (estado sys))]>
                      (emVoo sys);
           proximoTick := S (proximoTick sys);
           registro := registro sys |}
  | RespostaConsulta tick resposta =>
      match emVoo sys !! tick with
      | Some (AguardandoConsulta cursor) =>
          match resposta with
          | Falha _ => encerrar tick (estado sys) sys
          | Dados tabela =>
              retomar tick (consultarNovosPedidos tabela cursor) (estado sys) sys
          end
      | _ => sys
      end
  | FimDespacho tick =>
      match emVoo sys !! tick with
      | Some (AguardandoDespacho pedido resto) =>
          let sys1 :=
            {| estado := estado sys; emVoo := emVoo sys;
               proximoTick := proximoTick sys;
               registro := registro sys ++ [(tick, (Fim, pedido))] |} in
          match despachar NUMERO_LOJA gerarMensagemCliente gerarMensagemPedidoRecebido
                  gerarMensagemEntregador pedido (estado sys) with
          | (Retorno _, s1) => retomar tick resto (concluirPedido pedido s1) sys1
          | (Excecao _, s1) => encerrar tick s1 sys1
          end
      | _ => sys
      end
  end.

Definition executar (eventos : list Evento) (sys : Sistema) : Sistema :=
  fold_left passo eventos sys.

End Configuracao.

(** The dispatch marks of one call, in the order they were logged. *)
Definition marcasDoTick (tick : nat) (reg : list (nat * (Marca * Pedido)))
  : list (Marca * Pedido) :=
  List.map snd (List.filter (fun e => (fst e =? tick)%nat) reg).

End Concorrencia.

(** ** Reconnection ([src/index.js], the [connection.update] handler) *)

Module Reconexao.
Import JS.

(** The status codes of Baileys' [DisconnectReason] that the handler names. *)
Record DisconnectReason := {
  loggedOut : Z;
  connectionClosed : Z;
  connectionLost : Z;
  connectionReplaced : Z;
  timedOut : Z;
  restartRequired : Z
}.

(** The values of @whiskeysockets/baileys. *)
Definition baileys : DisconnectReason :=
  {| loggedOut := 401; connectionClosed := 428; connectionLost := 408;
     connectionReplaced := 440; timedOut := 408; restartRequired := 515 |}.

Inductive StatusConexao := Desconectado | AguardandoQr | Conectado.
Inductive Connection := Close | Open | Connecting.

Record Conexao := {
  statusConexao : StatusConexao;
  qrCodeAtual : option string;
  contadorQrCodes : nat;
  estaAutenticado : bool;
  tentativasReconexao : nat
}.

(** The fields of a [connection.update] event that the handler reads;
    [statusCode] is [lastDisconnect?.error?.output?.statusCode]. *)
Record Update := {
  connection : option Connection;
  statusCode : option Z;
  qr : option string
}.

(** What the handler asks for: [setTimeout(iniciarConexaoWhatsApp, ms)],
    [limparSessao()] and [configurarPollingPedidos()]. *)
Inductive Acao :=
| Reiniciar (atrasoMs : Q)
| LimparSessao
| ConfigurarPolling.

Definition MAX_TENTATIVAS_RECONEXAO : nat := 5.
Definition DELAY_BASE_RECONEXAO_MS : Q := 3000.

(** [DELAY_BASE_RECONEXAO_MS * Math.pow(2, tentativasReconexao - 1)] *)
Definition delayReconexao (tentativasReconexao : nat) : Q :=
  (DELAY_BASE_RECONEXAO_MS * Qpower 2 (Z.of_nat tentativasReconexao - 1))%Q.

Section Configuracao.

Variable DR : DisconnectReason.
Variable USAR_SUPABASE_AUTH : bool.

Definition codigoIgual (statusCode : option Z) (c : Z) : bool :=
  match statusCode with Some x => x =? c | None => false end.

Definition foiDesconexaoTemporaria (statusCode : option Z) : bool :=
  codigoIgual statusCode (connectionClosed DR)
  || codigoIgual statusCode (connectionLost DR)
  || codigoIgual statusCode (connectionReplaced DR)
  || codigoIgual statusCode (timedOut DR)
  || codigoIgual statusCode (restartRequired DR).

(** The [if (connection === 'close')] block; [s] is the state after the
    [qr] block. *)
Definition aoFechar (statusCode : option Z) (s : Conexao) : Conexao * list Acao :=
  let eConexaoInicial := negb (estaAutenticado s) && (contadorQrCodes s =? 0)%nat in
  let foiLogout := codigoIgual statusCode (loggedOut DR) in
  let foiTemporaria := foiDesconexaoTemporaria statusCode in
  if eConexaoInicial then
    ({| statusConexao := Desconectado; qrCodeAtual := None;
        contadorQrCodes := contadorQrCodes s; estaAutenticado := estaAutenticado s;
        tentativasReconexao := tentativasReconexao s |}, [])
  else if foiLogout then
    ({| statusConexao := Desconectado; qrCodeAtual := None;
        contadorQrCodes := 0; estaAutenticado := false;
        tentativasReconexao := 0 |},
     (if USAR_SUPABASE_AUTH then [LimparSessao] else []) ++ [Reiniciar 2000])
  else if estaAutenticado s || foiTemporaria then
    let tentativas := S (tentativasReconexao s) in
    let excedeu := (MAX_TENTATIVAS_RECONEXAO <? tentativas)%nat in
    let tentativas' := if excedeu then 0%nat else tentativas in
    ({| statusConexao := Desconectado; qrCodeAtual := None;
        contadorQrCodes := if excedeu then 0%nat else contadorQrCodes s;
        estaAutenticado := estaAutenticado s;
        tentativasReconexao := tentativas' |},
     [Reiniciar (delayReconexao tentativas')])
  else if (0 <? contadorQrCodes s)%nat then
    ({| statusConexao := Desconectado; qrCodeAtual := None;
        contadorQrCodes := contadorQrCodes s; estaAutenticado := estaAutenticado s;
        tentativasReconexao := tentativasReconexao s |}, [])
  else
    ({| statusConexao := Desconectado; qrCodeAtual := None;
        contadorQrCodes := contadorQrCodes s; estaAutenticado := estaAutenticado s;
        tentativasReconexao := tentativasReconexao s |}, [Reiniciar 5000]).

(** The [if (qr)] block. *)
Definition aoReceberQr (qr : option string) (s : Conexao) : Conexao :=
  if verdadeiro qr then
    {| statusConexao := AguardandoQr; qrCodeAtual := qr;
       contadorQrCodes := S (contadorQrCodes s); estaAutenticado := estaAutenticado s;
       tentativasReconexao := tentativasReconexao s |}
  else s.

(** The handler of [connection.update]. *)
Definition aoAtualizarConexao (u : Update) (s : Conexao) : Conexao * list Acao :=
  let s1 := aoReceberQr (qr u) s in
  match connection u with
  | Some Close => aoFechar (statusCode u) s1
  | Some Open =>
      ({| statusConexao := Conectado; qrCodeAtual := None;
          contadorQrCodes := contadorQrCodes s1; estaAutenticado := true;
          tentativasReconexao := 0 |}, [ConfigurarPolling])
  | _ => (s1, [])
  end.

(** The closures that reach the backoff branch of [aoFechar]. *)
Definition ramoBackoff (statusCode : option Z) (s : Conexao) : bool :=
  negb (negb (estaAutenticado s) && (contadorQrCodes s =? 0)%nat)
  && negb (codigoIgual statusCode (loggedOut DR))
  && (estaAutenticado s || foiDesconexaoTemporaria statusCode).

End Configuracao.

End Reconexao.

(** ** Starting the poller ([src/index.js], [configurarPollingPedidos]) *)

Module Arranque.
Import JS Envio Poller.

(** The callbacks that the bot hands to [setInterval]. *)
Inductive Tarefa := TarefaPolling | TarefaVerificacaoLoja.

Definition INTERVALO_POLLING_MS : Z := 10000.
Definition INTERVALO_VERIFICACAO_LOJA_MS : Z := 30000.

(** The two bindings that hold interval handles, and the intervals that
    the runtime keeps running: handle to callback and period.  A handle is
    a [Timeout] object, fresh at every [setInterval]. *)
Record Temporizadores := {
  intervaloPolling : option nat;
  intervaloVerificacaoLoja : option nat;
  ativos : gmap nat (Tarefa * Z);
  proximoHandle : nat
}.

Definition semTemporizadores : Temporizadores :=
  {| intervaloPolling := None; intervaloVerificacaoLoja := None;
     ativos := ∅; proximoHandle := 0 |}.

(** [clearInterval(intervaloPolling); intervaloPolling = null] *)
Definition limparPolling (h : nat) (t : Temporizadores) : Temporizadores :=
  {| intervaloPolling := None; intervaloVerificacaoLoja := intervaloVerificacaoLoja t;
     ativos := delete h (ativos t); proximoHandle := proximoHandle t |}.

(** [intervaloPolling = setInterval(verificarNovosPedidos, INTERVALO_POLLING_MS)] *)
Definition iniciarPolling (t : Temporizadores) : Temporizadores :=
  {| intervaloPolling := Some (proximoHandle t);
     intervaloVerificacaoLoja := intervaloVerificacaoLoja t;
     ativos := <[proximoHandle t := (TarefaPolling, INTERVALO_POLLING_MS)]> (ativos t);
     proximoHandle := S (proximoHandle t) |}.

(** [clearInterval(intervaloVerificacaoLoja)]: the binding keeps the handle. *)
Definition limparVerificacao (h : nat) (t : Temporizadores) : Temporizadores :=
  {| intervaloPolling := intervaloPolling t;
     intervaloVerificacaoLoja := intervaloVerificacaoLoja t;
     ativos := delete h (ativos t); proximoHandle := proximoHandle t |}.

(** [intervaloVerificacaoLoja = setInterval(verificarStatusLoja, ...)] *)
Definition iniciarVerificacao (t : Temporizadores) : Temporizadores :=
  {| intervaloPolling := intervaloPolling t;
     intervaloVerificacaoLoja := Some (proximoHandle t);
     ativos := <[proximoHandle t :=
                   (TarefaVerificacaoLoja, INTERVALO_VERIFICACAO_LOJA_MS)]> (ativos t);
     proximoHandle := S (proximoHandle t) |}.

(** The outcome of the query for the latest order,
    [.order('created_at', { ascending: false }).limit(1).single()]: the
    rows of [orders] at the time of the query, an answer that carries an
    [error] (and no [data]), or a rejected promise. *)
Inductive ConsultaUltimo :=
| Tabela (linhas : list Pedido)
| ErroConsulta (erro : string)
| Rejeitada (erro : string).

(** The row that the query selects: the first in descending order of
    [created_at]; [.single()] answers an error, and no [data], when there
    is none. *)
Definition ultimoPedidoDe (linhas : list Pedido) : option Pedido :=
  List.head (ordenarPor (fun p => - created_at p) linhas).

Record Sistema := {
  poller : Poller.Estado;
  temporizadores : Temporizadores
}.

(** [configurarPollingPedidos]; [ultimo] is the outcome of the query for
    the latest order and [statusLoja] the answer that the closing call of
    [verificarStatusLoja] reads.  [new Date()] reads the clock of the
    world.  Nothing in the function catches a rejection of the query. *)
Definition configurarPollingPedidos (ultimo : ConsultaUltimo)
  (statusLoja : RespostaSupabase (option string)) (sis : Sistema)
  : Resultado unit * Sistema :=
  let t1 := match intervaloPolling (temporizadores sis) with
            | Some h => limparPolling h (temporizadores sis)
            | None => temporizadores sis
            end in
  match atualizarCacheEntregadores (mundo (poller sis)) with
  | (Excecao e, w1) =>
      (Excecao e, {| poller := comMundo w1 (poller sis); temporizadores := t1 |})
  | (Retorno _, w1) =>
      let s1 := comMundo w1 (poller sis) in
      match ultimo with
      | Rejeitada e => (Excecao e, {| poller := s1; temporizadores := t1 |})
      | _ =>
          let ultimoPedido := match ultimo with
                              | Tabela linhas => ultimoPedidoDe linhas
                              | _ => None
                              end in
          let s2 := match ultimoPedido with
                    | Some p => comCursor (created_at p) s1
                    | None => comCursor (relogio w1) s1
                    end in
          let t2 := iniciarPolling t1 in
          let t3 := match intervaloVerificacaoLoja t2 with
                    | Some h => limparVerificacao h t2
                    | None => t2
                    end in
          let t4 := iniciarVerificacao t3 in
          (Retorno tt, {| poller := verificarStatusLoja statusLoja s2;
                          temporizadores := t4 |})
      end
  end.

End Arranque.

(** ** The settings cache and the anti-spam reset
    ([src/lib/respostasAutomaticas.js]) *)

Module Configuracoes.
Import JS.

Definition INTERVALO_CACHE_CONFIG_MS : Z := 5 * 60 * 1000.

(** [configuracoesLoja] ([null] until the first load) and
    [ultimaAtualizacaoConfig]. *)
Record Cache := {
  configuracoesLoja : option (gmap string string);
  ultimaAtualizacaoConfig : option Z
}.

(** [objeto[chave] = valor] on a plain object, for a text [valor]: the
    assignment to ["__proto__"] goes to the prototype setter, which ignores
    a value that is not an object. *)
Definition atribuir (chave valor : string) (objeto : gmap string string)
  : gmap string string :=
  if String.eqb chave "__proto__" then objeto else <[chave := valor]> objeto.

(** The loop over the rows [(setting_key, setting_value)]. *)
Definition montarConfiguracoes (data : list (string * string)) : gmap string string :=
  fold_left (fun acc item => atribuir (fst item) (snd item) acc) data ∅.

(** [configuracoesLoja && ultimaAtualizacaoConfig &&
     (agora - ultimaAtualizacaoConfig) < INTERVALO_CACHE_CONFIG_MS] *)
Definition cacheValido (agora : Z) (c : Cache) : bool :=
  match configuracoesLoja c, ultimaAtualizacaoConfig c with
  | Some _, Some ultima =>
      negb (ultima =? 0) && (agora - ultima <? INTERVALO_CACHE_CONFIG_MS)
  | _, _ => false
  end.

(** [carregarConfiguracoesLoja]; [agora] is the reading of [Date.now()]
    and [resposta] the answer of the [store_settings] query, consulted only
    when the cache is not valid.  An answer with an [error] and a rejected
    promise are handled alike: the function returns
    [configuracoesLoja || {}] and leaves the cache as it was. *)
Definition carregarConfiguracoesLoja (agora : Z)
  (resposta : RespostaSupabase (list (string * string))) (c : Cache)
  : gmap string string * Cache :=
  if cacheValido agora c then (default ∅ (configuracoesLoja c), c)
  else
    match resposta with
    | Falha _ => (default ∅ (configuracoesLoja c), c)
    | Dados data =>
        let novas := montarConfiguracoes data in
        (novas, {| configuracoesLoja := Some novas; ultimaAtualizacaoConfig := Some agora |})
    end.

(** [atualizarConfiguracoes]: forget the time of the last load, then load. *)
Definition atualizarConfiguracoes (agora : Z)
  (resposta : RespostaSupabase (list (string * string))) (c : Cache)
  : gmap string string * Cache :=
  carregarConfiguracoesLoja agora resposta
    {| configuracoesLoja := configuracoesLoja c; ultimaAtualizacaoConfig := None |}.

(** [resetarAntiSpam(numero)] on [ultimasRespostas]: [delete] for a
    non-empty number, [clear] without one. *)
Definition resetarAntiSpam (numero : option string) (m : gmap string Z) : gmap string Z :=
  match numero with
  | Some n => if textoVerdadeiro n then delete n m else ∅
  | None => ∅
  end.

End Configuracoes.

(** ** The date of Easter ([src/lib/respostasAutomaticas.js]) *)

Module Calendario.

(** [calcularPascoa(ano)], for an integer year: [%] is the remainder of
    the truncated division, [Z.rem], and [Math.floor(x / n)] with a positive
    integer [n] is [x / n].  The result is [{ mes, dia }]. *)
Definition calcularPascoa (ano : Z) : Z * Z :=
  let a := Z.rem ano 19 in
  let b := ano / 100 in
  let c := Z.rem ano 100 in
  let d := b / 4 in
  let e := Z.rem b 4 in
  let f := (b + 8) / 25 in
  let g := (b - f + 1) / 3 in
  let h := Z.rem (19 * a + b - d - g + 15) 30 in
  let i := c / 4 in
  let k := Z.rem c 4 in
  let l := Z.rem (32 + 2 * e + 2 * i - h - k) 7 in
  let m := (a + 11 * h + 22 * l) / 451 in
  let mes := (h + l - 7 * m + 114) / 31 in
  let dia := Z.rem (h + l - 7 * m + 114) 31 + 1 in
  (mes, dia).

(** [obterSaudacao], on the hour that [obterDataHoraAtual] reads. *)
Definition obterSaudacao (hora : Z) : string :=
  if (5 <=? hora) && (hora <? 12) then "Bom dia"
  else if (12 <=? hora) && (hora <? 18) then "Boa tarde"
  else "Boa noite".

End Calendario.

(** ** Keyword detection ([src/lib/respostasAutomaticas.js])

    [normalizarTexto] and [detectarIntencao] on messages of ASCII
    characters.  On such a message [normalize('NFD')] and the removal of
    the combining marks change nothing, [toLowerCase] moves A-Z to a-z,
    [\w] is a letter, a digit or the underscore, and [\s] and [trim] know
    the six ASCII blanks.  Characters outside ASCII are outside this
    embedding: the properties are stated for ASCII messages. *)

Module Deteccao.
Import JS Respostas.

Definition ehAscii (c : ascii) : bool := (nat_of_ascii c <? 128)%nat.

Fixpoint soAscii (s : string) : bool :=
  match s with
  | EmptyString => true
  | String c r => ehAscii c && soAscii r
  end.

Definition minuscula (c : ascii) : ascii :=
  let n := nat_of_ascii c in
  if (65 <=? n)%nat && (n <=? 90)%nat then ascii_of_nat (n + 32) else c.

Fixpoint toLowerCase (s : string) : string :=
  match s with
  | EmptyString => EmptyString
  | String c r => String (minuscula c) (toLowerCase r)
  end.

(** [\w] *)
Definition ehPalavra (c : ascii) : bool :=
  let n := nat_of_ascii c in
  ((48 <=? n)%nat && (n <=? 57)%nat)
  || ((65 <=? n)%nat && (n <=? 90)%nat)
  || ((97 <=? n)%nat && (n <=? 122)%nat)
  || (n =? 95)%nat.

(** [\s]: tab, line feed, vertical tab, form feed, carriage return, space. *)
Definition ehEspaco (c : ascii) : bool :=
  let n := nat_of_ascii c in
  ((9 <=? n)%nat && (n <=? 13)%nat) || (n =? 32)%nat.

Fixpoint trimStart (s : string) : string :=
  match s with
  | EmptyString => EmptyString
  | String c r => if ehEspaco c then trimStart r else s
  end.

Fixpoint trimEnd (s : string) : string :=
  match s with
  | EmptyString => EmptyString
  | String c r =>
      match trimEnd r with
      | EmptyString => if ehEspaco c then EmptyString else String c EmptyString
      | r' => String c r'
      end
  end.

Definition trim (s : string) : string := trimEnd (trimStart s).

(** [texto.toLowerCase().normalize('NFD').replace(/[\u0300-\u036f]/g, '')
         .replace(/[^\w\s]/g, '').trim()] *)
Definition normalizarTexto (texto : string) : string :=
  trim (filtrarTexto (fun c => ehPalavra c || ehEspaco c) (toLowerCase texto)).

(** [texto.includes(t)] *)
Fixpoint includes (t texto : string) : bool :=
  String.prefix t texto
  || match texto with
     | EmptyString => false
     | String _ r => includes t r
     end.

Definition startsWith (t texto : string) : bool := String.prefix t texto.

(** [texto.endsWith(t)] *)
Fixpoint endsWith (t texto : string) : bool :=
  String.eqb t texto
  || match texto with
     | EmptyString => false
     | String _ r => endsWith t r
     end.

Definition termosSaudacao : list string :=
  [ "boa noite"; "boa tarde"; "bom dia"; "boa madrugada";
    "oi"; "ola"; "hey"; "eae"; "e ai"; "fala";
    "salve"; "hello"; "hi"; "oie"; "oii"; "oiii";
    "boa"; "bao"; "blz"; "beleza"; "tudo bem";
    "tudo bom"; "como vai"; "opa"; "opaa" ].

Definition termosPix : list string :=
  [ "pix"; "chave pix"; "chave do pix"; "qual o pix"; "qual pix";
    "manda o pix"; "manda pix"; "envia o pix"; "envia pix";
    "passa o pix"; "passa pix"; "me passa o pix";
    "forma de pagamento"; "formas de pagamento"; "como pagar";
    "como pago"; "como faco pra pagar"; "como eu pago";
    "pagamento"; "transferencia"; "transferir" ].

Definition termosHorario : list string :=
  [ "horario"; "horarios"; "que horas abre"; "que horas fecha";
    "ta aberto"; "esta aberto"; "aberto"; "fechado";
    "que horas"; "funciona ate"; "abre que horas";
    "hora de funcionar"; "funcionamento" ].

Definition termosPedido : list string :=
  [ "quero pedir"; "quero fazer pedido"; "fazer pedido";
    "como faco pedido"; "como pedir"; "como faz pra pedir";
    "aceita pedido"; "pedido"; "menu"; "site" ].

Definition termosEntrega : list string :=
  [ "entrega"; "delivery"; "entregam"; "taxa de entrega";
    "taxa entrega"; "frete"; "entregam aqui"; "entrega no";
    "voces entregam"; "faz entrega" ].

Definition termosChurrasco : list string :=
  [ "churrasco"; "carne"; "picanha"; "costela"; "maminha";
    "carneiro"; "suino"; "frango"; "linguica"; "toscana";
    "mignon"; "file"; "contra file"; "pernil"; "carre";
    "tira gosto"; "tiragosto"; "porcao"; "porcoes";
    "cardapio"; "tem carne"; "quero carne";
    "vende carne"; "quero churrasco"; "tem churrasco";
    "bebida"; "cerveja"; "heineken"; "budweiser"; "skol";
    "whisky"; "vodka"; "gin"; "dose"; "suco" ].

Definition termosMarmita : list string :=
  [ "marmita"; "marmitex"; "quentinha"; "viagem";
    "pra levar"; "embalagem"; "quero marmita"; "tem marmita" ].

Definition termosLocalizacao : list string :=
  [ "endereco"; "onde fica"; "localizacao"; "como chegar";
    "onde voces ficam"; "onde e"; "qual o endereco"; "mapa";
    "rua"; "local"; "onde fica a loja" ].

(** [termos.some(t => texto.includes(t))] *)
Definition algumContido (termos : list string) (texto : string) : bool :=
  existsb (fun t => includes t texto) termos.

Definition detectarIntencao (mensagem : string) : option Intencao :=
  let texto := normalizarTexto mensagem in
  if algumContido termosPix texto then Some IntencaoPix
  else if algumContido termosHorario texto then Some IntencaoHorario
  else if algumContido termosPedido texto then Some IntencaoPedido
  else if algumContido termosEntrega texto then Some Entrega
  else if algumContido termosMarmita texto then Some Marmita
  else if algumContido termosLocalizacao texto then Some Localizacao
  else if algumContido termosChurrasco texto then Some Churrasco
  else if existsb (fun t => String.eqb texto t
                            || startsWith (t +:+ " ") texto
                            || endsWith (" " +:+ t) texto) termosSaudacao
  then Some Saudacao
  else None.

End Deteccao.

(** ** Telephones for display ([src/lib/mensagens.js]) *)

Module Mensagens.
Import JS.

(** [s.slice(inicio)] and [s.slice(inicio, fim)] for indices inside the text. *)
Definition sliceDe (inicio : nat) (s : string) : string :=
  String.substring inicio (String.length s - inicio) s.

Definition slice (inicio fim : nat) (s : string) : string :=
  String.substring inicio (fim - inicio) s.

(** [numeros.startsWith('55') ? numeros.slice(2) : numeros] *)
Definition semPais (numeros : string) : string :=
  if String.prefix "55" numeros then sliceDe 2 numeros else numeros.

(** [formatarTelefone]; the callers pass
    [pedido.customer_phone || pedido.telefone]. *)
Definition formatarTelefone (telefone : option string) : string :=
  match telefone with
  | None => "Não informado"
  | Some t =>
      if negb (textoVerdadeiro t) then "Não informado"
      else
        let numeros := apenasDigitos t in
        let semPais := semPais numeros in
        if (String.length semPais =? 11)%nat then
          "(" +:+ slice 0 2 semPais +:+ ") " +:+ slice 2 7 semPais
              +:+ "-" +:+ sliceDe 7 semPais
        else if (String.length semPais =? 10)%nat then
          "(" +:+ slice 0 2 semPais +:+ ") " +:+ slice 2 6 semPais
              +:+ "-" +:+ sliceDe 6 semPais
        else t
  end.

End Mensagens.

(** ** Incoming messages ([src/index.js], the [messages.upsert] handler) *)

Module Recebimento.
Import JS Envio Respostas.

(** The fields of an incoming message that the handler reads:
    [key.fromMe], [key.remoteJid], and the four places of the text,
    [message?.conversation], [message?.extendedTextMessage?.text],
    [message?.imageMessage?.caption] and [message?.videoMessage?.caption]. *)
Record Mensagem := {
  fromMe : bool;
  remoteJid : string;
  conversation : option string;
  extendedText : option string;
  imageCaption : option string;
  videoCaption : option string
}.

(** The readings that the processing of one message makes: the clock and
    [Math.random()]. *)
Record Leitura := {
  relogios : Leituras;
  sorteio : Q
}.

(** The sending world, the state of the automatic replies and the counter
    [estatisticas.mensagensRecebidas]. *)
Record Estado := {
  mundo : Mundo;
  respostas : Respostas.Estado;
  mensagensRecebidas : nat
}.

(** [s.replace(padrao, '')] with a text pattern: the first occurrence is
    removed. *)
Fixpoint removerPrimeira (padrao s : string) : string :=
  if String.prefix padrao s
  then String.substring (String.length padrao) (String.length s - String.length padrao) s
  else match s with
       | EmptyString => EmptyString
       | String c r => String c (removerPrimeira padrao r)
       end.

(** [a || b || c || d || ''] *)
Definition textoDaMensagem (m : Mensagem) : string :=
  default "" (ou (ou (ou (conversation m) (extendedText m)) (imageCaption m))
                (videoCaption m)).

(** [Array.isArray(resposta) ? resposta : [resposta]] *)
Definition mensagensDe (r : Resposta) : list string :=
  match r with
  | Texto t => [t]
  | Textos ts => ts
  end.

(** Truthiness of a reply: a text that is not empty, or any array. *)
Definition respostaVerdadeira (r : Resposta) : bool :=
  match r with
  | Texto t => textoVerdadeiro t
  | Textos _ => true
  end.

(** The loop over the texts of a reply. *)
Definition enviarRespostas (jid : string) (mensagens : list string) : M unit :=
  paraCada (fun msg =>
              sockSendMessage jid msg ;;;
              modificar contarMensagemEnviada ;;;
              if (1 <? length mensagens)%nat then esperar 500 else ret tt)
           mensagens.

Section Colaboradores.

Variable detectarIntencao : string -> option Intencao.
Variable gerarTexto : Intencao -> string.
Variable textoPix : Pix.ChavePix -> string.

(** [!textoMensagem.trim()]: the text is empty or made of blanks only. *)
Variable emBranco : string -> bool.

(** The body of the loop over the messages of a batch.  The [try] block
    holds the call of [processarMensagemRecebida] and the sends: an
    exception ends the processing of this message only, and what was
    changed before it stays changed. *)
Definition processarMensagem (st : Estado) (entrada : Mensagem * Leitura) : Estado :=
  let '(m, l) := entrada in
  let st1 := {| mundo := mundo st; respostas := respostas st;
                mensagensRecebidas := S (mensagensRecebidas st) |} in
  if fromMe m then st1
  else if Deteccao.endsWith "@g.us" (remoteJid m) then st1
  else if String.eqb (remoteJid m) "status@broadcast" then st1
  else
    let textoMensagem := textoDaMensagem m in
    if emBranco textoMensagem then st1
    else
      let numeroRemetente := removerPrimeira "@s.whatsapp.net" (remoteJid m) in
      match processarMensagemRecebida detectarIntencao gerarTexto textoPix
              textoMensagem numeroRemetente (relogios l) (sorteio l) (respostas st1) with
      | (r', Retorno (Some resposta)) =>
          if respostaVerdadeira resposta then
            let '(_, w') := enviarRespostas (remoteJid m) (mensagensDe resposta)
                              (mundo st1) in
            {| mundo := w'; respostas := r';
               mensagensRecebidas := mensagensRecebidas st1 |}
          else {| mundo := mundo st1; respostas := r';
                  mensagensRecebidas := mensagensRecebidas st1 |}
      | (r', _) =>
          {| mundo := mundo st1; respostas := r';
             mensagensRecebidas := mensagensRecebidas st1 |}
      end.

(** The handler of [messages.upsert]: [{ messages, type }]. *)
Definition aoReceberMensagens (tipo : string) (mensagens : list (Mensagem * Leitura))
  (st : Estado) : Estado :=
  if negb (String.eqb tipo "notify") then st
  else fold_left processarMensagem mensagens st.

End Colaboradores.

End Recebimento.

(** ** The session store ([src/lib/authStateSupabase.js]) *)

Module Sessao.
Import JS.

Section Valores.

(** The JSON values kept in the column [data_value], and their
    truthiness. *)
Variable V : Type.
Variable verdadeiroV : V -> bool.

(** [cacheLocal], and the rows of [whatsapp_session] of this session:
    [data_key] to [data_value]. *)
Record Estado := {
  cacheLocal : gmap string V;
  tabela : gmap string V
}.

(** [lerDado(chave)]; [falha] tells whether the query answers an [error]
    or rejects.  [null] is [None]. *)
Definition lerDado (chave : string) (falha : bool) (st : Estado) : option V * Estado :=
  match cacheLocal st !! chave with
  | Some v => (Some v, st)
  | None =>
      if falha then (None, st)
      else
        match tabela st !! chave with
        | Some valor =>
            if verdadeiroV valor
            then (Some valor,
                  {| cacheLocal := <[chave := valor]> (cacheLocal st);
                     tabela := tabela st |})
            else (None, st)
        | None => (None, st)
        end
  end.

(** [salvarDado(chave, valor)]: the cache is written before the upsert. *)
Definition salvarDado (chave : string) (valor : V) (falha : bool) (st : Estado)
  : bool * Estado :=
  let cache := <[chave := valor]> (cacheLocal st) in
  if falha then (false, {| cacheLocal := cache; tabela := tabela st |})
  else (true, {| cacheLocal := cache; tabela := <[chave := valor]> (tabela st) |}).

(** [removerDado(chave)] *)
Definition removerDado (chave : string) (falha : bool) (st : Estado) : Estado :=
  let cache := delete chave (cacheLocal st) in
  if falha then {| cacheLocal := cache; tabela := tabela st |}
  else {| cacheLocal := cache; tabela := delete chave (tabela st) |}.

(** [salvarEmBatch(registros)] *)
Definition salvarEmBatch (registros : list (string * V)) (falha : bool) (st : Estado)
  : Estado :=
  match registros with
  | [] => st
  | _ =>
      let cache := fold_left (fun acc r => <[fst r := snd r]> acc) registros
                     (cacheLocal st) in
      if falha then {| cacheLocal := cache; tabela := tabela st |}
      else {| cacheLocal := cache;
              tabela := fold_left (fun acc r => <[fst r := snd r]> acc) registros
                          (tabela st) |}
  end.

(** [limparSessao()]: the cache is cleared before the rows are deleted. *)
Definition limparSessao (falha : bool) (st : Estado) : Estado :=
  if falha then {| cacheLocal := ∅; tabela := tabela st |}
  else {| cacheLocal := ∅; tabela := ∅ |}.

(** [cacheLocal.clear()] at the start of [useSupabaseAuthState]. *)
Definition esvaziarCache (st : Estado) : Estado :=
  {| cacheLocal := ∅; tabela := tabela st |}.

End Valores.

Arguments cacheLocal {V} _.
Arguments tabela {V} _.
Arguments lerDado {V} verdadeiroV chave falha st.
Arguments salvarDado {V} chave valor falha st.
Arguments removerDado {V} chave falha st.
Arguments salvarEmBatch {V} registros falha st.
Arguments limparSessao {V} falha st.
Arguments esvaziarCache {V} st.

End Sessao.

(** ** The texts of the automatic replies ([src/lib/respostasAutomaticas.js]) *)

Module Textos.
Import JS Respostas Calendario.

Definition LINK_SITE : string := "https://reidochurrascobarras.com.br".
Definition NOME_LOJA : string := "Rei do Churrasco".

(** A template literal, written line by line: the lines are joined by
    line feeds. *)
Definition nl : string := String (ascii_of_nat 10) "".

Fixpoint linhas (ls : list string) : string :=
  match ls with
  | [] => ""
  | [l] => l
  | l :: r => l +:+ nl +:+ linhas r
  end.

(** [gerarRespostaSaudacao]; [mensagemEspecial] is what
    [obterMensagemDataEspecial()] answers, [lojaAberta] what
    [verificarLojaAbertaSupabase()] answers and [hora] the hour that
    [obterSaudacao] reads. *)
Definition gerarRespostaSaudacao (mensagemEspecial : option string) (lojaAberta : bool)
  (hora : Z) : string :=
  if verdadeiro mensagemEspecial then default "" mensagemEspecial
  else if negb lojaAberta then
  linhas
      [ obterSaudacao hora +:+ "! 👋";
        "";
        "Obrigado por entrar em contato com *" +:+ NOME_LOJA +:+ "* 🔥🥩";
        "";
        "No momento estamos *fechados*, mas você pode conferir nosso cardápio completo:";
        LINK_SITE;
        "";
        "Voltamos em breve! 😉" ]
  else
  linhas
      [ obterSaudacao hora +:+ "! 👋";
        "";
        "Obrigado por entrar em contato com *" +:+ NOME_LOJA +:+ "* 🔥🥩";
        "";
        "Estamos abertos! Confira nosso cardápio e faça seu pedido:";
        LINK_SITE;
        "";
        "O melhor churrasco da região! 🔥" ].

(** The first text of [gerarRespostaPix]; the second is the key. *)
Definition textoPix (hora : Z) (pixSelecionado : Pix.ChavePix) : string :=
  linhas
    [ obterSaudacao hora +:+ "! 💰";
      "";
      "Segue nossa chave *PIX* para pagamento:";
      "";
      "*Tipo:* " +:+ Pix.tipo pixSelecionado;
      "*Titular:* " +:+ Pix.titular pixSelecionado;
      "";
      "A chave está na próxima mensagem, é só copiar! 👇" ].

Definition gerarRespostaHorario (lojaAberta : bool) (hora : Z) : string :=
  let statusAtual := if lojaAberta then "✅ *Estamos abertos agora!*"
                     else "🔴 *Estamos fechados no momento*" in
  linhas
    [ obterSaudacao hora +:+ "! ⏰";
      "";
      statusAtual;
      "";
      "*Nosso horário:*";
      "🔥 *Seg a Qui:* 17:00 às 23:00";
      "🔥 *Sexta e Sábado:* 17:00 às 00:00";
      "❌ *Domingo:* Fechado";
      "";
      "Confira o cardápio:";
      LINK_SITE ].

Definition gerarRespostaPedido (lojaAberta : bool) (hora : Z) : string :=
  if negb lojaAberta then
  linhas
      [ obterSaudacao hora +:+ "! 📋";
        "";
        "No momento estamos *fechados*, mas quando abrirmos você pode pedir direto pelo site:";
        LINK_SITE;
        "";
        "É rápido e fácil! 😉" ]
  else
  linhas
      [ obterSaudacao hora +:+ "! 📋";
        "";
        "Para fazer seu pedido é muito simples! Acesse nosso site:";
        LINK_SITE;
        "";
        "Lá você encontra todo o cardápio, escolhe os itens e finaliza o pedido! 🥩🔥";
        "";
        "Aceitamos *PIX, cartão e dinheiro*! 💰" ].

Definition gerarRespostaEntrega (hora : Z) : string :=
  linhas
    [ obterSaudacao hora +:+ "! 🛵";
      "";
      "Sim, fazemos *delivery*! A taxa de entrega varia conforme o bairro.";
      "";
      "Acesse nosso site para ver os bairros atendidos e fazer seu pedido:";
      LINK_SITE;
      "";
      "Também temos *retirada no balcão* e *consumo no local*! 🥩🔥" ].

Definition gerarRespostaChurrasco (aberto : bool) (hora : Z) : string :=
  if aberto then
  linhas
      [ obterSaudacao hora +:+ "! 🔥🥩";
        "";
        "Temos o melhor *churrasco* da região! Estamos abertos 🔥";
        "";
        "Picanha, costela, maminha, carneiro, tira gostos, porções e muito mais!";
        "";
        "Veja o cardápio e peça pelo site:";
        LINK_SITE ]
  else
  linhas
      [ obterSaudacao hora +:+ "! 🔥🥩";
        "";
        "Temos o melhor *churrasco* da região! Mas estamos fechados no momento.";
        "";
        "Confira nosso cardápio:";
        LINK_SITE ].

Definition gerarRespostaMarmita (aberto : bool) (hora : Z) : string :=
  if aberto then
  linhas
      [ obterSaudacao hora +:+ "! 🍱";
        "";
        "Sim, temos *marmitas/quentinhas*! Estamos abertos 🔥";
        "";
        "Confira nossas opções e faça seu pedido:";
        LINK_SITE;
        "";
        "Marmita completa com o melhor churrasco! 🥩" ]
  else
  linhas
      [ obterSaudacao hora +:+ "! 🍱";
        "";
        "Sim, temos *marmitas/quentinhas*! Mas estamos fechados no momento.";
        "";
        "Confira nosso cardápio:";
        LINK_SITE ].

Definition gerarRespostaLocalizacao (hora : Z) : string :=
  linhas
    [ obterSaudacao hora +:+ "! 📍";
      "";
      "O *" +:+ NOME_LOJA +:+ "* fica na:";
      "*R. Gen. Taumaturgo de Azevedo, n° 279 - Riachinho*";
      "";
      "📞 Contato: *(86) 98131-9596*";
      "";
      "Confira nosso cardápio:";
      LINK_SITE;
      "";
      "Esperamos você! 🔥🥩" ].

(** The [switch] of [processarMensagemRecebida] for the intents that get
    one text: [aberto] is the reading of [estaNoHorario()] that the function
    makes itself, [lojaAberta] what [verificarLojaAbertaSupabase()] answers
    inside the generators that ask for it.  The PIX reply is built by
    [gerarRespostaPix], not here. *)
Definition gerarTexto (aberto lojaAberta : bool) (mensagemEspecial : option string)
  (hora : Z) (intencao : Intencao) : string :=
  match intencao with
  | Saudacao => gerarRespostaSaudacao mensagemEspecial lojaAberta hora
  | IntencaoHorario => gerarRespostaHorario lojaAberta hora
  | IntencaoPedido => gerarRespostaPedido lojaAberta hora
  | Entrega => gerarRespostaEntrega hora
  | Churrasco => gerarRespostaChurrasco aberto hora
  | Marmita => gerarRespostaMarmita aberto hora
  | Localizacao => gerarRespostaLocalizacao hora
  | IntencaoPix => ""
  end.

End Textos.

(** * Properties *)

(** ** Reconnection backoff *)

Module ReconexaoFatos.
Import Reconexao.

Lemma delayReconexao_base : (delayReconexao 1 == DELAY_BASE_RECONEXAO_MS)%Q.
Proof. reflexivity. Qed.

Lemma delayReconexao_dobra (k : nat) :
  (delayReconexao (S k) == 2 * delayReconexao k)%Q.
Proof.
  unfold delayReconexao.
  replace (Z.of_nat (S k) - 1) with ((Z.of_nat k - 1) + 1) by lia.
  rewrite Qpower_plus by discriminate.
  change (Qpower 2 1) with 2%Q. ring.
Qed.

(** After the reset the exponent is [0 - 1]: half the base delay. *)
Lemma delayReconexao_apos_reinicio : (delayReconexao 0 == 1500)%Q.
Proof. reflexivity. Qed.

Definition autenticadoCom (tentativas qrs : nat) : Conexao :=
  {| statusConexao := Conectado; qrCodeAtual := None; contadorQrCodes := qrs;
     estaAutenticado := true; tentativasReconexao := tentativas |}.

(** C3, with the formula of the specification: the delay of the attempt
    numbered [k] (the counter after its increment) would be [base * 2^k].
    The first closure of an authenticated session is attempt 1 and waits the
    base delay, 3000 ms, not 6000 ms. *)
Lemma backoff_formula_contraexemplo :
  exists d,
    aoFechar baileys true (Some 428) (autenticadoCom 0 0)
      = ({| statusConexao := Desconectado; qrCodeAtual := None; contadorQrCodes := 0;
            estaAutenticado := true; tentativasReconexao := 1 |}, [Reiniciar d])
    /\ ~ (d == DELAY_BASE_RECONEXAO_MS * Qpower 2 (Z.of_nat 1))%Q.
Proof.
  exists (delayReconexao 1). split; [reflexivity | discriminate].
Qed.

(** C3 (amended): on a closure that reaches the backoff branch the counter
    is incremented first; while it does not exceed
    [MAX_TENTATIVAS_RECONEXAO] the restart is scheduled after
    [delayReconexao] of the incremented counter, a sequence that starts at
    the base delay and doubles at each step; when it exceeds the maximum,
    the attempt counter and the QR counter are both reset to 0 and a restart
    is scheduled all the same. *)
Theorem backoff_reconexao (DR : DisconnectReason) (usar : bool)
  (statusCode : option Z) (s : Conexao) :
  ramoBackoff DR statusCode s = true ->
  let tentativas := S (tentativasReconexao s) in
  let r := aoFechar DR usar statusCode s in
  (delayReconexao 1 == DELAY_BASE_RECONEXAO_MS)%Q
  /\ (forall k, (delayReconexao (S k) == 2 * delayReconexao k)%Q)
  /\ ((tentativas <= MAX_TENTATIVAS_RECONEXAO)%nat ->
      tentativasReconexao (fst r) = tentativas
      /\ contadorQrCodes (fst r) = contadorQrCodes s
      /\ snd r = [Reiniciar (delayReconexao tentativas)])
  /\ ((MAX_TENTATIVAS_RECONEXAO < tentativas)%nat ->
      tentativasReconexao (fst r) = 0%nat
      /\ contadorQrCodes (fst r) = 0%nat
      /\ exists d, snd r = [Reiniciar d]).
Proof.
  intros Hramo tentativas r.
  split; [apply delayReconexao_base|].
  split; [apply delayReconexao_dobra|].
  unfold ramoBackoff in Hramo.
  apply andb_prop in Hramo as [Hab Hc]. apply andb_prop in Hab as [Ha Hb].
  apply negb_true_iff in Ha, Hb.
  subst r. unfold aoFechar. rewrite Ha, Hb, Hc. fold tentativas.
  split; intros Hcap.
  - assert (Hlt : (MAX_TENTATIVAS_RECONEXAO <? tentativas)%nat = false)
      by (apply Nat.ltb_ge; exact Hcap).
    rewrite Hlt. cbn. auto.
  - assert (Hlt : (MAX_TENTATIVAS_RECONEXAO <? tentativas)%nat = true)
      by (apply Nat.ltb_lt; exact Hcap).
    rewrite Hlt. cbn. eauto.
Qed.

Lemma backoff_reconexao_exemplo :
  ramoBackoff baileys (Some 428) (autenticadoCom 2 1) = true
  /\ tentativasReconexao (fst (aoFechar baileys true (Some 428) (autenticadoCom 2 1))) = 3%nat
  /\ snd (aoFechar baileys true (Some 428) (autenticadoCom 2 1))
     = [Reiniciar (delayReconexao 3)].
Proof.
  split; [reflexivity|].
  pose proof (backoff_reconexao baileys true (Some 428) (autenticadoCom 2 1) eq_refl)
    as (_ & _ & H & _).
  destruct (H ltac:(unfold MAX_TENTATIVAS_RECONEXAO; cbn; lia)) as (H1 & _ & H3).
  split; assumption.
Defined.

End ReconexaoFatos.

(** ** Sending, status notifications and the fan-out of a new order *)

Module EnvioFatos.
Import JS Envio.

(** The part of the world that the courier lookup reads. *)
Definition mesmoAmbiente (w w' : Mundo) : Prop :=
  relogio w' = relogio w
  /\ funcionarios w' = funcionarios w
  /\ cacheEntregadores w' = cacheEntregadores w
  /\ ultimaAtualizacaoCache w' = ultimaAtualizacaoCache w.

Lemma mesmoAmbiente_refl w : mesmoAmbiente w w.
Proof. repeat split. Qed.

Lemma mesmoAmbiente_trans w1 w2 w3 :
  mesmoAmbiente w1 w2 -> mesmoAmbiente w2 w3 -> mesmoAmbiente w1 w3.
Proof.
  intros (a1 & a2 & a3 & a4) (b1 & b2 & b3 & b4).
  repeat split; congruence.
Qed.

(** A telephone that [formatarNumeroWhatsApp] accepts without throwing:
    anything but a truthy value that is not a text. *)
Definition formatavel (telefone : Valor) : bool :=
  match telefone with
  | Outro true => false
  | _ => true
  end.

(** [!sock || statusConexao !== 'conectado'] *)
Definition desligado (w : Mundo) : bool :=
  negb (sockAtivo w) || negb (conectado (statusConexao w)).

(** Every call of [enviarMensagem] is logged, whatever happens next, and
    the call leaves the environment as it was. *)
Lemma enviarMensagem_chamada (tel : Valor) (msg : string) (w : Mundo) :
  exists r w',
    enviarMensagem tel msg w = (r, w')
    /\ chamadas w' = chamadas w ++ [(tel, msg)]
    /\ mesmoAmbiente w w'
    /\ (formatavel tel = true \/ desligado w = true -> exists b, r = Retorno b)
    /\ (formatavel tel = false -> desligado w = false -> r = Excecao "TypeError").
Proof.
  unfold enviarMensagem, desligado, bind, modificar, ler, elevar. cbn.
  destruct (negb (sockAtivo w) || negb (conectado (statusConexao w))).
  - cbn. eexists _, _. split; [reflexivity|]. split; [reflexivity|].
    split; [repeat split|]. split; [eauto | discriminate].
  - destruct tel as [|t|[|]]; cbn.
    + eexists _, _. split; [reflexivity|]. split; [reflexivity|].
      split; [repeat split|]. split; [eauto | discriminate].
    + destruct (formatarNumeroWhatsApp t) as [jid|].
      * unfold tentar, sockSendMessage, bind, modificar, ler, lancar. cbn.
        destruct (transporte w) as [|[|] resto]; cbn;
          (eexists _, _; split; [reflexivity|]; split; [reflexivity|];
           split; [repeat split|]; split; [eauto | discriminate]).
      * cbn. eexists _, _. split; [reflexivity|]. split; [reflexivity|].
        split; [repeat split|]. split; [eauto | discriminate].
    + eexists _, _. split; [reflexivity|]. split; [reflexivity|].
      split; [repeat split|]. split; [intros [H|H]; discriminate | reflexivity].
    + eexists _, _. split; [reflexivity|]. split; [reflexivity|].
      split; [repeat split|]. split; [eauto | discriminate].
Qed.

(** On a telephone that can be formatted [enviarMensagem] never throws:
    whatever the socket does, it returns a boolean. *)
Lemma enviarMensagem_retorna (tel : Valor) (msg : string) (w : Mundo) :
  formatavel tel = true ->
  exists b w',
    enviarMensagem tel msg w = (Retorno b, w')
    /\ chamadas w' = chamadas w ++ [(tel, msg)]
    /\ mesmoAmbiente w w'.
Proof.
  intros Hf.
  destruct (enviarMensagem_chamada tel msg w) as (r & w' & Hrun & Hch & Hamb & Hret & _).
  destruct (Hret (or_introl Hf)) as (b & ->). eauto.
Qed.

(** The couriers that [obterEntregadores] answers in a world: the cache, or
    the answer of Supabase when the cache is older than five minutes. *)
Definition entregadoresDisponiveis (w : Mundo) : list Entregador :=
  let desatualizado :=
    match ultimaAtualizacaoCache w with
    | Some ultima => (ultima =? 0) || (INTERVALO_CACHE_MS <? relogio w - ultima)
    | None => true
    end in
  if desatualizado then
    match funcionarios w with
    | Dados data => List.filter (fun e => valorVerdadeiro (telefoneEntregador e)) data
    | Falha _ => []
    end
  else cacheEntregadores w.

(** The telephones of the couriers that have one. *)
Definition telefonesDe (es : list Entregador) : list Valor :=
  flat_map (fun e => if valorVerdadeiro (telefoneEntregador e)
                     then [telefoneEntregador e] else []) es.

(** The call to the customer, when the order carries a telephone. *)
Definition chamadaCliente (pedido : Pedido) (mensagem : string) : list (Valor * string) :=
  let telefoneCliente := ouValor (customer_phone pedido) (telefone pedido) in
  if valorVerdadeiro telefoneCliente then [(telefoneCliente, mensagem)] else [].

Lemma entregadoresDisponiveis_ambiente w w' :
  mesmoAmbiente w w' -> entregadoresDisponiveis w' = entregadoresDisponiveis w.
Proof.
  intros (H1 & H2 & H3 & H4). unfold entregadoresDisponiveis.
  rewrite H1, H2, H3, H4. reflexivity.
Qed.

Lemma obterEntregadores_retorna (w : Mundo) :
  exists w',
    obterEntregadores w = (Retorno (entregadoresDisponiveis w), w')
    /\ chamadas w' = chamadas w.
Proof.
  unfold obterEntregadores, entregadoresDisponiveis, atualizarCacheEntregadores,
    buscarEntregadoresAtivos, tentar, bind, modificar, ler, ret. cbn.
  destruct (ultimaAtualizacaoCache w) as [ultima|].
  - destruct ((ultima =? 0) || (INTERVALO_CACHE_MS <? relogio w - ultima)).
    + destruct (funcionarios w); cbn; eexists; split; reflexivity.
    + cbn. eexists; split; reflexivity.
  - destruct (funcionarios w); cbn; eexists; split; reflexivity.
Qed.

Lemma telefonesDe_cons (e : Entregador) (es : list Entregador) :
  telefonesDe (e :: es) = telefonesDe [e] ++ telefonesDe es.
Proof. unfold telefonesDe. cbn. now rewrite List.app_nil_r. Qed.

Lemma notificarEntregador_retorna (msg : string) (e : Entregador) (w : Mundo) :
  formatavel (telefoneEntregador e) = true ->
  exists w',
    notificarEntregador msg e w = (Retorno tt, w')
    /\ chamadas w' = chamadas w ++ List.map (fun tel => (tel, msg)) (telefonesDe [e]).
Proof.
  intros Hf. unfold notificarEntregador, telefonesDe. cbn.
  destruct (valorVerdadeiro (telefoneEntregador e)); cbn.
  - destruct (enviarMensagem_retorna (telefoneEntregador e) msg w Hf)
      as (b & w1 & Hrun & Hch & _).
    unfold bind. rewrite Hrun. unfold esperar, bind, modificar. cbn.
    eexists; split; [reflexivity|]. cbn. exact Hch.
  - unfold ret. eexists; split; [reflexivity|]. now rewrite List.app_nil_r.
Qed.

(** The loop over the couriers calls [enviarMensagem] for each courier with
    a telephone, whatever the earlier calls returned. *)
Lemma paraCada_notificar (msg : string) (es : list Entregador) (w : Mundo) :
  Forall (fun e => formatavel (telefoneEntregador e) = true) es ->
  exists w',
    paraCada (notificarEntregador msg) es w = (Retorno tt, w')
    /\ chamadas w' = chamadas w ++ List.map (fun tel => (tel, msg)) (telefonesDe es).
Proof.
  intros Hall. revert w. induction Hall as [|e es He _ IH]; intros w.
  - cbn. unfold ret. eexists; split; [reflexivity|]. now rewrite List.app_nil_r.
  - destruct (notificarEntregador_retorna msg e w He) as (w1 & Hrun & Hch).
    destruct (IH w1) as (w2 & Hrun2 & Hch2).
    exists w2. cbn [paraCada]. unfold bind at 1. rewrite Hrun. split; [exact Hrun2|].
    rewrite Hch2, Hch, (telefonesDe_cons e es).
    now rewrite List.map_app, <- List.app_assoc.
Qed.

Section Configuracao.

Variable NUMERO_LOJA : string.
Variable gerarMensagemCliente : Pedido -> Resultado string.
Variable gerarMensagemPedidoRecebido : Pedido -> Resultado string.
Variable gerarMensagemEntregador : Pedido -> Resultado string.
Variable gerarMensagemStatusAtualizado : Pedido -> string -> string.

(** The calls of [enviarMensagem] that [processarNovoPedido] makes when
    the generators return the texts [mc], [ml] and [me]. *)
Definition chamadasNovoPedido (mc ml me : string) (pedido : Pedido) (w : Mundo)
  : list (Valor * string) :=
  chamadaCliente pedido mc
  ++ (if textoVerdadeiro NUMERO_LOJA then [(Cadeia NUMERO_LOJA, ml)] else [])
  ++ (if ehDelivery pedido
      then List.map (fun tel => (tel, me)) (telefonesDe (entregadoresDisponiveis w))
      else []).

Lemma processarNovoPedido_retorna (mc ml me : string) (pedido : Pedido) (w : Mundo) :
  gerarMensagemCliente pedido = Retorno mc ->
  gerarMensagemPedidoRecebido pedido = Retorno ml ->
  gerarMensagemEntregador pedido = Retorno me ->
  formatavel (ouValor (customer_phone pedido) (telefone pedido)) = true ->
  Forall (fun e => formatavel (telefoneEntregador e) = true) (entregadoresDisponiveis w) ->
  exists w',
    processarNovoPedido NUMERO_LOJA gerarMensagemCliente gerarMensagemPedidoRecebido
      gerarMensagemEntregador pedido w = (Retorno tt, w')
    /\ chamadas w' = chamadas w ++ chamadasNovoPedido mc ml me pedido w.
Proof.
  intros Hmc Hml Hme Hfc Hfe.
  unfold processarNovoPedido, chamadasNovoPedido, chamadaCliente.
  rewrite Hmc, Hml, Hme.
  set (telefoneCliente := ouValor (customer_phone pedido) (telefone pedido)) in *.
  (* the customer *)
  assert (Hc : exists w1,
    (if valorVerdadeiro telefoneCliente then
       mensagemCliente <- elevar (Retorno mc) ;;
       _ <- enviarMensagem telefoneCliente mensagemCliente ;; ret tt
     else ret tt) w = (Retorno tt, w1)
    /\ chamadas w1 = chamadas w ++
         (if valorVerdadeiro telefoneCliente then [(telefoneCliente, mc)] else [])
    /\ mesmoAmbiente w w1).
  { destruct (valorVerdadeiro telefoneCliente).
    - destruct (enviarMensagem_retorna telefoneCliente mc w Hfc)
        as (b & w1 & Hrun & Hch & Hamb).
      exists w1. unfold bind, elevar. rewrite Hrun. auto.
    - exists w. unfold ret. rewrite List.app_nil_r. auto using mesmoAmbiente_refl. }
  destruct Hc as (w1 & Hrun1 & Hch1 & Hamb1).
  (* the shop *)
  assert (Hl : exists w2,
    (if textoVerdadeiro NUMERO_LOJA then
       mensagemLoja <- elevar (Retorno ml) ;;
       enviadoLoja <- enviarMensagem (Cadeia NUMERO_LOJA) mensagemLoja ;;
       if enviadoLoja : bool then modificar contarPedidoNotificado else ret tt
     else ret tt) w1 = (Retorno tt, w2)
    /\ chamadas w2 = chamadas w1 ++
         (if textoVerdadeiro NUMERO_LOJA then [(Cadeia NUMERO_LOJA, ml)] else [])
    /\ mesmoAmbiente w1 w2).
  { destruct (textoVerdadeiro NUMERO_LOJA).
    - destruct (enviarMensagem_retorna (Cadeia NUMERO_LOJA) ml w1 eq_refl)
        as (b & w2 & Hrun & Hch & Hamb).
      unfold bind, elevar. rewrite Hrun. destruct b.
      + unfold modificar. eexists. split; [reflexivity|]. split; [exact Hch|].
        destruct Hamb as (? & ? & ? & ?). repeat split; assumption.
      + unfold ret. eexists. split; [reflexivity|]. auto.
    - exists w1. unfold ret. rewrite List.app_nil_r. auto using mesmoAmbiente_refl. }
  destruct Hl as (w2 & Hrun2 & Hch2 & Hamb2).
  assert (Hamb : mesmoAmbiente w w2) by (eapply mesmoAmbiente_trans; eassumption).
  (* the couriers *)
  assert (He : exists w3,
    (if ehDelivery pedido then
       entregadores <- obterEntregadores ;;
       if (length entregadores =? 0)%nat then ret tt
       else
         mensagemEntregador <- elevar (Retorno me) ;;
         paraCada (notificarEntregador mensagemEntregador) entregadores
     else ret tt) w2 = (Retorno tt, w3)
    /\ chamadas w3 = chamadas w2 ++
         (if ehDelivery pedido
          then List.map (fun tel => (tel, me)) (telefonesDe (entregadoresDisponiveis w))
          else [])).
  { destruct (ehDelivery pedido).
    - destruct (obterEntregadores_retorna w2) as (w2' & Hrun & Hch).
      rewrite (entregadoresDisponiveis_ambiente _ _ Hamb) in Hrun.
      unfold bind at 1. rewrite Hrun.
      destruct (entregadoresDisponiveis w) as [|e es] eqn:Hes.
      + cbn. unfold ret. eexists. split; [reflexivity|]. now rewrite List.app_nil_r.
      + cbn [length Nat.eqb].
        destruct (paraCada_notificar me (e :: es) w2' Hfe) as (w3 & Hrun3 & Hch3).
        exists w3. unfold bind, elevar. split; [exact Hrun3|]. now rewrite Hch3, Hch.
    - exists w2. unfold ret. now rewrite List.app_nil_r. }
  destruct He as (w3 & Hrun3 & Hch3).
  exists w3. split.
  - unfold bind at 1. rewrite Hrun1. unfold bind at 1. rewrite Hrun2. exact Hrun3.
  - rewrite Hch3, Hch2, Hch1. now rewrite <- !List.app_assoc.
Qed.

(** The calls of [enviarMensagem] that [processarAtualizacaoStatus] makes. *)
Definition chamadasStatus (pedido : Pedido) : list (Valor * string) :=
  let mensagem := gerarMensagemStatusAtualizado pedido (status pedido) in
  if inclui statusNotificar (status pedido) then
    (if textoVerdadeiro NUMERO_LOJA then [(Cadeia NUMERO_LOJA, mensagem)] else [])
    ++ (if String.eqb (status pedido) "ready" || String.eqb (status pedido) "pronto"
        then chamadaCliente pedido mensagem else [])
  else [].

(** The calls are those of [chamadasStatus] at every exit; the function
    returns normally unless the telephone of the customer is a truthy value
    that is not a text. *)
Lemma processarAtualizacaoStatus_retorna (pedido : Pedido) (w : Mundo) :
  exists r w',
    processarAtualizacaoStatus NUMERO_LOJA gerarMensagemStatusAtualizado pedido w
      = (r, w')
    /\ chamadas w' = chamadas w ++ chamadasStatus pedido
    /\ (formatavel (ouValor (customer_phone pedido) (telefone pedido)) = true ->
        r = Retorno tt).
Proof.
  unfold processarAtualizacaoStatus, chamadasStatus, chamadaCliente.
  set (mensagem := gerarMensagemStatusAtualizado pedido (status pedido)).
  set (telefoneCliente := ouValor (customer_phone pedido) (telefone pedido)).
  destruct (inclui statusNotificar (status pedido)); cbn [negb].
  2:{ exists (Retorno tt), w. unfold ret. rewrite List.app_nil_r. auto. }
  assert (Hl : exists w1,
    (if textoVerdadeiro NUMERO_LOJA
     then _ <- enviarMensagem (Cadeia NUMERO_LOJA) mensagem ;; ret tt else ret tt) w
      = (Retorno tt, w1)
    /\ chamadas w1 = chamadas w ++
         (if textoVerdadeiro NUMERO_LOJA then [(Cadeia NUMERO_LOJA, mensagem)] else [])).
  { destruct (textoVerdadeiro NUMERO_LOJA).
    - destruct (enviarMensagem_retorna (Cadeia NUMERO_LOJA) mensagem w eq_refl)
        as (b & w1 & Hrun & Hch & _).
      exists w1. unfold bind. rewrite Hrun. auto.
    - exists w. unfold ret. now rewrite List.app_nil_r. }
  destruct Hl as (w1 & Hrun1 & Hch1).
  unfold bind at 1. rewrite Hrun1.
  destruct (String.eqb (status pedido) "ready" || String.eqb (status pedido) "pronto");
    cbn [andb].
  - destruct (valorVerdadeiro telefoneCliente).
    + destruct (enviarMensagem_chamada telefoneCliente mensagem w1)
        as (r & w2 & Hrun & Hch & _ & Hret & _).
      unfold bind. rewrite Hrun.
      destruct r as [b|e].
      * exists (Retorno tt), w2. unfold ret. split; [reflexivity|].
        split; [now rewrite Hch, Hch1, <- List.app_assoc | auto].
      * exists (Excecao e), w2. split; [reflexivity|].
        split; [now rewrite Hch, Hch1, <- List.app_assoc|].
        intros Hf. destruct (Hret (or_introl Hf)) as (b & Hb). discriminate.
    + exists (Retorno tt), w1. unfold ret. split; [reflexivity|].
      split; [now rewrite Hch1, ?List.app_nil_r | auto].
  - exists (Retorno tt), w1. unfold ret. split; [reflexivity|].
    split; [now rewrite Hch1, ?List.app_nil_r | auto].
Qed.

(** C9 (amended): [enviarMensagem] reports a send that the socket rejects
    by returning [false]: on a telephone that can be formatted it never
    throws.  When the three generators return for the order and the
    telephones of the customer and of the couriers can be formatted,
    [processarNovoPedido] returns normally and the calls it makes are those
    of [chamadasNovoPedido]: the customer (when there is a telephone), the
    shop (when a number is configured) and, for a delivery, every courier
    with a telephone.  That list is the same in worlds that differ only in
    the state of the socket and in which sends fail. *)
Theorem fanout_independente (mc ml me : string) (pedido : Pedido) (w : Mundo) :
  gerarMensagemCliente pedido = Retorno mc ->
  gerarMensagemPedidoRecebido pedido = Retorno ml ->
  gerarMensagemEntregador pedido = Retorno me ->
  formatavel (ouValor (customer_phone pedido) (telefone pedido)) = true ->
  Forall (fun e => formatavel (telefoneEntregador e) = true) (entregadoresDisponiveis w) ->
  (forall tel msg w0, formatavel tel = true ->
     exists b w1, enviarMensagem tel msg w0 = (Retorno b, w1))
  /\ (exists w',
        processarNovoPedido NUMERO_LOJA gerarMensagemCliente gerarMensagemPedidoRecebido
          gerarMensagemEntregador pedido w = (Retorno tt, w')
        /\ chamadas w' = chamadas w ++ chamadasNovoPedido mc ml me pedido w)
  /\ (forall w2, mesmoAmbiente w w2 ->
        chamadasNovoPedido mc ml me pedido w2 = chamadasNovoPedido mc ml me pedido w).
Proof.
  intros Hmc Hml Hme Hfc Hfe. split; [|split].
  - intros tel msg w0 Hf.
    destruct (enviarMensagem_retorna tel msg w0 Hf) as (b & w1 & H & _). eauto.
  - now apply processarNovoPedido_retorna.
  - intros w2 Hamb. unfold chamadasNovoPedido.
    now rewrite (entregadoresDisponiveis_ambiente _ _ Hamb).
Qed.

(** C6 (amended): with a shop number configured, a status outside
    [statusNotificar] (such as "pending") produces no call of
    [enviarMensagem]; "ready" produces the call to the shop followed by the
    call to the customer when the order carries a telephone, and the call to
    the shop alone otherwise; every status of [statusNotificar] produces the
    call to the shop first.  The function returns normally whenever the
    telephone of the customer is a text or is absent. *)
Theorem status_com_loja (pedido : Pedido) (w : Mundo) :
  textoVerdadeiro NUMERO_LOJA = true ->
  let mensagem := gerarMensagemStatusAtualizado pedido (status pedido) in
  let telefoneCliente := ouValor (customer_phone pedido) (telefone pedido) in
  exists r w' novas,
    processarAtualizacaoStatus NUMERO_LOJA gerarMensagemStatusAtualizado pedido w
      = (r, w')
    /\ (formatavel telefoneCliente = true -> r = Retorno tt)
    /\ chamadas w' = chamadas w ++ novas
    /\ (status pedido = "pending" -> novas = [])
    /\ (inclui statusNotificar (status pedido) = false -> novas = [])
    /\ (status pedido = "ready" ->
        valorVerdadeiro telefoneCliente = true ->
        novas = [(Cadeia NUMERO_LOJA, mensagem); (telefoneCliente, mensagem)])
    /\ (status pedido = "ready" ->
        valorVerdadeiro telefoneCliente = false ->
        novas = [(Cadeia NUMERO_LOJA, mensagem)])
    /\ (inclui statusNotificar (status pedido) = true ->
        exists resto, novas = (Cadeia NUMERO_LOJA, mensagem) :: resto).
Proof.
  intros Hloja mensagem telefoneCliente.
  destruct (processarAtualizacaoStatus_retorna pedido w) as (r & w' & Hrun & Hch & Hret).
  exists r, w', (chamadasStatus pedido). split; [exact Hrun|]. split; [exact Hret|].
  split; [exact Hch|].
  unfold chamadasStatus, chamadaCliente. rewrite Hloja. fold mensagem telefoneCliente.
  repeat split.
  - intros ->. reflexivity.
  - intros ->. reflexivity.
  - intros Hs Hv. rewrite Hs. cbn. now rewrite Hv.
  - intros Hs Hv. rewrite Hs. cbn. now rewrite Hv.
  - intros ->. cbn. eauto.
Qed.

End Configuracao.

(** *** Examples *)

Definition mundoConectado (falhas : list bool) (es : list Entregador) : Mundo :=
  {| sockAtivo := true; statusConexao := Conectado;
     mensagensEnviadas := 0; pedidosNotificados := 0;
     cacheEntregadores := []; ultimaAtualizacaoCache := None;
     relogio := 1700000000000; funcionarios := Dados es; transporte := falhas;
     chamadas := []; transmitidas := []; esperas := 0 |}.

Definition pedidoExemplo (i st : string) (criado : Z) (tel : Valor)
  (tipoPedido : string) : Pedido :=
  {| id := i; created_at := criado; status := st; customer_phone := tel;
     telefone := Nulo; order_type := Some tipoPedido; tipo_entrega := None |}.

Definition tresEntregadores : list Entregador :=
  [ {| nome := "A"; telefoneEntregador := Cadeia "86911110001" |};
    {| nome := "B"; telefoneEntregador := Cadeia "86911110002" |};
    {| nome := "C"; telefoneEntregador := Cadeia "86911110003" |} ].

(** A generator that returns the same text for every order. *)
Definition textoFixo (t : string) (_ : Pedido) : Resultado string := Retorno t.

(** The send to the customer, to the shop and to couriers B and C go
    through although the send to courier A is rejected by the socket. *)
Lemma fanout_exemplo :
  let pedido := pedidoExemplo "p1" "pending" 10 (Cadeia "86922220000") "delivery" in
  let w := mundoConectado [true; true; false; true; true] tresEntregadores in
  let w' := snd (processarNovoPedido "86933330000" (textoFixo "cliente")
                   (textoFixo "loja") (textoFixo "entregador") pedido w) in
  chamadas w' =
    [ (Cadeia "86922220000", "cliente"); (Cadeia "86933330000", "loja");
      (Cadeia "86911110001", "entregador"); (Cadeia "86911110002", "entregador");
      (Cadeia "86911110003", "entregador") ]
  /\ transmitidas w' =
    [ ("558622220000@s.whatsapp.net", "cliente");
      ("558633330000@s.whatsapp.net", "loja");
      ("558611110002@s.whatsapp.net", "entregador");
      ("558611110003@s.whatsapp.net", "entregador") ].
Proof.
  intros pedido w w'. split; [|reflexivity].
  destruct (fanout_independente "86933330000" (textoFixo "cliente") (textoFixo "loja")
              (textoFixo "entregador") "cliente" "loja" "entregador" pedido w
              eq_refl eq_refl eq_refl eq_refl)
    as (_ & (w1 & Hrun & Hch) & _).
  - repeat constructor.
  - subst w'. rewrite Hrun. cbn [snd]. rewrite Hch. reflexivity.
Defined.

(** A courier whose telephone came as a number, not as a text. *)
Definition entregadoresComNumero : list Entregador :=
  [ {| nome := "A"; telefoneEntregador := Outro true |};
    {| nome := "B"; telefoneEntregador := Cadeia "86911110002" |};
    {| nome := "C"; telefoneEntregador := Cadeia "86911110003" |} ].

(** C9, as the specification states it: no exception would leave the
    dispatch, and the couriers after a failed one would still be tried.  On
    a connected bot the telephone of courier A, a number, makes
    [enviarMensagem] throw before its [try] block: the dispatch ends with
    that exception and couriers B and C are never called.  And when the
    generator of the customer message throws, the dispatch ends before any
    call: neither the shop nor the couriers are notified. *)
Lemma fanout_excecao_contraexemplo :
  let pedido := pedidoExemplo "p1" "pending" 10 (Cadeia "86922220000") "delivery" in
  let w := mundoConectado [] entregadoresComNumero in
  let r := processarNovoPedido "86933330000" (textoFixo "cliente")
             (textoFixo "loja") (textoFixo "entregador") pedido w in
  let r' := processarNovoPedido "86933330000" (fun _ => Excecao "TypeError")
              (textoFixo "loja") (textoFixo "entregador") pedido
              (mundoConectado [] tresEntregadores) in
  fst r = Excecao "TypeError"
  /\ chamadas (snd r) =
       [ (Cadeia "86922220000", "cliente"); (Cadeia "86933330000", "loja");
         (Outro true, "entregador") ]
  /\ transmitidas (snd r) =
       [ ("558622220000@s.whatsapp.net", "cliente");
         ("558633330000@s.whatsapp.net", "loja") ]
  /\ fst r' = Excecao "TypeError"
  /\ chamadas (snd r') = []
  /\ transmitidas (snd r') = [].
Proof. repeat split. Qed.

(** C6, as the specification states it: "ready" with a customer telephone would always produce
    two sends.  With no shop number configured ([NUMERO_LOJA] is the empty
    string by default) the only call is the one to the customer. *)
Lemma status_sem_loja_contraexemplo :
  let pedido := pedidoExemplo "p1" "ready" 10 (Cadeia "86922220000") "pickup" in
  let w := mundoConectado [] [] in
  status pedido = "ready"
  /\ valorVerdadeiro (ouValor (customer_phone pedido) (telefone pedido)) = true
  /\ inclui statusNotificar (status pedido) = true
  /\ processarAtualizacaoStatus "" (fun _ st => st) pedido w
     = (Retorno tt,
        snd (processarAtualizacaoStatus "" (fun _ st => st) pedido w))
  /\ chamadas (snd (processarAtualizacaoStatus "" (fun _ st => st) pedido w))
     = [(Cadeia "86922220000", "ready")].
Proof. repeat split. Qed.

Lemma status_com_loja_exemplo :
  let pedido := pedidoExemplo "p1" "ready" 10 (Cadeia "86922220000") "pickup" in
  let w := mundoConectado [] [] in
  chamadas (snd (processarAtualizacaoStatus "86933330000" (fun _ st => st) pedido w))
  = [(Cadeia "86933330000", "ready"); (Cadeia "86922220000", "ready")].
Proof.
  intros pedido w.
  destruct (status_com_loja "86933330000" (fun _ st => st) pedido w eq_refl)
    as (r & w' & novas & Hrun & _ & Hch & _ & _ & Hready & _).
  rewrite Hrun. cbn [snd]. rewrite Hch.
  rewrite (Hready eq_refl eq_refl). reflexivity.
Defined.

End EnvioFatos.

(** ** The stable sort and the insertion-ordered map *)

Module JSFatos.
Import JS.

Section Ordenacao.

Context {A : Type} (chave : A -> Z).

Lemma inserirOrdenado_In (e x : A) (l : list A) :
  In x (inserirOrdenado chave e l) <-> x = e \/ In x l.
Proof.
  induction l as [|y l IH]; cbn.
  - intuition.
  - destruct (chave e <=? chave y); cbn; [intuition|].
    rewrite IH. intuition.
Qed.

Lemma ordenarPor_In (x : A) (l : list A) : In x (ordenarPor chave l) <-> In x l.
Proof.
  induction l as [|y l IH]; cbn; [tauto|].
  change (fold_right (inserirOrdenado chave) [] l) with (ordenarPor chave l).
  rewrite inserirOrdenado_In, IH. intuition.
Qed.

Lemma inserirOrdenado_length (e : A) (l : list A) :
  length (inserirOrdenado chave e l) = S (length l).
Proof.
  induction l as [|y l IH]; cbn; [reflexivity|].
  destruct (chave e <=? chave y); cbn; [reflexivity | now rewrite IH].
Qed.

Lemma ordenarPor_length (l : list A) : length (ordenarPor chave l) = length l.
Proof.
  induction l as [|y l IH]; cbn; [reflexivity|].
  change (fold_right (inserirOrdenado chave) [] l) with (ordenarPor chave l).
  now rewrite inserirOrdenado_length, IH.
Qed.

Lemma filter_inserirOrdenado_length (f : A -> bool) (e : A) (l : list A) :
  length (List.filter f (inserirOrdenado chave e l)) = length (List.filter f (e :: l)).
Proof.
  induction l as [|y l IH]; [reflexivity|].
  cbn [inserirOrdenado]. destruct (chave e <=? chave y); [reflexivity|].
  cbn [List.filter] in *. destruct (f y), (f e); cbn [length] in *; lia.
Qed.

Lemma filter_ordenarPor_length (f : A -> bool) (l : list A) :
  length (List.filter f (ordenarPor chave l)) = length (List.filter f l).
Proof.
  induction l as [|y l IH]; [reflexivity|].
  cbn [ordenarPor fold_right].
  change (fold_right (inserirOrdenado chave) [] l) with (ordenarPor chave l).
  rewrite filter_inserirOrdenado_length. cbn [List.filter].
  destruct (f y); cbn [length]; now rewrite IH.
Qed.

Lemma inserirOrdenado_crescente (e : A) (l : list A) :
  crescente chave l -> crescente chave (inserirOrdenado chave e l).
Proof.
  induction l as [|y l IH]; intros Hl; cbn [inserirOrdenado].
  - cbn. auto.
  - destruct Hl as [Hy Hl].
    destruct (Z.leb_spec (chave e) (chave y)) as [Hle|Hgt].
    + cbn [crescente]. split; [|split; assumption].
      constructor; [exact Hle|].
      eapply List.Forall_impl; [|exact Hy]. cbn. intros; lia.
    + cbn [crescente]. split; [|apply IH; exact Hl].
      apply List.Forall_forall. intros x Hx.
      apply inserirOrdenado_In in Hx as [->|Hx]; [lia|].
      rewrite List.Forall_forall in Hy. now apply Hy.
Qed.

Lemma ordenarPor_crescente (l : list A) : crescente chave (ordenarPor chave l).
Proof.
  induction l as [|y l IH]; cbn; [exact I|].
  now apply inserirOrdenado_crescente.
Qed.

Lemma crescente_firstn (n : nat) (l : list A) : crescente chave l -> crescente chave (firstn n l).
Proof.
  revert n. induction l as [|x l IH]; intros [|n] Hl; cbn [firstn crescente]; auto.
  destruct Hl as [Hx Hl]. split; [|now apply IH].
  apply List.Forall_forall. intros y Hy.
  rewrite List.Forall_forall in Hx. apply Hx.
  clear -Hy. revert n Hy. induction l as [|z l IHl]; intros [|n] Hy; cbn in *; try tauto.
  destruct Hy as [->|Hy]; [now left | right; eauto].
Qed.

(** The first element of the sorted list is not the last element of the
    input when an earlier element has a key that is not larger: the sort
    is stable. *)
Lemma ordenarPor_cabeca (l : list A) (x : A) :
  (exists y, In y l /\ chave y <= chave x) ->
  exists e resto, ordenarPor chave (l ++ [x]) = e :: resto /\ In e l.
Proof.
  induction l as [|a l IH]; intros (y & Hy & Hle); [destruct Hy|].
  cbn [List.app ordenarPor fold_right].
  change (fold_right (inserirOrdenado chave) [] (l ++ [x]))
    with (ordenarPor chave (l ++ [x])).
  destruct (ordenarPor chave (l ++ [x])) as [|h resto] eqn:Hs.
  { apply (f_equal (@length A)) in Hs. rewrite ordenarPor_length, List.length_app in Hs.
    cbn in Hs. lia. }
  cbn [inserirOrdenado].
  destruct (Z.leb_spec (chave a) (chave h)) as [Hah|Hah].
  - exists a, (h :: resto). split; [reflexivity | now left].
  - exists h, (inserirOrdenado chave a resto). split; [reflexivity|]. right.
    assert (Hh : In h (l ++ [x])).
    { apply (ordenarPor_In h). rewrite Hs. now left. }
    apply List.in_app_iff in Hh as [Hh|[<-|[]]]; [exact Hh|].
    destruct Hy as [<-|Hy]; [lia|].
    destruct (IH (ex_intro _ y (conj Hy Hle))) as (e & r' & He & Hin).
    now inversion He; subst.
Qed.

End Ordenacao.

Section Mapa.

Context {V : Type}.
Implicit Types (m : list (string * V)) (k : string) (v : V).

Lemma mapGet_In k v m : mapGet k m = Some v -> In (k, v) m.
Proof.
  induction m as [|[k' v'] m IH]; cbn; [discriminate|].
  destruct (String.eqb_spec k k') as [->|Hne].
  - intros [= ->]. now left.
  - intros H. right. now apply IH.
Qed.

Lemma mapGet_presente k v m :
  List.NoDup (List.map fst m) -> In (k, v) m -> mapGet k m = Some v.
Proof.
  induction m as [|[k' v'] m IH]; cbn; [tauto|].
  intros Hnd [[= -> ->]|Hin].
  - now rewrite String.eqb_refl.
  - apply List.NoDup_cons_iff in Hnd as [Hk' Hnd].
    destruct (String.eqb_spec k k') as [->|Hne]; [|now apply IH].
    exfalso. apply Hk'. apply List.in_map_iff. now exists (k', v).
Qed.

Lemma mapGet_None k m : mapGet k m = None -> ~ In k (List.map fst m).
Proof.
  induction m as [|[k' v'] m IH]; cbn; [tauto|].
  destruct (String.eqb_spec k k') as [->|Hne]; [discriminate|].
  intros H [Heq|Hin]; [congruence | now apply IH].
Qed.

Lemma mapGet_mapSet k v m : mapGet k (mapSet k v m) = Some v.
Proof.
  induction m as [|[k' v'] m IH]; cbn.
  - now rewrite String.eqb_refl.
  - destruct (String.eqb_spec k k') as [->|Hne]; cbn.
    + now rewrite String.eqb_refl.
    + destruct (String.eqb_spec k k'); [congruence | exact IH].
Qed.

Lemma mapSet_ausente k v m : mapGet k m = None -> mapSet k v m = m ++ [(k, v)].
Proof.
  induction m as [|[k' v'] m IH]; cbn; [reflexivity|].
  destruct (String.eqb_spec k k') as [->|Hne]; [discriminate|].
  intros H. now rewrite IH.
Qed.

Lemma mapSet_chaves_presente k v v' m :
  mapGet k m = Some v' -> List.map fst (mapSet k v m) = List.map fst m.
Proof.
  induction m as [|[k' w] m IH]; cbn; [discriminate|].
  destruct (String.eqb_spec k k') as [->|Hne]; [reflexivity|].
  intros H. cbn. now rewrite IH.
Qed.

Lemma mapSet_In k v m (e : string * V) :
  In e (mapSet k v m) -> e = (k, v) \/ In e m.
Proof.
  induction m as [|[k' w] m IH]; cbn.
  - intros [<-|[]]. now left.
  - destruct (String.eqb_spec k k') as [->|Hne]; cbn.
    + intros [<-|H]; [now left | right; now right].
    + intros [<-|H]; [right; now left|].
      destruct (IH H) as [->|Hin]; [now left | right; now right].
Qed.

Lemma mapSet_NoDup k v m :
  List.NoDup (List.map fst m) -> List.NoDup (List.map fst (mapSet k v m)).
Proof.
  intros Hnd. destruct (mapGet k m) as [v'|] eqn:Hg.
  - now rewrite (mapSet_chaves_presente k v v' m Hg).
  - rewrite (mapSet_ausente k v m Hg), List.map_app. cbn.
    apply List.NoDup_app; [exact Hnd | repeat constructor; tauto |].
    intros x Hx [<-|[]]. now apply (mapGet_None k m Hg).
Qed.

Lemma filter_NoDup_chaves (f : string * V -> bool) m :
  List.NoDup (List.map fst m) -> List.NoDup (List.map fst (List.filter f m)).
Proof.
  induction m as [|[k' w] m IH]; cbn; [auto|].
  intros Hnd. apply List.NoDup_cons_iff in Hnd as [Hk' Hnd].
  destruct (f (k', w)); cbn; [|now apply IH].
  constructor; [|now apply IH].
  intros Hin. apply Hk'. apply List.in_map_iff in Hin as (e & He & Hin).
  apply List.filter_In in Hin as [Hin _]. apply List.in_map_iff. eauto.
Qed.

(** The entries that survive deleting the keys of [ds]. *)
Definition foraDe (ds : list (string * V)) (e : string * V) : bool :=
  forallb (fun d => negb (String.eqb (fst d) (fst e))) ds.

Lemma remocoes_filter (ds : list (string * V)) m :
  fold_left (fun acc e => mapDelete (fst e) acc) ds m = List.filter (foraDe ds) m.
Proof.
  revert m. induction ds as [|d ds IH]; intros m; cbn [fold_left].
  - unfold foraDe. cbn. induction m as [|e m IHm]; cbn; [reflexivity | now rewrite <- IHm].
  - rewrite IH. unfold mapDelete.
    induction m as [|e m IHm]; cbn [List.filter]; [reflexivity|].
    unfold foraDe at 2. cbn [forallb].
    destruct (negb (String.eqb (fst d) (fst e))); cbn [List.filter andb].
    + fold (foraDe ds e). destruct (foraDe ds e); now rewrite IHm.
    + exact IHm.
Qed.

Lemma foraDe_proprio (ds : list (string * V)) (e : string * V) :
  In e ds -> foraDe ds e = false.
Proof.
  induction ds as [|d ds IH]; intros Hin; [destruct Hin|].
  unfold foraDe. cbn [forallb]. destruct Hin as [->|Hin].
  - now rewrite String.eqb_refl.
  - fold (foraDe ds e). rewrite (IH Hin). apply andb_false_r.
Qed.

End Mapa.

Lemma filter_length_le {A} (f : A -> bool) (l : list A) :
  (length (List.filter f l) <= length l)%nat.
Proof.
  induction l as [|x l IH]; cbn; [lia|]. destruct (f x); cbn; lia.
Qed.

Lemma filter_todos {A} (f : A -> bool) (l : list A) :
  length (List.filter f l) = length l -> List.filter f l = l.
Proof.
  induction l as [|x l IH]; cbn; [reflexivity|].
  destruct (f x); cbn; intros H.
  - f_equal. apply IH. lia.
  - pose proof (filter_length_le f l). lia.
Qed.

Lemma filter_nenhum {A} (f : A -> bool) (l : list A) :
  (forall x, In x l -> f x = false) -> List.filter f l = [].
Proof.
  induction l as [|x l IH]; intros H; cbn; [reflexivity|].
  rewrite (H x (or_introl eq_refl)). apply IH. intros y Hy. apply H. now right.
Qed.

End JSFatos.

(** ** PIX key rotation *)

Module PixFatos.
Import JS JSFatos Pix.

(** A reading of [Math.random()]: a number in [0, 1). *)
Definition sorteioValido (r : Q) : Prop := (0 <= r)%Q /\ (r < 1)%Q.

Lemma indiceAleatorio_lt (r : Q) (n : nat) :
  sorteioValido r -> (0 < n)%nat -> (indiceAleatorio r n < n)%nat.
Proof.
  intros [H0 H1] Hn. unfold indiceAleatorio.
  set (N := inject_Z (Z.of_nat n)).
  assert (HN : (0 < N)%Q).
  { unfold N. rewrite <- (Zlt_Qlt 0). lia. }
  assert (Hlo : (0 <= Qfloor (r * N))%Z).
  { change 0%Z with (Qfloor 0). apply Qfloor_resp_le.
    apply Qmult_le_0_compat; [exact H0 | apply Qlt_le_weak; exact HN]. }
  assert (Hhi : (Qfloor (r * N) < Z.of_nat n)%Z).
  { rewrite Zlt_Qlt. fold N.
    apply Qle_lt_trans with (r * N)%Q; [apply Qfloor_le|].
    apply Qlt_le_trans with (1 * N)%Q; [apply Qmult_lt_compat_r; assumption|].
    rewrite Qmult_1_l. apply Qle_refl. }
  lia.
Qed.

(** With the two keys of [CHAVES_PIX], the candidates are both indices, or
    the other index when the sender received one inside the block window. *)
Lemma indicesCandidatos_dois (ue : option UltimoEnvio) (agora : Z) :
  indicesCandidatos ue agora =
    match ue with
    | Some u =>
        if agora - timestamp u <? INTERVALO_BLOQUEIO_REPETICAO_MS then
          match indice u with
          | O => [1%nat]
          | S O => [0%nat]
          | _ => [0%nat; 1%nat]
          end
        else [0%nat; 1%nat]
    | None => [0%nat; 1%nat]
    end.
Proof.
  unfold indicesCandidatos. destruct ue as [u|]; [|reflexivity].
  cbn [length CHAVES_PIX Nat.ltb Nat.leb andb].
  destruct (agora - timestamp u <? INTERVALO_BLOQUEIO_REPETICAO_MS); [|reflexivity].
  destruct (indice u) as [|[|k]]; reflexivity.
Qed.

(** The draw group: the least used of the candidates. *)
Lemma grupoSorteio_dois (u : gmap nat nat) :
  grupoSorteio u [0%nat; 1%nat] =
    if (uso u 0 <? uso u 1)%nat then [0%nat]
    else if (uso u 1 <? uso u 0)%nat then [1%nat]
    else [0%nat; 1%nat].
Proof.
  unfold grupoSorteio, minimo. cbn [List.map fold_left List.filter].
  destruct (Nat.ltb_spec (uso u 0) (uso u 1)) as [H|H].
  - rewrite Nat.min_l by lia. rewrite Nat.eqb_refl.
    replace (uso u 1 =? uso u 0)%nat with false by (symmetry; apply Nat.eqb_neq; lia).
    reflexivity.
  - destruct (Nat.ltb_spec (uso u 1) (uso u 0)) as [H'|H'].
    + rewrite Nat.min_r by lia. rewrite Nat.eqb_refl.
      replace (uso u 0 =? uso u 1)%nat with false by (symmetry; apply Nat.eqb_neq; lia).
      reflexivity.
    + assert (uso u 0 = uso u 1) as -> by lia.
      rewrite Nat.min_id, Nat.eqb_refl. reflexivity.
Qed.

Lemma grupoSorteio_um (u : gmap nat nat) (i : nat) : grupoSorteio u [i] = [i].
Proof.
  unfold grupoSorteio, minimo. cbn. rewrite Nat.eqb_refl. reflexivity.
Qed.

(** Every index of the draw group is an index of a key, and the group is
    never empty. *)
Lemma grupoSorteio_candidatos (u : gmap nat nat) (ue : option UltimoEnvio) (agora : Z) :
  let grupo := grupoSorteio u (indicesCandidatos ue agora) in
  (0 < length grupo)%nat /\ Forall (fun i => (i < length CHAVES_PIX)%nat) grupo.
Proof.
  cbn zeta. rewrite indicesCandidatos_dois.
  assert (Hd : let g := grupoSorteio u [0%nat; 1%nat] in
               (0 < length g)%nat /\ Forall (fun i => (i < length CHAVES_PIX)%nat) g).
  { cbn zeta. rewrite grupoSorteio_dois.
    destruct (_ <? _)%nat; [|destruct (_ <? _)%nat]; split;
      try (cbn; lia); repeat (constructor; try (cbn; lia)). }
  assert (H1 : forall i, (i < 2)%nat ->
               let g := grupoSorteio u [i] in
               (0 < length g)%nat /\ Forall (fun i => (i < length CHAVES_PIX)%nat) g).
  { intros i Hi. cbn zeta. rewrite grupoSorteio_um. split; [cbn; lia|].
    constructor; [exact Hi | constructor]. }
  destruct ue as [ult|]; [|exact Hd].
  destruct (_ <? _); [|exact Hd].
  destruct (indice ult) as [|[|k]]; [apply H1; lia | apply H1; lia | exact Hd].
Qed.

(** The index that a call draws, with the state it leaves. *)
Lemma selecionarComIndice_sorteado (numero : string) (t0 t : Z) (r : Q) (s : Estado) :
  sorteioValido r ->
  let h := limparHistoricoAntigo t0 (ultimoEnvioPorNumero s) in
  let n := normalizarNumero numero in
  let grupo := grupoSorteio (usoPorIndice s) (indicesCandidatos (ultimoEnvioDe n h) t) in
  exists i c,
    nth_error grupo (indiceAleatorio r (length grupo)) = Some i
    /\ nth_error CHAVES_PIX i = Some c
    /\ selecionarComIndice numero t0 t r s =
         ({| ultimoEnvioPorNumero :=
               if textoVerdadeiro n
               then mapSet n {| indice := i; timestamp := t |} h else h;
             usoPorIndice := <[i := S (uso (usoPorIndice s) i)]> (usoPorIndice s) |},
          Some (i, c)).
Proof.
  intros Hr h n grupo.
  destruct (grupoSorteio_candidatos (usoPorIndice s) (ultimoEnvioDe n h) t) as [Hlen Hall].
  fold grupo in Hlen, Hall.
  pose proof (indiceAleatorio_lt r (length grupo) Hr Hlen) as Hlt.
  destruct (nth_error grupo (indiceAleatorio r (length grupo))) as [i|] eqn:Hnth.
  2:{ apply nth_error_None in Hnth. lia. }
  assert (Hi : (i < length CHAVES_PIX)%nat).
  { rewrite List.Forall_forall in Hall. apply Hall. eapply nth_error_In; eassumption. }
  destruct (nth_error CHAVES_PIX i) as [c|] eqn:Hc.
  2:{ apply nth_error_None in Hc. lia. }
  exists i, c. split; [reflexivity|]. split; [exact Hc|].
  unfold selecionarComIndice. fold h n grupo. rewrite Hnth, Hc. reflexivity.
Qed.

(** A key is always returned. *)
Lemma selecionarChavePixInteligente_responde (numero : string) (t0 t : Z) (r : Q)
  (s : Estado) :
  sorteioValido r ->
  exists c, snd (selecionarChavePixInteligente numero t0 t r s) = Some c
            /\ In c CHAVES_PIX.
Proof.
  intros Hr.
  destruct (selecionarComIndice_sorteado numero t0 t r s Hr) as (i & c & _ & Hc & Hsel).
  exists c. split; [|eapply nth_error_In; eassumption].
  unfold selecionarChavePixInteligente. rewrite Hsel. reflexivity.
Qed.

(** *** The history as a map *)

Definition chaves (h : list (string * UltimoEnvio)) : list string := List.map fst h.

Lemma mapGet_ausente {V} (k : string) (m : list (string * V)) :
  ~ In k (List.map fst m) -> mapGet k m = None.
Proof.
  induction m as [|[k' v] m IH]; intros Hk; [reflexivity|].
  cbn in *. destruct (String.eqb_spec k k') as [->|Hne].
  - exfalso. apply Hk. now left.
  - apply IH. intros Hin. apply Hk. now right.
Qed.

Lemma chaves_filter (f : string * UltimoEnvio -> bool) (h : list (string * UltimoEnvio)) :
  incl (chaves (List.filter f h)) (chaves h).
Proof.
  intros k Hk. unfold chaves in *. apply List.in_map_iff in Hk as ((k' & v) & <- & Hin).
  apply List.filter_In in Hin as [Hin _].
  apply List.in_map_iff. exists (k', v). auto.
Qed.

Lemma chaves_remocoes (ds : list (string * UltimoEnvio)) (h : list (string * UltimoEnvio)) :
  incl (chaves (fold_left (fun acc e => mapDelete (fst e) acc) ds h)) (chaves h).
Proof.
  revert h. induction ds as [|d ds IH]; intros h; cbn [fold_left].
  - apply incl_refl.
  - eapply incl_tran; [apply IH|]. apply chaves_filter.
Qed.

Lemma chaves_limpar (agora : Z) (h : list (string * UltimoEnvio)) :
  incl (chaves (limparHistoricoAntigo agora h)) (chaves h).
Proof.
  unfold limparHistoricoAntigo.
  destruct (_ <=? _)%nat.
  - apply chaves_filter.
  - eapply incl_tran; [apply chaves_remocoes | apply chaves_filter].
Qed.

Lemma chaves_mapSet (k : string) (v : UltimoEnvio) (h : list (string * UltimoEnvio)) :
  incl (chaves (mapSet k v h)) (k :: chaves h).
Proof.
  induction h as [|[k' v'] h IH]; cbn.
  - intros x [<-|[]]. now left.
  - destruct (String.eqb_spec k k') as [->|Hne]; cbn.
    + intros x [<-|Hx]; [now left | right; now right].
    + intros x [<-|Hx]; [right; now left|].
      destruct (IH x Hx) as [<-|Hin]; [now left | right; now right].
Qed.

(** *** Runs of selections *)

(** One call of [selecionarChavePixInteligente]: the sender and the
    readings of the clock and of [Math.random()]. *)
Record Selecao := {
  remetente : string;
  leituraLimpeza : Z;
  leitura : Z;
  sorteio : Q
}.

Definition aplicarSelecao (s : Estado) (c : Selecao) : Estado :=
  fst (selecionarChavePixInteligente (remetente c) (leituraLimpeza c) (leitura c)
         (sorteio c) s).

Definition executarSelecoes (cs : list Selecao) (s : Estado) : Estado :=
  fold_left aplicarSelecao cs s.

Definition normalizados (cs : list Selecao) : list string :=
  List.map (fun c => normalizarNumero (remetente c)) cs.

Lemma uso_insert (u : gmap nat nat) (i j v : nat) :
  uso (<[i := v]> u) j = if (j =? i)%nat then v else uso u j.
Proof.
  unfold uso. destruct (Nat.eqb_spec j i) as [->|Hne].
  - now rewrite lookup_insert_eq.
  - rewrite lookup_insert_ne by congruence. reflexivity.
Qed.

(** A selection by a sender absent from the history picks a least used key. *)
Lemma aplicarSelecao_sem_historico (s : Estado) (c : Selecao) :
  sorteioValido (sorteio c) ->
  ~ In (normalizarNumero (remetente c)) (chaves (ultimoEnvioPorNumero s)) ->
  let u0 := uso (usoPorIndice s) 0 in
  let u1 := uso (usoPorIndice s) 1 in
  let s' := aplicarSelecao s c in
  incl (chaves (ultimoEnvioPorNumero s'))
       (normalizarNumero (remetente c) :: chaves (ultimoEnvioPorNumero s))
  /\ ((uso (usoPorIndice s') 0 = S u0 /\ uso (usoPorIndice s') 1 = u1 /\ (u0 <= u1)%nat)
      \/ (uso (usoPorIndice s') 0 = u0 /\ uso (usoPorIndice s') 1 = S u1 /\ (u1 <= u0)%nat)).
Proof.
  intros Hr Hnovo u0 u1 s'.
  destruct (selecionarComIndice_sorteado (remetente c) (leituraLimpeza c) (leitura c)
              (sorteio c) s Hr) as (i & k & Hnth & _ & Hsel).
  set (n := normalizarNumero (remetente c)) in *.
  set (h := limparHistoricoAntigo (leituraLimpeza c) (ultimoEnvioPorNumero s)) in *.
  assert (Hue : ultimoEnvioDe n h = None).
  { unfold ultimoEnvioDe. destruct (textoVerdadeiro n); [|reflexivity].
    apply mapGet_ausente. intros Hin. apply Hnovo. eapply chaves_limpar. exact Hin. }
  rewrite Hue, indicesCandidatos_dois, grupoSorteio_dois in Hnth.
  assert (Hs' : s' = fst (selecionarComIndice (remetente c) (leituraLimpeza c)
                            (leitura c) (sorteio c) s)).
  { unfold s', aplicarSelecao, selecionarChavePixInteligente.
    now destruct (selecionarComIndice _ _ _ _ s). }
  rewrite Hsel in Hs'. cbn [fst] in Hs'. rewrite Hs'. cbn [ultimoEnvioPorNumero usoPorIndice].
  split.
  - destruct (textoVerdadeiro n).
    + eapply incl_tran; [apply chaves_mapSet|].
      apply incl_cons; [now left|]. apply incl_tl, chaves_limpar.
    + apply incl_tl, chaves_limpar.
  - rewrite !uso_insert. fold u0 u1 in Hnth |- *.
    destruct (Nat.ltb_spec u0 u1) as [H01|H01].
    + apply nth_error_In in Hnth. destruct Hnth as [<-|[]]. left. cbn. lia.
    + destruct (Nat.ltb_spec u1 u0) as [H10|H10].
      * apply nth_error_In in Hnth. destruct Hnth as [<-|[]]. right. cbn. lia.
      * apply nth_error_In in Hnth. destruct Hnth as [<-|[<-|[]]]; [left|right]; cbn; lia.
Qed.

Lemma executarSelecoes_equilibrio (cs : list Selecao) :
  forall (s : Estado) (vistos : list string),
    incl (chaves (ultimoEnvioPorNumero s)) vistos ->
    List.NoDup (normalizados cs) ->
    (forall n, In n (normalizados cs) -> ~ In n vistos) ->
    Forall (fun c => sorteioValido (sorteio c)) cs ->
    let u0 := uso (usoPorIndice s) 0 in
    let u1 := uso (usoPorIndice s) 1 in
    (u0 <= S u1)%nat -> (u1 <= S u0)%nat ->
    let s' := executarSelecoes cs s in
    let v0 := uso (usoPorIndice s') 0 in
    let v1 := uso (usoPorIndice s') 1 in
    (v0 <= S v1)%nat /\ (v1 <= S v0)%nat /\ (v0 + v1 = u0 + u1 + length cs)%nat.
Proof.
  induction cs as [|c cs IH]; intros s vistos Hh Hnd Hfora Hval u0 u1 Ha Hb.
  - cbn. lia.
  - cbn zeta. cbn [executarSelecoes fold_left].
    change (fold_left aplicarSelecao cs (aplicarSelecao s c))
      with (executarSelecoes cs (aplicarSelecao s c)).
    apply List.Forall_cons_iff in Hval as [Hc Hval].
    cbn [normalizados List.map] in Hnd. apply List.NoDup_cons_iff in Hnd as [Hc_fora Hnd].
    assert (Hnovo : ~ In (normalizarNumero (remetente c)) (chaves (ultimoEnvioPorNumero s))).
    { intros Hin. apply (Hfora (normalizarNumero (remetente c))); [now left | auto]. }
    destruct (aplicarSelecao_sem_historico s c Hc Hnovo) as [Hincl Huso].
    fold u0 u1 in Huso.
    specialize (IH (aplicarSelecao s c) (normalizarNumero (remetente c) :: vistos)).
    cbn zeta in IH.
    assert (IH' := fun H1 H2 H3 => IH H1 Hnd H2 Hval H3).
    clear IH.
    assert (H1 : incl (chaves (ultimoEnvioPorNumero (aplicarSelecao s c)))
                   (normalizarNumero (remetente c) :: vistos)).
    { eapply incl_tran; [exact Hincl|]. apply incl_cons; [now left|]. now apply incl_tl. }
    assert (H2 : forall n, In n (normalizados cs) ->
                   ~ In n (normalizarNumero (remetente c) :: vistos)).
    { intros n Hn [<-|Hv]; [exact (Hc_fora Hn)|].
      apply (Hfora n); [now right | exact Hv]. }
    cbn [length].
    destruct Huso as [(E0 & E1 & Hle)|(E0 & E1 & Hle)];
      rewrite E0, E1 in IH';
      destruct (IH' H1 H2 ltac:(lia) ltac:(lia)) as (R1 & R2 & R3);
      repeat split; lia.
Qed.

(** C8: starting from the initial state, after any 100 selections by
    senders with pairwise distinct normalized numbers, the use counts of the
    two keys differ by at most one (and add up to 100). *)
Theorem rotacao_equilibrada (cs : list Selecao) :
  length cs = 100%nat ->
  List.NoDup (normalizados cs) ->
  Forall (fun c => sorteioValido (sorteio c)) cs ->
  let s := executarSelecoes cs inicial in
  let v0 := uso (usoPorIndice s) 0 in
  let v1 := uso (usoPorIndice s) 1 in
  (v0 <= S v1)%nat /\ (v1 <= S v0)%nat /\ (v0 + v1 = 100)%nat.
Proof.
  intros Hlen Hnd Hval.
  pose proof (executarSelecoes_equilibrio cs inicial [] (incl_refl _) Hnd
                (fun n _ H => H) Hval) as H.
  cbn zeta in H. rewrite Hlen in H.
  change (uso (usoPorIndice inicial) 0) with 0%nat in H.
  change (uso (usoPorIndice inicial) 1) with 0%nat in H.
  apply H; lia.
Qed.

(** *** The history between two calls of the same sender *)

(** The history is a map (no key twice) and holds no timestamp later than
    the reading [agora] of the clock. *)
Definition historicoValido (agora : Z) (h : list (string * UltimoEnvio)) : Prop :=
  List.NoDup (chaves h) /\ Forall (fun e => timestamp (snd e) <= agora) h.

Lemma LIMITE_HISTORICO_pos : (0 < LIMITE_HISTORICO)%nat.
Proof. unfold LIMITE_HISTORICO. lia. Qed.

Lemma limpar_In (agora : Z) (h : list (string * UltimoEnvio)) (e : string * UltimoEnvio) :
  In e (limparHistoricoAntigo agora h) -> In e h.
Proof.
  unfold limparHistoricoAntigo. destruct (_ <=? _)%nat.
  - intros H. now apply List.filter_In in H.
  - rewrite remocoes_filter. intros H.
    apply List.filter_In in H as [H _]. now apply List.filter_In in H.
Qed.

Lemma limpar_NoDup (agora : Z) (h : list (string * UltimoEnvio)) :
  List.NoDup (chaves h) -> List.NoDup (chaves (limparHistoricoAntigo agora h)).
Proof.
  intros Hnd. unfold limparHistoricoAntigo, chaves. destruct (_ <=? _)%nat.
  - now apply filter_NoDup_chaves.
  - rewrite remocoes_filter. now apply filter_NoDup_chaves, filter_NoDup_chaves.
Qed.

(** After the cleaning the history holds at most [LIMITE_HISTORICO] entries. *)
Lemma limpar_length (agora : Z) (h : list (string * UltimoEnvio)) :
  (length (limparHistoricoAntigo agora h) <= LIMITE_HISTORICO)%nat.
Proof.
  unfold limparHistoricoAntigo.
  set (h1 := List.filter (fun e => negb (expirado agora (snd e))) h).
  destruct (Nat.leb_spec (length h1) LIMITE_HISTORICO) as [Hle|Hgt]; [exact Hle|].
  rewrite remocoes_filter.
  set (ordenadas := ordenarPor (fun e => timestamp (snd e)) h1).
  set (excedente := (length h1 - LIMITE_HISTORICO)%nat).
  rewrite <- (filter_ordenarPor_length (fun e => timestamp (snd e))).
  fold ordenadas.
  rewrite <- (List.firstn_skipn excedente ordenadas) at 2.
  rewrite List.filter_app, List.length_app.
  rewrite (filter_nenhum (foraDe (firstn excedente ordenadas)))
    by (intros x Hx; now apply foraDe_proprio).
  cbn [length].
  pose proof (filter_length_le (foraDe (firstn excedente ordenadas))
                (skipn excedente ordenadas)) as Hf.
  rewrite List.length_skipn in Hf.
  assert (Hlo : length ordenadas = length h1) by apply ordenarPor_length.
  unfold excedente in *. lia.
Qed.

(** The entry that a sender has just received outlives the next cleaning:
    it is too recent to expire, and when the size limit is exceeded the
    deleted entry is an older one. *)
Lemma limpar_preserva (n : string) (v : UltimoEnvio) (L : list (string * UltimoEnvio))
  (agora : Z) :
  List.NoDup (chaves L) ->
  (length L <= LIMITE_HISTORICO)%nat ->
  Forall (fun e => timestamp (snd e) <= timestamp v) L ->
  expirado agora v = false ->
  mapGet n (limparHistoricoAntigo agora (mapSet n v L)) = Some v.
Proof.
  intros Hnd Hlen Hts Hexp.
  assert (Hnd1 : List.NoDup (chaves (mapSet n v L))) by now apply mapSet_NoDup.
  assert (Hin1 : In (n, v) (mapSet n v L)) by apply mapGet_In, mapGet_mapSet.
  unfold limparHistoricoAntigo.
  set (h1 := List.filter (fun e => negb (expirado agora (snd e))) (mapSet n v L)).
  assert (Hin : In (n, v) h1).
  { apply List.filter_In. split; [exact Hin1|]. cbn. now rewrite Hexp. }
  assert (Hndf : List.NoDup (chaves h1)) by now apply filter_NoDup_chaves.
  destruct (Nat.leb_spec (length h1) LIMITE_HISTORICO) as [Hle|Hgt].
  { now apply mapGet_presente. }
  pose proof (filter_length_le (fun e => negb (expirado agora (snd e))) (mapSet n v L))
    as Hfl. fold h1 in Hfl.
  destruct (mapGet n L) as [v'|] eqn:Hg.
  { exfalso.
    pose proof (f_equal (@length string) (mapSet_chaves_presente n v v' L Hg)) as Hl.
    rewrite !List.length_map in Hl. lia. }
  pose proof (mapSet_ausente n v L Hg) as Hset.
  assert (Hl1 : length (mapSet n v L) = S (length L)).
  { rewrite Hset, List.length_app. cbn. lia. }
  assert (Hh1 : h1 = L ++ [(n, v)]).
  { rewrite <- Hset. apply filter_todos. fold h1. lia. }
  assert (HL : length L = LIMITE_HISTORICO) by lia.
  replace (length h1 - LIMITE_HISTORICO)%nat with 1%nat
    by (rewrite Hh1, List.length_app; cbn; lia).
  destruct L as [|y L'] eqn:HLeq.
  { pose proof LIMITE_HISTORICO_pos. cbn in HL. lia. }
  rewrite <- HLeq in *.
  assert (Hy : exists y0, In y0 L /\ timestamp (snd y0) <= timestamp (snd (n, v))).
  { exists y. rewrite HLeq. split; [now left|].
    rewrite HLeq in Hts. now apply List.Forall_cons_iff in Hts as [Hts _]. }
  destruct (ordenarPor_cabeca (fun e : string * UltimoEnvio => timestamp (snd e))
              L (n, v) Hy) as (e & resto & Hord & HeL).
  rewrite Hh1 at 1. rewrite Hord. cbn [firstn fold_left].
  apply mapGet_presente.
  - unfold mapDelete. now apply filter_NoDup_chaves.
  - unfold mapDelete. apply List.filter_In. split; [exact Hin|]. cbn.
    destruct (String.eqb_spec (fst e) n) as [Heq|Hne]; [|reflexivity].
    exfalso. apply (mapGet_None n L Hg). rewrite <- Heq.
    apply List.in_map_iff. now exists e.
Qed.

Lemma historicoValido_inicial (agora : Z) :
  historicoValido agora (ultimoEnvioPorNumero inicial).
Proof. split; constructor. Qed.

(** Validity is kept by every call when the clock does not go back. *)
Lemma selecao_preserva_validade (numero : string) (t0 t : Z) (r : Q) (s : Estado) :
  sorteioValido r -> t0 <= t ->
  historicoValido t0 (ultimoEnvioPorNumero s) ->
  historicoValido t
    (ultimoEnvioPorNumero (fst (selecionarChavePixInteligente numero t0 t r s))).
Proof.
  intros Hr Ht [Hnd Hts].
  destruct (selecionarComIndice_sorteado numero t0 t r s Hr) as (i & c & _ & _ & Hsel).
  unfold selecionarChavePixInteligente. rewrite Hsel. cbn [fst ultimoEnvioPorNumero].
  set (L := limparHistoricoAntigo t0 (ultimoEnvioPorNumero s)).
  assert (HL : historicoValido t L).
  { split; [now apply limpar_NoDup|].
    apply List.Forall_forall. intros e He. apply limpar_In in He.
    rewrite List.Forall_forall in Hts. specialize (Hts e He). lia. }
  destruct (textoVerdadeiro (normalizarNumero numero)); [|exact HL].
  destruct HL as [HndL HtsL]. split.
  - now apply mapSet_NoDup.
  - apply List.Forall_forall. intros e He.
    apply mapSet_In in He as [->|He]; [cbn; lia|].
    rewrite List.Forall_forall in HtsL. now apply HtsL.
Qed.

(** A call never returns the key recorded in the sender's history entry
    while that entry is in the cleaned history and younger than the block
    window. *)
Lemma selecao_evita_bloqueada (numero : string) (t2 T2 : Z) (r : Q) (s : Estado)
  (u : UltimoEnvio) :
  sorteioValido r ->
  ultimoEnvioDe (normalizarNumero numero)
    (limparHistoricoAntigo t2 (ultimoEnvioPorNumero s)) = Some u ->
  T2 - timestamp u < INTERVALO_BLOQUEIO_REPETICAO_MS ->
  exists i c,
    snd (selecionarComIndice numero t2 T2 r s) = Some (i, c) /\ i <> indice u.
Proof.
  intros Hr Hu Hjanela.
  destruct (selecionarComIndice_sorteado numero t2 T2 r s Hr)
    as (i & c & Hnth & _ & Hsel).
  exists i, c. rewrite Hsel. split; [reflexivity|].
  rewrite Hu, indicesCandidatos_dois in Hnth.
  replace (T2 - timestamp u <? INTERVALO_BLOQUEIO_REPETICAO_MS) with true in Hnth
    by (symmetry; apply Z.ltb_lt; exact Hjanela).
  destruct (indice u) as [|[|k]].
  - rewrite grupoSorteio_um in Hnth. apply nth_error_In in Hnth.
    destruct Hnth as [<-|[]]. discriminate.
  - rewrite grupoSorteio_um in Hnth. apply nth_error_In in Hnth.
    destruct Hnth as [<-|[]]. discriminate.
  - rewrite grupoSorteio_dois in Hnth. apply nth_error_In in Hnth.
    destruct (_ <? _)%nat; [|destruct (_ <? _)%nat];
      cbn in Hnth; intuition (subst; discriminate).
Qed.

(** *** Examples *)

Lemma sorteioValido_zero : sorteioValido 0.
Proof. split; [discriminate | reflexivity]. Qed.

Lemma sorteioValido_meio : sorteioValido (1 # 2).
Proof. split; [discriminate | reflexivity]. Qed.

(** A hundred senders, numbered 00 to 99. *)
Definition doisDigitos (k : nat) : string :=
  String (ascii_of_nat (48 + k / 10)) (String (ascii_of_nat (48 + k mod 10)) EmptyString).

Definition selecoesExemplo : list Selecao :=
  List.map (fun k => {| remetente := "558699900" +:+ doisDigitos k;
                        leituraLimpeza := 1000 + Z.of_nat k;
                        leitura := 1000 + Z.of_nat k;
                        sorteio := 1 # 2 |}) (seq 0 100).

Lemma rotacao_equilibrada_exemplo :
  let s := executarSelecoes selecoesExemplo inicial in
  let v0 := uso (usoPorIndice s) 0 in
  let v1 := uso (usoPorIndice s) 1 in
  (v0 <= S v1)%nat /\ (v1 <= S v0)%nat /\ (v0 + v1 = 100)%nat.
Proof.
  apply rotacao_equilibrada.
  - reflexivity.
  - apply NoDup_ListNoDup. apply (bool_decide_unpack _). vm_compute. exact I.
  - apply List.Forall_forall. intros c Hc. unfold selecoesExemplo in Hc.
    apply List.in_map_iff in Hc as (k & <- & _). exact sorteioValido_meio.
Defined.

End PixFatos.

(** ** Anti-spam of the automatic replies *)

Module RespostasFatos.
Import JS Respostas.



Section Colaboradores.

Variable detectarIntencao : string -> option Intencao.
Variable gerarTexto : Intencao -> string.
Variable textoPix : Pix.ChavePix -> string.



End Colaboradores.

(** *** Example: a greeting is answered once; a second greeting a minute
    later is not, and a PIX request at that moment is. *)





End RespostasFatos.

(** ** The order poller, one tick after the other *)

Module PollerFatos.
Import JS JSFatos Envio Poller.

(** *** The set of processed ids *)

Lemma setHas_In (x : string) (P : list string) : setHas x P = true <-> In x P.
Proof.
  unfold setHas. rewrite List.existsb_exists. split.
  - intros (y & Hy & Heq). apply String.eqb_eq in Heq. now subst.
  - intros H. exists x. split; [exact H | apply String.eqb_refl].
Qed.

Lemma setHas_false (x : string) (P : list string) : setHas x P = false <-> ~ In x P.
Proof.
  rewrite <- setHas_In. destruct (setHas x P); split; congruence.
Qed.

Lemma firstn_In {A} (n : nat) (l : list A) (x : A) : In x (firstn n l) -> In x l.
Proof.
  revert n. induction l as [|y l IH]; intros [|n]; cbn; try tauto.
  intros [->|H]; [now left | right; eauto].
Qed.






Lemma remocoes_set (ds P : list string) :
  fold_left (fun acc i => setDelete i acc) ds P
  = List.filter (fun y => forallb (fun i => negb (String.eqb i y)) ds) P.
Proof.
  revert P. induction ds as [|d ds IH]; intros P; cbn [fold_left].
  - cbn. induction P as [|y P IHP]; cbn; [reflexivity | now rewrite <- IHP].
  - rewrite IH. unfold setDelete.
    induction P as [|y P IHP]; cbn [List.filter forallb]; [reflexivity|].
    destruct (negb (String.eqb d y)); cbn [List.filter andb].
    + destruct (forallb _ ds); now rewrite IHP.
    + exact IHP.
Qed.






(** *** The query *)

Lemma filter_crescente {A} (chave : A -> Z) (f : A -> bool) (l : list A) :
  crescente chave l -> crescente chave (List.filter f l).
Proof.
  induction l as [|x l IH]; cbn; [auto|].
  intros [Hx Hl]. destruct (f x); cbn; [|auto].
  split; [|auto]. apply List.Forall_forall. intros y Hy.
  apply List.filter_In in Hy as [Hy _].
  rewrite List.Forall_forall in Hx. auto.
Qed.

(** The batch holds at most ten orders, each created after the cursor, in
    ascending order of [created_at]. *)
Lemma consultarNovosPedidos_lote (tabela : list Pedido) (cursor : Z) :
  let lote := consultarNovosPedidos tabela cursor in
  (length lote <= LIMITE_CONSULTA)%nat
  /\ Forall (fun p => cursor < created_at p) lote
  /\ crescente created_at lote.
Proof.
  cbn zeta. unfold consultarNovosPedidos. split; [|split].
  - rewrite List.length_firstn. lia.
  - apply List.Forall_forall. intros p Hp. apply firstn_In in Hp.
    apply ordenarPor_In in Hp. apply List.filter_In in Hp as [_ Hp].
    now apply Z.ltb_lt.
  - apply crescente_firstn, ordenarPor_crescente.
Qed.

Lemma last_cons {A} (x d : A) (l : list A) : List.last (x :: l) d = List.last l x.
Proof.
  revert x d. induction l as [|y l IH]; intros x d; [reflexivity|].
  change (List.last (x :: y :: l) d) with (List.last (y :: l) d).
  now rewrite !IH.
Qed.

(** The last of an ascending list that starts above [c] is above [c]. *)
Lemma last_crescente (ts : list Z) (c : Z) :
  Forall (fun t => c < t) ts -> c <= List.last ts c.
Proof.
  revert c. induction ts as [|t ts IH]; intros c H; [cbn; lia|].
  rewrite last_cons. apply List.Forall_cons_iff in H as [Ht H].
  destruct ts as [|u ts]; [cbn; lia|].
  rewrite last_cons. apply List.Forall_cons_iff in H as [Hu H].
  clear IH Ht. revert u Hu. induction ts as [|w ts IHts]; intros u Hu; [cbn; lia|].
  rewrite last_cons. apply List.Forall_cons_iff in H as [Hw H]. now apply IHts.
Qed.

(** Whether a computation returned normally. *)
Definition retornou {A} (r : Resultado A) : bool :=
  match r with
  | Retorno _ => true
  | Excecao _ => false
  end.

Section Configuracao.

Variable NUMERO_LOJA : string.
Variable gerarMensagemCliente : Pedido -> Resultado string.
Variable gerarMensagemPedidoRecebido : Pedido -> Resultado string.
Variable gerarMensagemEntregador : Pedido -> Resultado string.

Local Abbreviation despachar :=
  (despachar NUMERO_LOJA gerarMensagemCliente gerarMensagemPedidoRecebido
     gerarMensagemEntregador).
Local Abbreviation processarLote :=
  (processarLote NUMERO_LOJA gerarMensagemCliente gerarMensagemPedidoRecebido
     gerarMensagemEntregador).
Local Abbreviation verificarNovosPedidos :=
  (verificarNovosPedidos NUMERO_LOJA gerarMensagemCliente gerarMensagemPedidoRecebido
     gerarMensagemEntregador).
Local Abbreviation tickConcluido :=
  (tickConcluido NUMERO_LOJA gerarMensagemCliente gerarMensagemPedidoRecebido
     gerarMensagemEntregador).
Local Abbreviation executarTicks :=
  (executarTicks NUMERO_LOJA gerarMensagemCliente gerarMensagemPedidoRecebido
     gerarMensagemEntregador).

(** The dispatch, whether it returns or throws, only touches the sending
    world and the log of dispatches. *)
Lemma despachar_efeito (pedido : Pedido) (s : Estado) :
  exists r w, despachar pedido s
              = (r, comMundo w (registrarDespacho (id pedido) s)).
Proof.
  unfold Poller.despachar.
  destruct (processarNovoPedido NUMERO_LOJA gerarMensagemCliente
              gerarMensagemPedidoRecebido gerarMensagemEntregador pedido (mundo s))
    as [r w].
  eauto.
Qed.

(** The loop at an order that is not in the set: the order is dispatched;
    when the dispatch returns the order is marked and the cursor moves to
    it, when the dispatch throws the loop ends there with the set and the
    cursor as they were. *)
Lemma processarLote_novo (pedido : Pedido) (resto : list Pedido) (s : Estado) :
  setHas (id pedido) (pedidosProcessados s) = false ->
  exists r s0,
    despachar pedido s = (r, s0)
    /\ pedidosProcessados s0 = pedidosProcessados s
    /\ ultimoPedidoProcessado s0 = ultimoPedidoProcessado s
    /\ despachos s0 = despachos s ++ [id pedido]
    /\ consultas s0 = consultas s
    /\ lojaFechadaPeloAdmin s0 = lojaFechadaPeloAdmin s
    /\ match r with
       | Retorno _ =>
           exists s1,
             processarLote (pedido :: resto) s = processarLote resto s1
             /\ ultimoPedidoProcessado s1 = created_at pedido
             /\ pedidosProcessados s1
                = limitarCache (setAdd (id pedido) (pedidosProcessados s))
             /\ despachos s1 = despachos s ++ [id pedido]
             /\ consultas s1 = consultas s
             /\ lojaFechadaPeloAdmin s1 = lojaFechadaPeloAdmin s
             /\ mundo s1 = mundo s0
       | Excecao e => processarLote (pedido :: resto) s = (Excecao e, s0)
       end.
Proof.
  intros Hhas. destruct (despachar_efeito pedido s) as (r & w & Hd).
  exists r, (comMundo w (registrarDespacho (id pedido) s)).
  split; [exact Hd|]. cbn [Poller.processarLote]. rewrite Hhas, Hd.
  repeat (split; [reflexivity|]).
  destruct r as [u|e]; [|reflexivity].
  eexists. split; [reflexivity|]. cbn. auto 10.
Qed.

Lemma processarLote_repetido (pedido : Pedido) (resto : list Pedido) (s : Estado) :
  setHas (id pedido) (pedidosProcessados s) = true ->
  processarLote (pedido :: resto) s
  = processarLote resto (comCursor (created_at pedido) s).
Proof. intros Hhas. cbn [Poller.processarLote]. now rewrite Hhas. Qed.


(** *** The cursor *)

(** The loop passes a prefix of the batch: the cursor ends on the last
    order of that prefix; the prefix is the whole batch when no dispatch
    threw, and is followed by the order whose dispatch threw otherwise. *)
Lemma processarLote_percurso (lote : list Pedido) (s : Estado) :
  exists feitos restantes,
    lote = feitos ++ restantes
    /\ ultimoPedidoProcessado (snd (processarLote lote s))
       = List.last (List.map created_at feitos) (ultimoPedidoProcessado s)
    /\ match fst (processarLote lote s) with
       | Retorno _ => restantes = []
       | Excecao e =>
           exists p resto st,
             restantes = p :: resto
             /\ despachar p st = (Excecao e, snd (processarLote lote s))
       end.
Proof.
  revert s. induction lote as [|p lote IH]; intros s.
  - exists [], []. cbn. auto.
  - destruct (setHas (id p) (pedidosProcessados s)) eqn:Hhas.
    + rewrite (processarLote_repetido p lote s Hhas).
      destruct (IH (comCursor (created_at p) s)) as (feitos & restantes & -> & Hc & Hr).
      exists (p :: feitos), restantes. split; [reflexivity|].
      cbn [List.map]. rewrite last_cons. split; [exact Hc | exact Hr].
    + destruct (processarLote_novo p lote s Hhas)
        as (r & s0 & Hd & _ & HC & _ & _ & _ & Hr).
      destruct r as [u|e].
      * destruct Hr as (s1 & -> & Hc1 & _).
        destruct (IH s1) as (feitos & restantes & -> & Hc & Hr).
        exists (p :: feitos), restantes. split; [reflexivity|].
        cbn [List.map]. rewrite last_cons, <- Hc1. split; [exact Hc | exact Hr].
      * rewrite Hr. exists [], (p :: lote). cbn [app fst snd List.map List.last].
        split; [reflexivity|]. split; [exact HC|]. eauto.
Qed.

Lemma processarLote_fixos (lote : list Pedido) (s : Estado) :
  consultas (snd (processarLote lote s)) = consultas s
  /\ lojaFechadaPeloAdmin (snd (processarLote lote s)) = lojaFechadaPeloAdmin s.
Proof.
  revert s. induction lote as [|p lote IH]; intros s; [auto|].
  destruct (setHas (id p) (pedidosProcessados s)) eqn:Hhas.
  - rewrite (processarLote_repetido p lote s Hhas).
    destruct (IH (comCursor (created_at p) s)) as [IH1 IH2]. split; assumption.
  - destruct (processarLote_novo p lote s Hhas)
      as (r & s0 & _ & _ & _ & _ & Hq0 & Hl0 & Hr).
    destruct r as [u|e].
    + destruct Hr as (s1 & -> & _ & _ & _ & Hq & Hl & _).
      destruct (IH s1) as [IH1 IH2]. split; congruence.
    + rewrite Hr. auto.
Qed.

(** The loop of a tick runs over the batch that the tick observes. *)
Lemma verificarNovosPedidos_lote (resposta : RespostaSupabase (list Pedido))
  (s : Estado) :
  verificarNovosPedidos resposta s
  = snd (processarLote (loteObservado resposta s)
           (if lojaFechadaPeloAdmin s then s else registrarConsulta s)).
Proof.
  unfold Poller.verificarNovosPedidos, loteObservado.
  destruct (lojaFechadaPeloAdmin s); [reflexivity|].
  destruct resposta as [tabela|e]; reflexivity.
Qed.

Lemma tickConcluido_lote (resposta : RespostaSupabase (list Pedido)) (s : Estado) :
  tickConcluido resposta s
  = retornou (fst (processarLote (loteObservado resposta s)
                     (if lojaFechadaPeloAdmin s then s else registrarConsulta s))).
Proof.
  unfold Poller.tickConcluido, loteObservado.
  destruct (lojaFechadaPeloAdmin s); reflexivity.
Qed.

Lemma loteObservado_lote (resposta : RespostaSupabase (list Pedido)) (s : Estado) :
  let lote := loteObservado resposta s in
  (length lote <= LIMITE_CONSULTA)%nat
  /\ Forall (fun p => ultimoPedidoProcessado s < created_at p) lote
  /\ crescente created_at lote.
Proof.
  cbn zeta. unfold loteObservado.
  destruct (lojaFechadaPeloAdmin s); [cbn; split; [lia | split; [constructor | exact I]]|].
  destruct resposta as [tabela|e]; [apply consultarNovosPedidos_lote|].
  cbn; split; [lia | split; [constructor | exact I]].
Qed.

(** What a tick does to the cursor. *)
Lemma verificarNovosPedidos_percurso (resposta : RespostaSupabase (list Pedido))
  (s : Estado) :
  exists feitos restantes,
    loteObservado resposta s = feitos ++ restantes
    /\ ultimoPedidoProcessado (verificarNovosPedidos resposta s)
       = List.last (List.map created_at feitos) (ultimoPedidoProcessado s)
    /\ (tickConcluido resposta s = true -> restantes = [])
    /\ (tickConcluido resposta s = false ->
        exists p resto st e,
          restantes = p :: resto
          /\ despachar p st = (Excecao e, verificarNovosPedidos resposta s)).
Proof.
  rewrite verificarNovosPedidos_lote, tickConcluido_lote.
  set (s0 := if lojaFechadaPeloAdmin s then s else registrarConsulta s).
  assert (Hc0 : ultimoPedidoProcessado s0 = ultimoPedidoProcessado s)
    by (subst s0; now destruct (lojaFechadaPeloAdmin s)).
  destruct (processarLote_percurso (loteObservado resposta s) s0)
    as (feitos & restantes & Hl & Hc & Hr).
  exists feitos, restantes. split; [exact Hl|]. rewrite <- Hc0. split; [exact Hc|].
  destruct (fst (processarLote (loteObservado resposta s) s0)) as [u|e]; cbn [retornou].
  - split; [auto | discriminate].
  - split; [discriminate|]. intros _.
    destruct Hr as (p & resto & st & Hr & Hd). eauto 6.
Qed.

Lemma verificarNovosPedidos_monotono (resposta : RespostaSupabase (list Pedido))
  (s : Estado) :
  ultimoPedidoProcessado s <= ultimoPedidoProcessado (verificarNovosPedidos resposta s).
Proof.
  destruct (verificarNovosPedidos_percurso resposta s)
    as (feitos & restantes & Hl & -> & _).
  apply last_crescente.
  destruct (loteObservado_lote resposta s) as (_ & H & _).
  rewrite Hl in H. apply List.Forall_app in H as [H _].
  apply List.Forall_forall. intros t Ht.
  apply List.in_map_iff in Ht as (p & <- & Hp).
  rewrite List.Forall_forall in H. now apply H.
Qed.

(** C2 (amended): when each tick completes before the next one starts, the
    cursor never decreases along a run of ticks.  A tick passes a prefix of
    the batch it observed, and leaves the cursor on the [created_at] of the
    last order of that prefix (dispatched or skipped as a duplicate), or
    unchanged when the prefix is empty.  The prefix is the whole batch when
    no dispatch of the tick threw; otherwise it ends before the order whose
    dispatch threw, and the cursor does not pass that order.  The batch
    holds only orders created after the cursor, in ascending order of
    [created_at]. *)
Theorem cursor_monotono (respostas : list (RespostaSupabase (list Pedido)))
  (resposta : RespostaSupabase (list Pedido)) (s : Estado) :
  ultimoPedidoProcessado s <= ultimoPedidoProcessado (executarTicks respostas s)
  /\ (exists feitos restantes,
        loteObservado resposta s = feitos ++ restantes
        /\ ultimoPedidoProcessado (verificarNovosPedidos resposta s)
           = List.last (List.map created_at feitos) (ultimoPedidoProcessado s)
        /\ (tickConcluido resposta s = true -> restantes = [])
        /\ (tickConcluido resposta s = false ->
            exists p resto st e,
              restantes = p :: resto
              /\ despachar p st = (Excecao e, verificarNovosPedidos resposta s)))
  /\ (tickConcluido resposta s = true ->
      ultimoPedidoProcessado (verificarNovosPedidos resposta s)
      = List.last (List.map created_at (loteObservado resposta s))
          (ultimoPedidoProcessado s))
  /\ Forall (fun p => ultimoPedidoProcessado s < created_at p)
       (loteObservado resposta s)
  /\ crescente created_at (loteObservado resposta s).
Proof.
  split; [|split; [apply verificarNovosPedidos_percurso|split]].
  - revert s. induction respostas as [|r rs IH]; intros s; [cbn; lia|].
    cbn [Poller.executarTicks fold_left].
    etransitivity; [apply (verificarNovosPedidos_monotono r s)|]. apply IH.
  - intros Hfim.
    destruct (verificarNovosPedidos_percurso resposta s)
      as (feitos & restantes & Hl & Hc & Hr & _).
    rewrite Hc, Hl, (Hr Hfim), List.app_nil_r. reflexivity.
  - destruct (loteObservado_lote resposta s) as (_ & H1 & H2). auto.
Qed.

(** *** Deduplication *)





(** *** The shop closed by the admin *)

(** C5 (amended): a tick that finds [lojaFechadaPeloAdmin] set changes
    nothing (no query, no dispatch, cursor and set as they were); a tick
    that finds it unset issues the query with the current cursor, whatever
    the business hours; and the flag is set exactly when the last
    successful read of [manual_status] gave "closed". *)
Theorem loja_fechada_pelo_admin (resposta : RespostaSupabase (list Pedido))
  (status : RespostaSupabase (option string)) (s : Estado) :
  (lojaFechadaPeloAdmin s = true -> verificarNovosPedidos resposta s = s)
  /\ (lojaFechadaPeloAdmin s = false ->
      consultas (verificarNovosPedidos resposta s)
      = consultas s ++ [ultimoPedidoProcessado s])
  /\ lojaFechadaPeloAdmin (verificarStatusLoja status s)
     = match status with
       | Dados (Some v) => String.eqb v "closed"
       | Dados None => false
       | Falha _ => lojaFechadaPeloAdmin s
       end.
Proof.
  split; [|split].
  - intros H. unfold Poller.verificarNovosPedidos. now rewrite H.
  - intros H. unfold Poller.verificarNovosPedidos. rewrite H.
    destruct resposta as [tabela|e]; [|reflexivity].
    now destruct (processarLote_fixos
                    (consultarNovosPedidos tabela
                       (ultimoPedidoProcessado (registrarConsulta s)))
                    (registrarConsulta s)) as [-> _].
  - unfold verificarStatusLoja. destruct status as [[v|]|e]; [| |reflexivity].
    + destruct (String.eqb v "closed"), (lojaFechadaPeloAdmin s) eqn:Hl;
        cbn; try rewrite Hl; reflexivity.
    + destruct (lojaFechadaPeloAdmin s) eqn:Hl; cbn; try rewrite Hl; reflexivity.
Qed.

End Configuracao.

(** *** Examples *)

(** The poller right after [configurarPollingPedidos]: nothing processed,
    the shop not closed, the cursor on the newest order of the table. *)
Definition estadoDeArranque (cursor : Z) : Estado :=
  {| mundo := EnvioFatos.mundoConectado [] [];
     ultimoPedidoProcessado := cursor;
     pedidosProcessados := [];
     lojaFechadaPeloAdmin := false;
     despachos := [];
     consultas := [] |}.

(** An order to be picked up, with no customer telephone. *)
Definition pedidoSimples (i : string) (criado : Z) : Pedido :=
  EnvioFatos.pedidoExemplo i "pending" criado Nulo "pickup".

Definition tick (resposta : RespostaSupabase (list Pedido)) (s : Estado) : Estado :=
  verificarNovosPedidos "" (EnvioFatos.textoFixo "cliente") (EnvioFatos.textoFixo "loja")
    (EnvioFatos.textoFixo "entregador") resposta s.





(** C5, as the specification states it: with [manual_status] unset and the business hours
    closed (a Sunday at noon) the availability check of the replies reports
    the shop closed, yet the tick queries and dispatches. *)
Lemma loja_fechada_contraexemplo :
  let s := verificarStatusLoja (Dados None) (estadoDeArranque 0) in
  let s' := tick (Dados [pedidoSimples "a" 10]) s in
  Horario.verificarLojaAbertaSupabase ∅ Horario.Domingo (12 * 60) = false
  /\ lojaFechadaPeloAdmin s = false
  /\ consultas s' = [0]
  /\ despachos s' = ["a"]
  /\ pedidosProcessados s' = ["a"]
  /\ ultimoPedidoProcessado s' = 10.
Proof. vm_compute. repeat split. Qed.

Lemma loja_fechada_exemplo :
  let s := verificarStatusLoja (Dados (Some "closed")) (estadoDeArranque 0) in
  lojaFechadaPeloAdmin s = true
  /\ tick (Dados [pedidoSimples "a" 10]) s = s.
Proof.
  cbn zeta.
  destruct (loja_fechada_pelo_admin "" (EnvioFatos.textoFixo "cliente")
              (EnvioFatos.textoFixo "loja") (EnvioFatos.textoFixo "entregador")
              (Dados [pedidoSimples "a" 10]) (Dados (Some "closed"))
              (verificarStatusLoja (Dados (Some "closed")) (estadoDeArranque 0)))
    as (H & _ & _).
  split; [reflexivity | exact (H eq_refl)].
Defined.

End PollerFatos.

(** ** Ticks that overlap *)

Module ConcorrenciaFatos.
Import JS JSFatos Envio Poller Concorrencia PollerFatos.

Lemma crescente_app_r {A} (chave : A -> Z) (l1 l2 : list A) :
  crescente chave (l1 ++ l2) -> crescente chave l2.
Proof.
  induction l1 as [|x l1 IH]; cbn; [auto|]. intros [_ H]. auto.
Qed.

Lemma crescente_remover {A} (chave : A -> Z) (l1 l2 l3 : list A) :
  crescente chave (l1 ++ l2 ++ l3) -> crescente chave (l1 ++ l3).
Proof.
  induction l1 as [|x l1 IH]; cbn.
  - apply crescente_app_r.
  - intros [Hx H]. split; [|auto].
    apply List.Forall_forall. intros y Hy.
    rewrite List.Forall_forall in Hx. apply Hx.
    apply List.in_app_iff in Hy as [Hy|Hy];
      apply List.in_app_iff; [now left | right].
    apply List.in_app_iff. now right.
Qed.

Lemma crescente_app_l {A} (chave : A -> Z) (l1 l2 : list A) :
  crescente chave (l1 ++ l2) -> crescente chave l1.
Proof.
  intros H. rewrite <- (List.app_nil_r l1).
  apply (crescente_remover chave l1 l2 []). now rewrite List.app_nil_r.
Qed.

Lemma crescente_antes {A} (chave : A -> Z) (l1 l2 : list A) (x : A) :
  crescente chave (l1 ++ x :: l2) -> Forall (fun y => chave y <= chave x) l1.
Proof.
  induction l1 as [|y l1 IH]; cbn; [constructor|].
  intros [Hy H]. constructor; [|auto].
  rewrite List.Forall_forall in Hy. apply Hy.
  apply List.in_app_iff. right. now left.
Qed.

(** The orders still ahead of a call that stopped. *)
Definition porFazer (parada : option (Pedido * list Pedido)) : list Pedido :=
  match parada with
  | Some (p, resto) => p :: resto
  | None => []
  end.

Lemma marcasDoTick_app (t : nat) (r1 r2 : list (nat * (Marca * Pedido))) :
  marcasDoTick t (r1 ++ r2) = marcasDoTick t r1 ++ marcasDoTick t r2.
Proof. unfold marcasDoTick. now rewrite List.filter_app, List.map_app. Qed.

Lemma marcasDoTick_proprio (t : nat) (m : Marca * Pedido) :
  marcasDoTick t [(t, m)] = [m].
Proof. unfold marcasDoTick. cbn. now rewrite Nat.eqb_refl. Qed.

Lemma marcasDoTick_outro (t t' : nat) (m : Marca * Pedido) :
  t' <> t -> marcasDoTick t' [(t, m)] = [].
Proof.
  intros Hne. unfold marcasDoTick. cbn.
  destruct (Nat.eqb_spec t t'); [congruence | reflexivity].
Qed.

Lemma marcasDoTick_proprias (t : nat) (ms : list (Marca * Pedido)) :
  marcasDoTick t (List.map (pair t) ms) = ms.
Proof.
  induction ms as [|m ms IH]; [reflexivity|].
  change (List.map (pair t) (m :: ms)) with ([(t, m)] ++ List.map (pair t) ms).
  now rewrite marcasDoTick_app, marcasDoTick_proprio, IH.
Qed.

Lemma marcasDoTick_outras (t t' : nat) (ms : list (Marca * Pedido)) :
  t' <> t -> marcasDoTick t' (List.map (pair t) ms) = [].
Proof.
  intros Hne. induction ms as [|m ms IH]; [reflexivity|].
  change (List.map (pair t) (m :: ms)) with ([(t, m)] ++ List.map (pair t) ms).
  now rewrite marcasDoTick_app, marcasDoTick_outro, IH.
Qed.

Lemma emSequencia_app (l1 l2 : list Pedido) :
  emSequencia (l1 ++ l2) = emSequencia l1 ++ emSequencia l2.
Proof. unfold emSequencia. apply List.flat_map_app. Qed.

(** What the log holds for a call, by the point where the call is: the
    orders already dispatched, each started and ended before the next, and
    the start of the one being dispatched; all in ascending order of
    [created_at], the orders still to come included. *)
Definition situacao (onde : option Suspensao) (marcas : list (Marca * Pedido)) : Prop :=
  match onde with
  | Some (AguardandoConsulta _) => marcas = []
  | Some (AguardandoDespacho p resto) =>
      exists feitos,
        marcas = emSequencia feitos ++ [(Inicio, p)]
        /\ crescente created_at (feitos ++ p :: resto)
  | None =>
      exists feitos, marcas = emSequencia feitos /\ crescente created_at feitos
  end.

Definition coerente (sys : Sistema) : Prop :=
  (forall t, (proximoTick sys <= t)%nat ->
             emVoo sys !! t = None /\ marcasDoTick t (registro sys) = [])
  /\ (forall t, situacao (emVoo sys !! t) (marcasDoTick t (registro sys))).

Lemma coerente_inicial (s : Estado) : coerente (sistemaInicial s).
Proof.
  split.
  - intros t _. split; [apply lookup_empty | reflexivity].
  - intros t. cbn. rewrite lookup_empty. exists []. split; [reflexivity | exact I].
Qed.

(** Two systems that differ at most in their logs. *)
Definition mesmoSistema (a b : Sistema) : Prop :=
  estado a = estado b /\ emVoo a = emVoo b /\ proximoTick a = proximoTick b.

Section Configuracao.

Variable NUMERO_LOJA : string.
Variable gerarMensagemCliente : Pedido -> Resultado string.
Variable gerarMensagemPedidoRecebido : Pedido -> Resultado string.
Variable gerarMensagemEntregador : Pedido -> Resultado string.

Local Abbreviation despachar :=
  (despachar NUMERO_LOJA gerarMensagemCliente gerarMensagemPedidoRecebido
     gerarMensagemEntregador).
Local Abbreviation processarLote :=
  (processarLote NUMERO_LOJA gerarMensagemCliente gerarMensagemPedidoRecebido
     gerarMensagemEntregador).
Local Abbreviation suspende :=
  (suspende NUMERO_LOJA gerarMensagemCliente gerarMensagemPedidoRecebido
     gerarMensagemEntregador).
Local Abbreviation avancar :=
  (avancar NUMERO_LOJA gerarMensagemCliente gerarMensagemPedidoRecebido
     gerarMensagemEntregador).
Local Abbreviation retomar :=
  (retomar NUMERO_LOJA gerarMensagemCliente gerarMensagemPedidoRecebido
     gerarMensagemEntregador).
Local Abbreviation passo :=
  (passo NUMERO_LOJA gerarMensagemCliente gerarMensagemPedidoRecebido
     gerarMensagemEntregador).
Local Abbreviation executar :=
  (executar NUMERO_LOJA gerarMensagemCliente gerarMensagemPedidoRecebido
     gerarMensagemEntregador).

(** The orders that a call dispatches without leaving the event loop,
    followed by the orders still ahead, keep the order of the batch. *)
Lemma avancar_ordem (lote : list Pedido) :
  forall (antes : list Pedido) (s s' : Estado) (feitos : list Pedido)
         (parada : option (Pedido * list Pedido)),
    avancar lote s = (s', feitos, parada) ->
    crescente created_at (antes ++ lote) ->
    crescente created_at (antes ++ feitos ++ porFazer parada).
Proof.
  induction lote as [|q lote IH]; intros antes s s' feitos parada; cbn [Concorrencia.avancar].
  - intros [= <- <- <-] H. exact H.
  - destruct (setHas (id q) (pedidosProcessados s)).
    + intros Hav H. apply (IH antes _ _ _ _ Hav).
      now apply (crescente_remover created_at antes [q] lote).
    + destruct (suspende q s).
      * intros [= <- <- <-] H. exact H.
      * destruct (despachar q s) as [[u|e] s1].
        -- destruct (avancar lote (concluirPedido q s1)) as [[s2 f2] par2] eqn:Hav.
           intros [= <- <- <-] H.
           specialize (IH (antes ++ [q]) _ _ _ _ Hav).
           rewrite <- !List.app_assoc in IH. now apply IH.
        -- intros [= <- <- <-] H. cbn [porFazer].
           apply (crescente_app_l created_at (antes ++ [q] ++ []) lote).
           now rewrite List.app_nil_r, <- List.app_assoc.
Qed.

(** Resuming call [t], whose log holds [antes] complete, keeps the system
    coherent. *)
Lemma retomar_coerente (t : nat) (lote antes : list Pedido) (s : Estado)
  (sys : Sistema) :
  (t < proximoTick sys)%nat ->
  (forall t', (proximoTick sys <= t')%nat ->
              emVoo sys !! t' = None /\ marcasDoTick t' (registro sys) = []) ->
  (forall t', t' <> t -> situacao (emVoo sys !! t') (marcasDoTick t' (registro sys))) ->
  marcasDoTick t (registro sys) = emSequencia antes ->
  crescente created_at (antes ++ lote) ->
  coerente (retomar t lote s sys).
Proof.
  intros Ht Hfresco Houtros Hmarcas Hcres. unfold Concorrencia.retomar.
  destruct (avancar lote s) as [[s' feitos] parada] eqn:Hav.
  pose proof (avancar_ordem lote antes s s' feitos parada Hav Hcres) as Hord.
  destruct parada as [[p resto]|]; cbn [porFazer] in Hord.
  - split; cbn [emVoo proximoTick registro].
    + intros t' Ht'. destruct (Hfresco t' Ht') as [H1 H2].
      rewrite lookup_insert_ne by lia. rewrite !marcasDoTick_app, H2.
      rewrite marcasDoTick_outras, marcasDoTick_outro by lia. auto.
    + intros t'. destruct (Nat.eq_dec t' t) as [->|Hne].
      * rewrite lookup_insert_eq, !marcasDoTick_app, marcasDoTick_proprias,
          marcasDoTick_proprio, Hmarcas.
        exists (antes ++ feitos). split.
        -- now rewrite emSequencia_app, <- List.app_assoc.
        -- now rewrite <- List.app_assoc.
      * rewrite lookup_insert_ne by congruence.
        rewrite !marcasDoTick_app, marcasDoTick_outras, marcasDoTick_outro,
          !List.app_nil_r by exact Hne.
        now apply Houtros.
  - rewrite List.app_nil_r in Hord. split; cbn [emVoo proximoTick registro].
    + intros t' Ht'. destruct (Hfresco t' Ht') as [H1 H2].
      rewrite lookup_delete_ne by lia. rewrite marcasDoTick_app, H2.
      rewrite marcasDoTick_outras by lia. auto.
    + intros t'. destruct (Nat.eq_dec t' t) as [->|Hne].
      * rewrite lookup_delete_eq, marcasDoTick_app, marcasDoTick_proprias, Hmarcas.
        exists (antes ++ feitos). split; [now rewrite emSequencia_app | exact Hord].
      * rewrite lookup_delete_ne by congruence.
        rewrite marcasDoTick_app, marcasDoTick_outras, List.app_nil_r by exact Hne.
        now apply Houtros.
Qed.

Lemma em_voo_antes (sys : Sistema) (t : nat) (onde : Suspensao) :
  coerente sys -> emVoo sys !! t = Some onde -> (t < proximoTick sys)%nat.
Proof.
  intros [Hfresco _] Ht. destruct (Nat.lt_ge_cases t (proximoTick sys)) as [H|H]; [exact H|].
  destruct (Hfresco t H) as [Hn _]. congruence.
Qed.

Lemma passo_coerente (sys : Sistema) (e : Evento) :
  coerente sys -> coerente (passo sys e).
Proof.
  intros Hc. pose proof Hc as [Hfresco Hsit].
  destruct e as [|t resposta|t]; cbn [Concorrencia.passo].
  - (* the timer fires *)
    destruct (lojaFechadaPeloAdmin (estado sys)); [exact Hc|].
    split; cbn [emVoo proximoTick registro].
    + intros t Ht. destruct (Hfresco t ltac:(lia)) as [H1 H2].
      rewrite lookup_insert_ne by lia. auto.
    + intros t. destruct (Nat.eq_dec t (proximoTick sys)) as [->|Hne].
      * rewrite lookup_insert_eq. cbn. now destruct (Hfresco (proximoTick sys) (le_n _)).
      * rewrite lookup_insert_ne by congruence. apply Hsit.
  - (* the query settles *)
    destruct (emVoo sys !! t) as [[cursor|p resto]|] eqn:Ht; try exact Hc.
    pose proof (em_voo_antes sys t _ Hc Ht) as Hlt.
    pose proof (Hsit t) as Hm. rewrite Ht in Hm. cbn in Hm.
    destruct resposta as [tabela|erro].
    + apply (retomar_coerente t _ [] (estado sys) sys Hlt Hfresco);
        [intros; apply Hsit | exact Hm |].
      cbn. apply consultarNovosPedidos_lote.
    + split; cbn [encerrar emVoo proximoTick registro].
      * intros t' Ht'. destruct (Hfresco t' Ht') as [H1 H2].
        rewrite lookup_delete_ne by lia. auto.
      * intros t'. destruct (Nat.eq_dec t' t) as [->|Hne].
        -- rewrite lookup_delete_eq, Hm. exists []. split; [reflexivity | exact I].
        -- rewrite lookup_delete_ne by congruence. apply Hsit.
  - (* a dispatch settles *)
    destruct (emVoo sys !! t) as [[cursor|p resto]|] eqn:Ht; try exact Hc.
    pose proof (em_voo_antes sys t _ Hc Ht) as Hlt.
    pose proof (Hsit t) as Hm. rewrite Ht in Hm. destruct Hm as (feitos & Hm & Hcres).
    assert (Hmarcas : marcasDoTick t (registro sys ++ [(t, (Fim, p))])
                      = emSequencia (feitos ++ [p])).
    { rewrite marcasDoTick_app, marcasDoTick_proprio, Hm, emSequencia_app.
      cbn. now rewrite <- List.app_assoc. }
    destruct (despachar p (estado sys)) as [[u|erro] s1].
    + apply (retomar_coerente t resto (feitos ++ [p])); cbn [emVoo proximoTick registro].
      * exact Hlt.
      * intros t' Ht'. destruct (Hfresco t' Ht') as [H1 H2].
        rewrite marcasDoTick_app, H2, marcasDoTick_outro by lia. auto.
      * intros t' Hne. rewrite marcasDoTick_app, marcasDoTick_outro, List.app_nil_r
          by exact Hne. apply Hsit.
      * exact Hmarcas.
      * now rewrite <- List.app_assoc.
    + split; cbn [encerrar emVoo proximoTick registro].
      * intros t' Ht'. destruct (Hfresco t' Ht') as [H1 H2].
        rewrite lookup_delete_ne by lia.
        rewrite marcasDoTick_app, H2, marcasDoTick_outro by lia. auto.
      * intros t'. destruct (Nat.eq_dec t' t) as [->|Hne].
        -- rewrite lookup_delete_eq. exists (feitos ++ [p]). split; [exact Hmarcas|].
           apply (crescente_app_l created_at (feitos ++ [p]) resto).
           now rewrite <- List.app_assoc.
        -- rewrite lookup_delete_ne by congruence.
           rewrite marcasDoTick_app, marcasDoTick_outro, List.app_nil_r by exact Hne.
           apply Hsit.
Qed.

Lemma executar_coerente (eventos : list Evento) (sys : Sistema) :
  coerente sys -> coerente (executar eventos sys).
Proof.
  revert sys. induction eventos as [|e eventos IH]; intros sys Hc; [exact Hc|].
  cbn [Concorrencia.executar fold_left]. apply IH, passo_coerente, Hc.
Qed.

(** C4 (amended): nothing stops a firing of the timer while a call is in
    flight: unless the shop is closed by the admin, it starts a new call and
    leaves the calls in flight where they are.  Within one call, though, the
    dispatches are sequential and ordered: its log is the start and the end
    of each dispatched order, one order after the other, followed at most by
    the start of the order being dispatched, in ascending order of
    [created_at]. *)
Theorem despachos_em_ordem (eventos : list Evento) (s0 : Estado) (t : nat) :
  let sys := executar eventos (sistemaInicial s0) in
  (exists feitos,
      crescente created_at feitos
      /\ (marcasDoTick t (registro sys) = emSequencia feitos
          \/ exists p resto,
               emVoo sys !! t = Some (AguardandoDespacho p resto)
               /\ marcasDoTick t (registro sys) = emSequencia feitos ++ [(Inicio, p)]
               /\ Forall (fun q => created_at q <= created_at p) feitos))
  /\ (lojaFechadaPeloAdmin (estado sys) = false ->
      emVoo (passo sys Disparo)
      = <[proximoTick sys := AguardandoConsulta (ultimoPedidoProcessado (estado sys))]>
          (emVoo sys)).
Proof.
  intros sys. split.
  - pose proof (executar_coerente eventos (sistemaInicial s0) (coerente_inicial s0))
      as [_ Hsit].
    fold sys in Hsit. specialize (Hsit t). unfold situacao in Hsit.
    destruct (emVoo sys !! t) as [[cursor|p resto]|] eqn:Ht.
    + exists []. split; [exact I | now left].
    + destruct Hsit as (feitos & Hm & Hcres). exists feitos.
      split; [now apply (crescente_app_l created_at feitos (p :: resto))|].
      right. exists p, resto. split; [reflexivity|]. split; [exact Hm|].
      now apply (crescente_antes created_at feitos resto p).
    + destruct Hsit as (feitos & Hm & Hcres). exists feitos. split; [exact Hcres | now left].
  - intros Haberta. cbn [Concorrencia.passo]. now rewrite Haberta.
Qed.

(** *** A call that runs alone is [verificarNovosPedidos] *)

Lemma sem_chamadas (n t : nat) (sys : Sistema) :
  emVoo sys !! t = None -> executar (repeat (FimDespacho t) n) sys = sys.
Proof.
  intros H. induction n as [|n IH]; [reflexivity|].
  cbn [repeat Concorrencia.executar fold_left Concorrencia.passo]. rewrite H. exact IH.
Qed.

(** The logs play no part in what the calls do. *)
Lemma retomar_mesmo (t : nat) (lote : list Pedido) (s : Estado) (a b : Sistema) :
  emVoo a = emVoo b -> proximoTick a = proximoTick b ->
  mesmoSistema (retomar t lote s a) (retomar t lote s b).
Proof.
  intros Hv Hp. unfold Concorrencia.retomar.
  destruct (avancar lote s) as [[s' feitos] [[p resto]|]];
    repeat split; cbn; congruence.
Qed.

Lemma passo_mesmo (a b : Sistema) (e : Evento) :
  mesmoSistema a b -> mesmoSistema (passo a e) (passo b e).
Proof.
  intros (He & Hv & Hp). destruct e as [|t resposta|t]; cbn [Concorrencia.passo].
  - rewrite He. destruct (lojaFechadaPeloAdmin (estado b)); [repeat split; assumption|].
    repeat split; cbn; congruence.
  - rewrite Hv. destruct (emVoo b !! t) as [[cursor|p resto]|];
      try (repeat split; assumption).
    destruct resposta as [tabela|erro].
    + rewrite He. now apply retomar_mesmo.
    + repeat split; cbn; congruence.
  - rewrite Hv. destruct (emVoo b !! t) as [[cursor|p resto]|];
      try (repeat split; assumption).
    rewrite He. destruct (despachar p (estado b)) as [[u|erro] s1].
    + now apply retomar_mesmo.
    + repeat split; cbn; congruence.
Qed.

Lemma executar_mesmo (eventos : list Evento) (a b : Sistema) :
  mesmoSistema a b -> mesmoSistema (executar eventos a) (executar eventos b).
Proof.
  revert a b. induction eventos as [|e eventos IH]; intros a b H; [exact H|].
  cbn [Concorrencia.executar fold_left]. apply IH, passo_mesmo, H.
Qed.

Lemma executar_cons (e : Evento) (eventos : list Evento) (sys : Sistema) :
  executar (e :: eventos) sys = executar eventos (passo sys e).
Proof. reflexivity. Qed.

Lemma retomar_sozinha (t : nat) (lote : list Pedido) :
  forall (n : nat) (s : Estado) (sys : Sistema),
    (length lote <= n)%nat ->
    delete t (emVoo sys) = ∅ ->
    let fim := executar (repeat (FimDespacho t) n) (retomar t lote s sys) in
    estado fim = snd (processarLote lote s)
    /\ emVoo fim = ∅.
Proof.
  induction lote as [|p lote IH]; intros n s sys Hn Hvazio.
  - cbn zeta. unfold Concorrencia.retomar. cbn [Concorrencia.avancar].
    rewrite sem_chamadas by (cbn; rewrite Hvazio; apply lookup_empty).
    cbn. auto.
  - cbn [length] in Hn. cbn zeta.
    destruct (setHas (id p) (pedidosProcessados s)) eqn:Hhas.
    + unfold Concorrencia.retomar. cbn [Concorrencia.avancar Poller.processarLote].
      rewrite Hhas.
      apply (IH n (comCursor (created_at p) s) sys); [lia | exact Hvazio].
    + destruct (suspende p s) eqn:Hsus.
      * unfold Concorrencia.retomar. cbn [Concorrencia.avancar Poller.processarLote].
        rewrite Hhas, Hsus.
        destruct n as [|n]; [lia|].
        cbn [repeat]. rewrite executar_cons.
        cbn [Concorrencia.passo emVoo estado registro proximoTick].
        rewrite lookup_insert_eq.
        destruct (despachar p s) as [[u|e] s1].
        -- apply (IH n); [lia|].
           cbn [emVoo]. now rewrite delete_insert_eq.
        -- rewrite sem_chamadas by (cbn; apply lookup_delete_eq).
           cbn. rewrite delete_insert_eq. auto.
      * destruct (despachar p s) as [[u|e] s1] eqn:Hd.
        -- assert (Hm : mesmoSistema (retomar t (p :: lote) s sys)
                          (retomar t lote (concluirPedido p s1) sys)).
           { unfold Concorrencia.retomar. cbn [Concorrencia.avancar].
             rewrite Hhas, Hsus, Hd.
             destruct (avancar lote (concluirPedido p s1)) as [[s' feitos] [[q resto]|]];
               repeat split. }
           destruct (executar_mesmo (repeat (FimDespacho t) n) _ _ Hm) as (He & Hv & _).
           rewrite He, Hv. cbn [Poller.processarLote]. rewrite Hhas, Hd.
           apply (IH n); [lia | exact Hvazio].
        -- unfold Concorrencia.retomar. cbn [Concorrencia.avancar Poller.processarLote].
           rewrite Hhas, Hsus, Hd.
           rewrite sem_chamadas by (cbn; apply lookup_delete_eq).
           cbn. auto.
Qed.

(** A call that no other call overlaps does what [verificarNovosPedidos]
    does. *)
Lemma tick_sozinho (resposta : RespostaSupabase (list Pedido)) (sys : Sistema) :
  emVoo sys = ∅ ->
  let t := proximoTick sys in
  let fim := executar (Disparo :: RespostaConsulta t resposta
                         :: repeat (FimDespacho t) LIMITE_CONSULTA) sys in
  estado fim = verificarNovosPedidos NUMERO_LOJA gerarMensagemCliente
                 gerarMensagemPedidoRecebido gerarMensagemEntregador resposta (estado sys)
  /\ emVoo fim = ∅.
Proof.
  intros Hvazio t fim. subst fim.
  rewrite !executar_cons. unfold Poller.verificarNovosPedidos.
  cbn [Concorrencia.passo].
  destruct (lojaFechadaPeloAdmin (estado sys)) eqn:Hl.
  - assert (Hn : emVoo sys !! t = None) by (rewrite Hvazio; apply lookup_empty).
    rewrite Hn, sem_chamadas by exact Hn. auto.
  - cbn [emVoo estado]. fold t. rewrite lookup_insert_eq.
    destruct resposta as [tabela|erro].
    + apply retomar_sozinha.
      * apply consultarNovosPedidos_lote.
      * cbn [emVoo]. rewrite delete_insert_eq, Hvazio. apply delete_empty.
    + rewrite sem_chamadas.
      * cbn. rewrite delete_insert_eq, Hvazio. split; [reflexivity | apply delete_empty].
      * cbn. apply lookup_delete_eq.
Qed.

End Configuracao.

(** *** Examples *)

Definition executarExemplo (eventos : list Evento) (sys : Sistema) : Sistema :=
  executar "" (EnvioFatos.textoFixo "cliente") (EnvioFatos.textoFixo "loja")
    (EnvioFatos.textoFixo "entregador") eventos sys.

(** Two orders to be picked up, each with the telephone of its customer:
    on a connected bot their dispatch awaits [sock.sendMessage]. *)
Definition pedidoA : Pedido :=
  EnvioFatos.pedidoExemplo "a" "pending" 10 (Cadeia "86922220001") "pickup".
Definition pedidoB : Pedido :=
  EnvioFatos.pedidoExemplo "b" "pending" 20 (Cadeia "86922220002") "pickup".

(** The second firing comes while the first call awaits the dispatch of
    order a; the query of the second call answers a, and later b as well. *)
Definition eventosSobrepostos : list Evento :=
  [ Disparo; RespostaConsulta 0 (Dados [pedidoA]);
    Disparo; RespostaConsulta 1 (Dados [pedidoA; pedidoB]) ].

(** C4, as the specification states it: a tick would never start while the dispatch of an
    earlier tick is in flight.  Here the bot is connected and the first call
    awaits the send to the customer of order a when the timer fires again:
    the second call starts, both calls are in flight together, and order a
    is handed to [processarNovoPedido] by both. *)
Lemma tick_sobreposto_contraexemplo :
  let s0 := estadoDeArranque 0 in
  let sys3 := executarExemplo (firstn 3 eventosSobrepostos) (sistemaInicial s0) in
  let sys4 := executarExemplo eventosSobrepostos (sistemaInicial s0) in
  let fim := executarExemplo [FimDespacho 0; FimDespacho 1; FimDespacho 1] sys4 in
  conectado (statusConexao (mundo s0)) = true
  /\ suspende "" (EnvioFatos.textoFixo "cliente") (EnvioFatos.textoFixo "loja")
       (EnvioFatos.textoFixo "entregador") pedidoA s0 = true
  /\ emVoo sys3 !! 0%nat = Some (AguardandoDespacho pedidoA [])
  /\ emVoo sys3 !! 1%nat = Some (AguardandoConsulta 0)
  /\ emVoo sys4 !! 0%nat = Some (AguardandoDespacho pedidoA [])
  /\ emVoo sys4 !! 1%nat = Some (AguardandoDespacho pedidoA [pedidoB])
  /\ despachos (estado fim) = ["a"; "a"; "b"]
  /\ List.map snd (transmitidas (mundo (estado fim))) = ["cliente"; "cliente"; "cliente"]
  /\ registro fim = [ (0%nat, (Inicio, pedidoA)); (1%nat, (Inicio, pedidoA));
                      (0%nat, (Fim, pedidoA)); (1%nat, (Fim, pedidoA));
                      (1%nat, (Inicio, pedidoB)); (1%nat, (Fim, pedidoB)) ].
Proof. vm_compute. repeat split. Qed.

(** C2, as the specification states it, for any sequence of ticks: on a
    connected bot, when the second call completes both its dispatches
    before the send of the first call settles, the cursor goes from 20 back
    to 10. *)
Lemma cursor_sobreposto_contraexemplo :
  let s0 := estadoDeArranque 0 in
  let sys4 := executarExemplo eventosSobrepostos (sistemaInicial s0) in
  let sys6 := executarExemplo [FimDespacho 1; FimDespacho 1] sys4 in
  let sys7 := executarExemplo [FimDespacho 0] sys6 in
  suspende "" (EnvioFatos.textoFixo "cliente") (EnvioFatos.textoFixo "loja")
    (EnvioFatos.textoFixo "entregador") pedidoA s0 = true
  /\ emVoo sys4 !! 0%nat = Some (AguardandoDespacho pedidoA [])
  /\ ultimoPedidoProcessado (estado sys6) = 20
  /\ ultimoPedidoProcessado (estado sys7) = 10
  /\ emVoo sys7 = ∅.
Proof. vm_compute. repeat split. Qed.

Lemma despachos_em_ordem_exemplo :
  let sys := executarExemplo eventosSobrepostos (sistemaInicial (estadoDeArranque 0)) in
  lojaFechadaPeloAdmin (estado sys) = false
  /\ emVoo (passo "" (EnvioFatos.textoFixo "cliente") (EnvioFatos.textoFixo "loja")
              (EnvioFatos.textoFixo "entregador") sys Disparo) !! 2%nat
     = Some (AguardandoConsulta 0).
Proof.
  cbn zeta. split; [reflexivity|].
  destruct (despachos_em_ordem "" (EnvioFatos.textoFixo "cliente")
              (EnvioFatos.textoFixo "loja") (EnvioFatos.textoFixo "entregador")
              eventosSobrepostos (estadoDeArranque 0) 0) as [_ H].
  fold (executarExemplo eventosSobrepostos (sistemaInicial (estadoDeArranque 0))) in H.
  rewrite (H eq_refl). reflexivity.
Defined.

End ConcorrenciaFatos.

(** ** The connection handler: which closures restart the bot, and when *)

Module FechamentoFatos.
Import JS Reconexao.

(** The backoff delays of the counters that the handler can hold. *)
Lemma delayReconexao_valores (k : nat) :
  (k <= MAX_TENTATIVAS_RECONEXAO)%nat ->
  (1500 <= delayReconexao k)%Q /\ (delayReconexao k <= 48000)%Q
  /\ ~ (delayReconexao k == 5000)%Q.
Proof.
  unfold MAX_TENTATIVAS_RECONEXAO. intros Hk.
  do 6 (destruct k as [|k]; [repeat split; discriminate|]). lia.
Qed.

Lemma aoFechar_acoes (DR : DisconnectReason) (usar : bool) (statusCode : option Z)
  (s : Conexao) :
  snd (aoFechar DR usar statusCode s) = []
  \/ snd (aoFechar DR usar statusCode s)
     = (if usar then [LimparSessao] else []) ++ [Reiniciar 2000]
  \/ exists k, (k <= MAX_TENTATIVAS_RECONEXAO)%nat
               /\ snd (aoFechar DR usar statusCode s) = [Reiniciar (delayReconexao k)].
Proof.
  unfold aoFechar.
  destruct (estaAutenticado s); cbn [negb andb orb].
  - destruct (codigoIgual statusCode (loggedOut DR)); [right; left; reflexivity|].
    right; right.
    destruct (Nat.ltb_spec MAX_TENTATIVAS_RECONEXAO (S (tentativasReconexao s))) as [H|H].
    + exists 0%nat. split; [unfold MAX_TENTATIVAS_RECONEXAO; lia | reflexivity].
    + exists (S (tentativasReconexao s)). split; [exact H | reflexivity].
  - destruct (contadorQrCodes s) as [|q]; cbn [Nat.eqb]; [left; reflexivity|].
    destruct (codigoIgual statusCode (loggedOut DR)); [right; left; reflexivity|].
    destruct (foiDesconexaoTemporaria DR statusCode); [|left; reflexivity].
    right; right.
    destruct (Nat.ltb_spec MAX_TENTATIVAS_RECONEXAO (S (tentativasReconexao s))) as [H|H].
    + exists 0%nat. split; [unfold MAX_TENTATIVAS_RECONEXAO; lia | reflexivity].
    + exists (S (tentativasReconexao s)). split; [exact H | reflexivity].
Qed.

(** X1: a closure asks for nothing (no restart, no session cleaning)
    exactly when the session is not authenticated and either no QR code has
    been generated yet, or the status code is neither the logout code nor
    one of the temporary disconnections.  In every other case a restart is
    scheduled. *)
Theorem fechamento_sem_reinicio (DR : DisconnectReason) (usar : bool)
  (statusCode : option Z) (s : Conexao) :
  (snd (aoFechar DR usar statusCode s) = [] <->
   estaAutenticado s = false
   /\ (contadorQrCodes s = 0%nat
       \/ (codigoIgual statusCode (loggedOut DR) = false
           /\ foiDesconexaoTemporaria DR statusCode = false)))
  /\ (snd (aoFechar DR usar statusCode s) <> [] ->
      exists d, In (Reiniciar d) (snd (aoFechar DR usar statusCode s))).
Proof.
  unfold aoFechar.
  destruct (estaAutenticado s); cbn [negb andb orb].
  - destruct (codigoIgual statusCode (loggedOut DR)).
    + split.
      * split; [destruct usar; discriminate | intros [H _]; discriminate].
      * intros _. exists 2000%Q. cbn [snd]. apply in_or_app. right. now left.
    + split.
      * split; [discriminate | intros [H _]; discriminate].
      * intros _. eexists. cbn [snd]. now left.
  - destruct (contadorQrCodes s) as [|q]; cbn [Nat.eqb Nat.ltb Nat.leb].
    + split; [|intros H; now elim H].
      split; [auto | reflexivity].
    + destruct (codigoIgual statusCode (loggedOut DR)).
      * split.
        -- split; [destruct usar; discriminate|].
           intros [_ [H|[H _]]]; discriminate.
        -- intros _. exists 2000%Q. cbn [snd]. apply in_or_app. right. now left.
      * destruct (foiDesconexaoTemporaria DR statusCode).
        -- split.
           ++ split; [discriminate|]. intros [_ [H|[_ H]]]; discriminate.
           ++ intros _. eexists. cbn [snd]. now left.
        -- split; [|intros H; now elim H].
           split; [auto | reflexivity].
Qed.

(** X2: whatever the state and the update, a restart that the handler
    schedules waits either the 2 s of the logout branch or a backoff delay
    of a counter between 0 and [MAX_TENTATIVAS_RECONEXAO], hence between
    1.5 s and 48 s; the final fallback of the handler (restart in 5 s) is
    never taken. *)
Theorem atrasos_de_reinicio (DR : DisconnectReason) (usar : bool) (u : Update)
  (s : Conexao) (d : Q) :
  In (Reiniciar d) (snd (aoAtualizarConexao DR usar u s)) ->
  (d = 2000%Q
   \/ exists k, (k <= MAX_TENTATIVAS_RECONEXAO)%nat /\ d = delayReconexao k)
  /\ (1500 <= d)%Q /\ (d <= 48000)%Q /\ ~ (d == 5000)%Q.
Proof.
  intros Hin.
  assert (Hd : d = 2000%Q
               \/ exists k, (k <= MAX_TENTATIVAS_RECONEXAO)%nat /\ d = delayReconexao k).
  { unfold aoAtualizarConexao in Hin.
    destruct (connection u) as [[| |]|]; cbn [snd] in Hin.
    - destruct (aoFechar_acoes DR usar (statusCode u) (aoReceberQr (qr u) s))
        as [H|[H|(k & Hk & H)]]; rewrite H in Hin.
      + destruct Hin.
      + apply in_app_or in Hin as [Hin|Hin].
        * destruct usar; cbn in Hin; [destruct Hin as [Hin|[]]; discriminate | destruct Hin].
        * destruct Hin as [[= <-]|[]]. now left.
      + destruct Hin as [[= <-]|[]]. right. eauto.
    - destruct Hin as [Hin|[]]. discriminate.
    - destruct Hin.
    - destruct Hin. }
  split; [exact Hd|].
  destruct Hd as [->|(k & Hk & ->)].
  - repeat split; discriminate.
  - apply delayReconexao_valores. exact Hk.
Qed.

(** The values of the bindings when the process starts. *)
Definition conexaoInicial : Conexao :=
  {| statusConexao := Desconectado; qrCodeAtual := None; contadorQrCodes := 0;
     estaAutenticado := false; tentativasReconexao := 0 |}.

Definition fechamento (codigo : Z) : Update :=
  {| connection := Some Close; statusCode := Some codigo; qr := None |}.

Definition abertura : Update :=
  {| connection := Some Open; statusCode := None; qr := None |}.

Lemma atrasos_de_reinicio_exemplo :
  let s := fst (aoAtualizarConexao baileys true abertura conexaoInicial) in
  In (Reiniciar (delayReconexao 1)) (snd (aoAtualizarConexao baileys true (fechamento 428) s))
  /\ (1500 <= delayReconexao 1)%Q /\ (delayReconexao 1 <= 48000)%Q.
Proof.
  cbn zeta.
  assert (Hin : In (Reiniciar (delayReconexao 1))
                  (snd (aoAtualizarConexao baileys true (fechamento 428)
                          (fst (aoAtualizarConexao baileys true abertura conexaoInicial)))))
    by (now left).
  split; [exact Hin|].
  destruct (atrasos_de_reinicio baileys true (fechamento 428) _ _ Hin) as (_ & H1 & H2 & _).
  split; assumption.
Defined.

Lemma aoReceberQr_mantem (q : option string) (c : Conexao) :
  estaAutenticado (aoReceberQr q c) = estaAutenticado c
  /\ tentativasReconexao (aoReceberQr q c) = tentativasReconexao c.
Proof. unfold aoReceberQr. destruct (verdadeiro q); split; reflexivity. Qed.

Lemma aoFechar_autenticado (DR : DisconnectReason) (usar : bool) (statusCode : option Z)
  (c : Conexao) :
  estaAutenticado c = true -> tentativasReconexao c = 0%nat ->
  codigoIgual statusCode (loggedOut DR) = false ->
  snd (aoFechar DR usar statusCode c) = [Reiniciar (delayReconexao 1)]
  /\ tentativasReconexao (fst (aoFechar DR usar statusCode c)) = 1%nat
  /\ estaAutenticado (fst (aoFechar DR usar statusCode c)) = true.
Proof.
  intros Ha Ht Hc. unfold aoFechar. rewrite Ha, Ht, Hc. cbn. auto.
Qed.

(** X3: a connection that opened resets the backoff.  Whatever happened
    before, the first closure after an ['open'] whose status code is not the
    logout code is attempt 1 and restarts after the base delay of 3 s; it
    never waits for a QR code or stops. *)
Theorem reconexao_apos_abrir (DR : DisconnectReason) (usar : bool)
  (aberta fechada : Update) (s : Conexao) :
  connection aberta = Some Open ->
  connection fechada = Some Close ->
  codigoIgual (statusCode fechada) (loggedOut DR) = false ->
  let s1 := fst (aoAtualizarConexao DR usar aberta s) in
  let r := aoAtualizarConexao DR usar fechada s1 in
  snd r = [Reiniciar (delayReconexao 1)]
  /\ (delayReconexao 1 == 3000)%Q
  /\ tentativasReconexao (fst r) = 1%nat
  /\ estaAutenticado (fst r) = true.
Proof.
  intros Ha Hf Hc s1 r.
  assert (Hs1 : estaAutenticado s1 = true /\ tentativasReconexao s1 = 0%nat).
  { subst s1. unfold aoAtualizarConexao. rewrite Ha. split; reflexivity. }
  destruct Hs1 as [Hs1 Hs2].
  destruct (aoReceberQr_mantem (qr fechada) s1) as [H1 H2].
  rewrite Hs1 in H1. rewrite Hs2 in H2.
  destruct (aoFechar_autenticado DR usar (statusCode fechada) _ H1 H2 Hc)
    as (R1 & R2 & R3).
  assert (Hr : r = aoFechar DR usar (statusCode fechada) (aoReceberQr (qr fechada) s1)).
  { subst r. unfold aoAtualizarConexao at 1. now rewrite Hf. }
  rewrite Hr.
  split; [exact R1|]. split; [reflexivity|]. split; [exact R2 | exact R3].
Qed.

Lemma reconexao_apos_abrir_exemplo :
  snd (aoAtualizarConexao baileys false (fechamento 515)
         (fst (aoAtualizarConexao baileys false abertura conexaoInicial)))
  = [Reiniciar (delayReconexao 1)].
Proof.
  exact (proj1 (reconexao_apos_abrir baileys false abertura (fechamento 515)
                  conexaoInicial eq_refl eq_refl eq_refl)).
Defined.

End FechamentoFatos.

(** ** Texts: filtering and concatenation *)

Module TextoFatos.
Import JS.

(** Every character of a text satisfies [f]. *)
Fixpoint todos (f : ascii -> bool) (s : string) : bool :=
  match s with
  | EmptyString => true
  | String c r => f c && todos f r
  end.

Lemma append_cons (c : ascii) (s t : string) : String c s +:+ t = String c (s +:+ t).
Proof. reflexivity. Qed.

Lemma append_nil (t : string) : "" +:+ t = t.
Proof. reflexivity. Qed.

Lemma append_vazio (s : string) : s +:+ "" = s.
Proof.
  induction s as [|c s IH]; [reflexivity | now rewrite append_cons, IH].
Qed.

Lemma append_assoc (a b c : string) : (a +:+ b) +:+ c = a +:+ (b +:+ c).
Proof.
  induction a as [|x a IH]; [reflexivity | now rewrite !append_cons, IH].
Qed.

Lemma length_append (a b : string) :
  String.length (a +:+ b) = (String.length a + String.length b)%nat.
Proof.
  induction a as [|x a IH]; [reflexivity | rewrite append_cons; cbn; now rewrite IH].
Qed.

Lemma filtrarTexto_append (f : ascii -> bool) (a b : string) :
  filtrarTexto f (a +:+ b) = filtrarTexto f a +:+ filtrarTexto f b.
Proof.
  induction a as [|x a IH]; [reflexivity|].
  rewrite append_cons. cbn. destruct (f x); rewrite ?append_cons; now rewrite IH.
Qed.

Lemma todos_filtrarTexto (f : ascii -> bool) (s : string) :
  todos f (filtrarTexto f s) = true.
Proof.
  induction s as [|c s IH]; [reflexivity|].
  cbn. destruct (f c) eqn:Hc; [cbn; now rewrite Hc | exact IH].
Qed.

Lemma filtrarTexto_todos (f : ascii -> bool) (s : string) :
  todos f s = true -> filtrarTexto f s = s.
Proof.
  induction s as [|c s IH]; [reflexivity|].
  cbn. intros H. apply andb_prop in H as [Hc Hs]. rewrite Hc. now rewrite IH.
Qed.

Lemma todos_fixo (f : ascii -> bool) (s : string) :
  filtrarTexto f s = s -> todos f s = true.
Proof. intros H. rewrite <- H. apply todos_filtrarTexto. Qed.

Lemma todos_append (f : ascii -> bool) (a b : string) :
  todos f (a +:+ b) = todos f a && todos f b.
Proof.
  induction a as [|x a IH]; [reflexivity|].
  rewrite append_cons. cbn. rewrite IH. now rewrite andb_assoc.
Qed.

Lemma filtrarTexto_idempotente (f : ascii -> bool) (s : string) :
  filtrarTexto f (filtrarTexto f s) = filtrarTexto f s.
Proof. apply filtrarTexto_todos, todos_filtrarTexto. Qed.

Lemma textoVerdadeiro_vazio (s : string) : textoVerdadeiro s = false <-> s = "".
Proof. destruct s; cbn; split; congruence. Qed.

End TextoFatos.

(** ** The WhatsApp address of a telephone ([formatarNumeroWhatsApp]) *)

Module NumeroFatos.
Import JS Envio TextoFatos.

Lemma quebrar13 (s : string) :
  String.length s = 13%nat ->
  exists c0 c1 c2 c3 c4 c5 c6 c7 c8 c9 c10 c11 c12,
    s = String c0 (String c1 (String c2 (String c3 (String c4 (String c5 (String c6
         (String c7 (String c8 (String c9 (String c10 (String c11 (String c12
         "")))))))))))).
Proof.
  intros H.
  do 13 (destruct s as [|? s]; [discriminate H|]).
  destruct s; [|discriminate H].
  repeat eexists.
Qed.

(** The number before ["@s.whatsapp.net"]: digits only, starting with the
    country code, and never a 13-digit number with a 9 after the area code. *)
Lemma formatarNumeroWhatsApp_forma (telefone jid : string) :
  formatarNumeroWhatsApp telefone = Some jid ->
  exists n,
    jid = n +:+ "@s.whatsapp.net"
    /\ todos ehDigito n = true
    /\ String.prefix "55" n = true
    /\ (String.length n =? 13)%nat && String.eqb (String.substring 4 1 n) "9" = false.
Proof.
  unfold formatarNumeroWhatsApp.
  destruct (textoVerdadeiro telefone); cbn [negb]; [|discriminate].
  set (d := apenasDigitos telefone).
  assert (Hd : todos ehDigito d = true) by apply todos_filtrarTexto.
  set (n0 := if String.prefix "55" d then d else "55" +:+ d).
  assert (Hn0 : todos ehDigito n0 = true /\ String.prefix "55" n0 = true).
  { subst n0. destruct (String.prefix "55" d) eqn:Hp; [now split|].
    split; [|now destruct d]. rewrite todos_append, Hd. reflexivity. }
  destruct Hn0 as [Ht Hp]. rewrite Hp, andb_true_r.
  destruct (String.length n0 =? 13)%nat eqn:Hlen.
  - apply Nat.eqb_eq in Hlen.
    destruct (quebrar13 n0 Hlen)
      as (c0 & c1 & c2 & c3 & c4 & c5 & c6 & c7 & c8 & c9 & c10 & c11 & c12 & Hn).
    rewrite Hn in *. clear Hn.
    cbn [String.length Nat.sub String.substring].
    destruct (String.eqb (String c4 "") "9") eqn:Hnono; intros [= <-].
    + eexists. split; [reflexivity|].
      cbn [todos] in Ht. repeat (apply andb_prop in Ht as [? Ht]).
      cbn [String.prefix] in Hp.
      destruct (ascii_dec "5" c0) as [<-|]; [|discriminate].
      destruct (ascii_dec "5" c1) as [<-|]; [|discriminate].
      split; [|split; reflexivity].
      rewrite !append_cons, !append_nil. cbn [todos].
      repeat match goal with
             | Hc : ehDigito _ = true |- _ => rewrite Hc; clear Hc
             end.
      reflexivity.
    + eexists. split; [reflexivity|]. split; [exact Ht|]. split; [exact Hp|].
      cbn [String.length Nat.eqb String.substring andb]. exact Hnono.
  - intros [= <-]. eexists. split; [reflexivity|]. split; [exact Ht|].
    split; [exact Hp|]. now rewrite Hlen.
Qed.

(** X4: [formatarNumeroWhatsApp] answers [null] for the empty telephone
    only.  Every other telephone, even one without a digit, gets an
    address: digits only, starting with the country code 55, followed by
    ["@s.whatsapp.net"]. *)
Theorem formatarNumeroWhatsApp_endereco (telefone : string) :
  (formatarNumeroWhatsApp telefone = None <-> telefone = "")
  /\ (forall jid, formatarNumeroWhatsApp telefone = Some jid ->
        exists n, jid = n +:+ "@s.whatsapp.net"
                  /\ apenasDigitos n = n
                  /\ String.prefix "55" n = true).
Proof.
  split.
  - unfold formatarNumeroWhatsApp. destruct telefone; cbn [textoVerdadeiro negb].
    + split; reflexivity.
    + split; discriminate.
  - intros jid H. destruct (formatarNumeroWhatsApp_forma _ _ H) as (n & Hj & Ht & Hp & _).
    exists n. split; [exact Hj|]. split; [now apply filtrarTexto_todos | exact Hp].
Qed.

(** X5: an address that [formatarNumeroWhatsApp] produced is a fixed point:
    formatting it again gives the same address. *)
Theorem formatarNumeroWhatsApp_idempotente (telefone jid : string) :
  formatarNumeroWhatsApp telefone = Some jid ->
  formatarNumeroWhatsApp jid = Some jid.
Proof.
  intros H. destruct (formatarNumeroWhatsApp_forma _ _ H) as (n & -> & Ht & Hp & H13).
  unfold formatarNumeroWhatsApp.
  assert (Hv : textoVerdadeiro (n +:+ "@s.whatsapp.net") = true) by (now destruct n).
  rewrite Hv. cbn [negb].
  assert (Hd : apenasDigitos (n +:+ "@s.whatsapp.net") = n).
  { unfold apenasDigitos. rewrite filtrarTexto_append.
    rewrite (filtrarTexto_todos _ _ Ht).
    change (filtrarTexto ehDigito "@s.whatsapp.net") with "". apply append_vazio. }
  cbv zeta. rewrite Hd, !Hp, andb_true_r.
  destruct (String.length n =? 13)%nat; [|reflexivity].
  cbn [andb] in H13. now rewrite H13.
Qed.

Lemma formatarNumeroWhatsApp_idempotente_exemplo :
  formatarNumeroWhatsApp "(86) 98131-9596" = Some "558681319596@s.whatsapp.net"
  /\ formatarNumeroWhatsApp "558681319596@s.whatsapp.net"
     = Some "558681319596@s.whatsapp.net".
Proof.
  split; [reflexivity|].
  exact (formatarNumeroWhatsApp_idempotente "(86) 98131-9596" _ eq_refl).
Defined.

(** X6: the ninth digit.  A telephone whose digits are an area code [ddd],
    a 9 and eight more digits gets the 12-digit address 55 + [ddd] + the
    eight digits, whether it is written with the country code or, for an
    area code other than 55, without it. *)
Theorem formatarNumeroWhatsApp_nono_digito (telefone ddd resto : string) :
  String.length ddd = 2%nat ->
  String.length resto = 8%nat ->
  apenasDigitos telefone = "55" +:+ ddd +:+ "9" +:+ resto
  \/ (apenasDigitos telefone = ddd +:+ "9" +:+ resto /\ ddd <> "55") ->
  formatarNumeroWhatsApp telefone = Some ("55" +:+ ddd +:+ resto +:+ "@s.whatsapp.net").
Proof.
  intros Hddd Hresto Hdig.
  do 2 (destruct ddd as [|? ddd]; [discriminate Hddd|]).
  destruct ddd; [|discriminate Hddd].
  do 8 (destruct resto as [|? resto]; [discriminate Hresto|]).
  destruct resto; [|discriminate Hresto].
  unfold formatarNumeroWhatsApp.
  assert (Hv : textoVerdadeiro telefone = true).
  { destruct telefone; [|reflexivity]. destruct Hdig as [Hdig|[Hdig _]]; discriminate Hdig. }
  rewrite Hv. cbn [negb].
  destruct Hdig as [->|[-> Hne]].
  - reflexivity.
  - rewrite !append_cons, !append_nil. cbn [String.prefix].
    destruct (ascii_dec "5" a) as [<-|Ha].
    + destruct (ascii_dec "5" a0) as [<-|Ha0]; [now elim Hne | reflexivity].
    + reflexivity.
Qed.

Lemma formatarNumeroWhatsApp_nono_digito_exemplo :
  formatarNumeroWhatsApp "+55 (86) 99999-1234" = Some "558699991234@s.whatsapp.net"
  /\ formatarNumeroWhatsApp "86999991234" = Some "558699991234@s.whatsapp.net".
Proof.
  split.
  - apply (formatarNumeroWhatsApp_nono_digito "+55 (86) 99999-1234" "86" "99991234");
      [reflexivity | reflexivity | left; reflexivity].
  - apply (formatarNumeroWhatsApp_nono_digito "86999991234" "86" "99991234");
      [reflexivity | reflexivity | right; split; [reflexivity | discriminate]].
Defined.

End NumeroFatos.

(** ** Sent-message statistics and the courier cache *)

Module EstatisticasFatos.
Import JS Envio EnvioFatos.

(** What a run adds to the messages that the socket accepted: [novas] is
    appended to the log, the counter [mensagensEnviadas] moves by its
    length, and the connection is as it was. *)
Definition enviadas (w w' : Mundo) (novas : list (string * string)) : Prop :=
  transmitidas w' = transmitidas w ++ novas
  /\ mensagensEnviadas w' = (mensagensEnviadas w + length novas)%nat
  /\ sockAtivo w' = sockAtivo w
  /\ statusConexao w' = statusConexao w.

Definition desconectado (w : Mundo) : Prop :=
  sockAtivo w = false \/ statusConexao w <> Conectado.

Lemma enviadas_refl (w : Mundo) : enviadas w w [].
Proof. unfold enviadas. rewrite List.app_nil_r, Nat.add_0_r. auto. Qed.

Lemma enviadas_trans (w1 w2 w3 : Mundo) (a b : list (string * string)) :
  enviadas w1 w2 a -> enviadas w2 w3 b -> enviadas w1 w3 (a ++ b).
Proof.
  intros (A1 & A2 & A3 & A4) (B1 & B2 & B3 & B4). unfold enviadas.
  rewrite B1, A1, B2, A2, B3, A3, B4, A4, List.length_app, <- List.app_assoc.
  repeat split; lia.
Qed.

Lemma desconectado_enviadas (w w' : Mundo) (novas : list (string * string)) :
  enviadas w w' novas -> desconectado w -> desconectado w'.
Proof. intros (_ & _ & H1 & H2) Hd. unfold desconectado. now rewrite H1, H2. Qed.

Lemma desconectado_falso (w : Mundo) :
  desconectado w -> negb (sockAtivo w) || negb (conectado (statusConexao w)) = true.
Proof.
  intros [H|H]; [now rewrite H|].
  destruct (statusConexao w); try (now rewrite orb_true_r). now elim H.
Qed.

Lemma desligado_desconectado (w : Mundo) : desligado w = true <-> desconectado w.
Proof.
  split; [|apply desconectado_falso].
  unfold desligado, desconectado. intros H.
  destruct (sockAtivo w); [right | now left].
  destruct (statusConexao w); cbn in H; congruence.
Qed.

Ltac resolver_enviadas :=
  unfold enviadas; cbn; rewrite ?List.app_nil_r; repeat split; lia.

(** What one call of [enviarMensagem] does to the socket and the counters. *)
Lemma enviarMensagem_efeito (tel : Valor) (msg : string) (w : Mundo) :
  exists r w' novas,
    enviarMensagem tel msg w = (r, w')
    /\ enviadas w w' novas
    /\ pedidosNotificados w' = pedidosNotificados w
    /\ (r = Retorno true <->
        exists t jid, tel = Cadeia t /\ formatarNumeroWhatsApp t = Some jid
                      /\ novas = [(jid, msg)])
    /\ (r <> Retorno true -> novas = [])
    /\ (desconectado w -> r = Retorno false /\ transporte w' = transporte w)
    /\ (formatavel tel = true -> exists b, r = Retorno b)
    /\ (formatavel tel = false -> ~ desconectado w ->
        r = Excecao "TypeError" /\ transporte w' = transporte w).
Proof.
  unfold enviarMensagem, bind, modificar, ler, elevar. cbn.
  destruct (negb (sockAtivo w) || negb (conectado (statusConexao w))) eqn:Hcon.
  - assert (Hd : desconectado w) by (now apply desligado_desconectado).
    exists (Retorno false), (registrarChamada tel msg w), []. cbn.
    split; [reflexivity|]. split; [resolver_enviadas|]. split; [reflexivity|].
    split; [split; [discriminate | intros (t & j & _ & _ & H); discriminate]|].
    split; [reflexivity|]. split; [auto|]. split; [eauto|].
    intros _ Hnd. now elim Hnd.
  - assert (Hnd : ~ desconectado w).
    { intros Hd. apply desconectado_falso in Hd. congruence. }
    destruct tel as [|t|[|]]; cbn.
    + exists (Retorno false), (registrarChamada Nulo msg w), []. cbn.
      split; [reflexivity|]. split; [resolver_enviadas|]. split; [reflexivity|].
      split; [split; [discriminate | intros (t & j & _ & _ & H); discriminate]|].
      split; [reflexivity|]. split; [tauto|]. split; [eauto | discriminate].
    + destruct (formatarNumeroWhatsApp t) as [jid|] eqn:Hj.
      * unfold tentar, sockSendMessage, bind, modificar, ler, lancar. cbn.
        destruct (transporte w) as [|[|] resto]; cbn.
        -- eexists (Retorno true), _, [(jid, msg)]. split; [reflexivity|].
           split; [resolver_enviadas|]. split; [reflexivity|].
           split; [split; eauto|]. split; [intros H; now elim H|].
           split; [tauto|]. split; [eauto | discriminate].
        -- eexists (Retorno true), _, [(jid, msg)]. split; [reflexivity|].
           split; [resolver_enviadas|]. split; [reflexivity|].
           split; [split; eauto|]. split; [intros H; now elim H|].
           split; [tauto|]. split; [eauto | discriminate].
        -- eexists (Retorno false), _, []. split; [reflexivity|].
           split; [resolver_enviadas|]. split; [reflexivity|].
           split; [split; [discriminate | intros (t' & j & _ & _ & H); discriminate]|].
           split; [reflexivity|]. split; [tauto|]. split; [eauto | discriminate].
      * exists (Retorno false), (registrarChamada (Cadeia t) msg w), []. cbn.
        split; [reflexivity|]. split; [resolver_enviadas|]. split; [reflexivity|].
        split; [split; [discriminate | intros (t' & j & _ & _ & H); discriminate]|].
        split; [reflexivity|]. split; [tauto|]. split; [eauto | discriminate].
    + exists (Excecao "TypeError"), (registrarChamada (Outro true) msg w), []. cbn.
      split; [reflexivity|]. split; [resolver_enviadas|]. split; [reflexivity|].
      split; [split; [discriminate | intros (t & j & _ & _ & H); discriminate]|].
      split; [reflexivity|]. split; [tauto|]. split; [discriminate | auto].
    + exists (Retorno false), (registrarChamada (Outro false) msg w), []. cbn.
      split; [reflexivity|]. split; [resolver_enviadas|]. split; [reflexivity|].
      split; [split; [discriminate | intros (t & j & _ & _ & H); discriminate]|].
      split; [reflexivity|]. split; [tauto|]. split; [eauto | discriminate].
Qed.

(** X7: [enviarMensagem] never throws on a telephone that is a text or is
    absent, nor on a bot that is not connected.  On a connected bot a
    telephone that is a truthy value other than a text makes it throw
    [TypeError] before the socket is touched.  It answers [true] exactly
    when the socket accepted the message, and then it has counted exactly
    one more sent message, addressed to the formatted telephone; at every
    other exit nothing was transmitted or counted.  With no socket, or a
    status other than connected, it answers [false] without touching the
    socket. *)
Theorem enviarMensagem_contagem (tel : Valor) (msg : string) (w : Mundo) :
  let r := fst (enviarMensagem tel msg w) in
  let w' := snd (enviarMensagem tel msg w) in
  (formatavel tel = true \/ desconectado w -> exists b, r = Retorno b)
  /\ (formatavel tel = false -> ~ desconectado w ->
      r = Excecao "TypeError" /\ transporte w' = transporte w)
  /\ (r = Retorno true ->
      exists t jid, tel = Cadeia t
                    /\ formatarNumeroWhatsApp t = Some jid
                    /\ transmitidas w' = transmitidas w ++ [(jid, msg)]
                    /\ mensagensEnviadas w' = S (mensagensEnviadas w))
  /\ (r <> Retorno true ->
      transmitidas w' = transmitidas w
      /\ mensagensEnviadas w' = mensagensEnviadas w)
  /\ (desconectado w -> r = Retorno false /\ transporte w' = transporte w).
Proof.
  destruct (enviarMensagem_efeito tel msg w)
    as (r & w' & novas & Hrun & (Ht & Hm & _) & _ & Htrue & Hfalse & Hdesc & Hfmt & Hexc).
  rewrite Hrun. cbn [fst snd]. cbn zeta.
  split; [|split; [exact Hexc|split; [|split; [|exact Hdesc]]]].
  - intros [Hf|Hd]; [now apply Hfmt|]. destruct (Hdesc Hd) as [-> _]. eauto.
  - intros Hb. apply Htrue in Hb as (t & jid & Htel & Hj & ->). exists t, jid.
    split; [exact Htel|]. split; [exact Hj|]. split; [exact Ht|]. rewrite Hm. cbn. lia.
  - intros Hb. apply Hfalse in Hb as ->. rewrite Ht, Hm, List.app_nil_r.
    split; [reflexivity | cbn; lia].
Qed.

Lemma obterEntregadores_estatisticas (w : Mundo) :
  exists es w',
    obterEntregadores w = (Retorno es, w')
    /\ enviadas w w' [] /\ pedidosNotificados w' = pedidosNotificados w.
Proof.
  unfold obterEntregadores, atualizarCacheEntregadores, buscarEntregadoresAtivos,
    tentar, bind, modificar, ler, ret. cbn.
  destruct (ultimaAtualizacaoCache w) as [ultima|].
  - destruct ((ultima =? 0) || (INTERVALO_CACHE_MS <? relogio w - ultima)).
    + destruct (funcionarios w); cbn; eexists _, _;
        (split; [reflexivity|]); (split; [|reflexivity]);
        unfold enviadas; cbn; rewrite List.app_nil_r; repeat split; lia.
    + cbn. eexists _, _. split; [reflexivity|]. split; [apply enviadas_refl | reflexivity].
  - destruct (funcionarios w); cbn; eexists _, _;
      (split; [reflexivity|]); (split; [|reflexivity]);
      unfold enviadas; cbn; rewrite List.app_nil_r; repeat split; lia.
Qed.

Lemma notificarEntregador_estatisticas (msg : string) (e : Entregador) (w : Mundo) :
  exists r w' novas,
    notificarEntregador msg e w = (r, w')
    /\ enviadas w w' novas /\ pedidosNotificados w' = pedidosNotificados w
    /\ (desconectado w -> novas = [] /\ r = Retorno tt).
Proof.
  unfold notificarEntregador.
  destruct (valorVerdadeiro (telefoneEntregador e)).
  - destruct (enviarMensagem_efeito (telefoneEntregador e) msg w)
      as (r & w1 & novas & Hrun & Henv & Hped & _ & Hfalse & Hdesc & _).
    unfold bind at 1. rewrite Hrun. destruct r as [b|erro].
    + unfold esperar, bind, modificar.
      eexists _, _, novas. split; [reflexivity|].
      split; [destruct Henv as (? & ? & ? & ?); repeat split; assumption|].
      split; [exact Hped|].
      intros Hd. destruct (Hdesc Hd) as [Hr _]. split; [|reflexivity].
      apply Hfalse. rewrite Hr. discriminate.
    + exists (Excecao erro), w1, novas. split; [reflexivity|].
      split; [exact Henv|]. split; [exact Hped|].
      intros Hd. destruct (Hdesc Hd) as [Hr _]. discriminate.
  - exists (Retorno tt), w, []. unfold ret. split; [reflexivity|].
    split; [apply enviadas_refl|]. auto.
Qed.

Lemma paraCada_estatisticas (msg : string) (es : list Entregador) (w : Mundo) :
  exists r w' novas,
    paraCada (notificarEntregador msg) es w = (r, w')
    /\ enviadas w w' novas /\ pedidosNotificados w' = pedidosNotificados w
    /\ (desconectado w -> novas = [] /\ r = Retorno tt).
Proof.
  revert w. induction es as [|e es IH]; intros w.
  - exists (Retorno tt), w, []. split; [reflexivity|]. split; [apply enviadas_refl|]. auto.
  - destruct (notificarEntregador_estatisticas msg e w)
      as (r1 & w1 & n1 & Hrun1 & He1 & Hp1 & Hd1).
    cbn [paraCada]. unfold bind at 1. rewrite Hrun1.
    destruct r1 as [[]|erro].
    + destruct (IH w1) as (r2 & w2 & n2 & Hrun2 & He2 & Hp2 & Hd2).
      exists r2, w2, (n1 ++ n2).
      split; [exact Hrun2|]. split; [eapply enviadas_trans; eassumption|].
      split; [congruence|].
      intros Hd. destruct (Hd1 Hd) as [-> _].
      destruct Hd2 as [-> ->]; [eapply desconectado_enviadas; eassumption|]. auto.
    + exists (Excecao erro), w1, n1. split; [reflexivity|].
      split; [exact He1|]. split; [exact Hp1|].
      intros Hd. destruct (Hd1 Hd) as [_ Hr]. discriminate.
Qed.

Section Configuracao.

Variable NUMERO_LOJA : string.
Variable gerarMensagemCliente : Pedido -> Resultado string.
Variable gerarMensagemPedidoRecebido : Pedido -> Resultado string.
Variable gerarMensagemEntregador : Pedido -> Resultado string.

(** The three generators return on the order. *)
Definition geradoresRetornam (pedido : Pedido) : Prop :=
  (exists mc, gerarMensagemCliente pedido = Retorno mc)
  /\ (exists ml, gerarMensagemPedidoRecebido pedido = Retorno ml)
  /\ (exists me, gerarMensagemEntregador pedido = Retorno me).

(** What the fan-out of a new order transmits and counts, at every exit. *)
Lemma processarNovoPedido_efeito (pedido : Pedido) (w : Mundo) :
  exists r w' novas,
    processarNovoPedido NUMERO_LOJA gerarMensagemCliente gerarMensagemPedidoRecebido
      gerarMensagemEntregador pedido w = (r, w')
    /\ enviadas w w' novas
    /\ (pedidosNotificados w' = pedidosNotificados w
        \/ (pedidosNotificados w' = S (pedidosNotificados w)
            /\ exists jid ml, formatarNumeroWhatsApp NUMERO_LOJA = Some jid
                              /\ gerarMensagemPedidoRecebido pedido = Retorno ml
                              /\ In (jid, ml) novas))
    /\ (textoVerdadeiro NUMERO_LOJA = false ->
        pedidosNotificados w' = pedidosNotificados w)
    /\ (desconectado w ->
        novas = [] /\ pedidosNotificados w' = pedidosNotificados w)
    /\ (desconectado w -> geradoresRetornam pedido -> r = Retorno tt).
Proof.
  unfold processarNovoPedido.
  set (telefoneCliente := ouValor (customer_phone pedido) (telefone pedido)).
  (* the customer *)
  assert (Hc : exists r1 w1 n1,
    (if valorVerdadeiro telefoneCliente then
       mensagemCliente <- elevar (gerarMensagemCliente pedido) ;;
       _ <- enviarMensagem telefoneCliente mensagemCliente ;; ret tt
     else ret tt) w = (r1, w1)
    /\ enviadas w w1 n1 /\ pedidosNotificados w1 = pedidosNotificados w
    /\ (desconectado w -> n1 = [])
    /\ (desconectado w -> geradoresRetornam pedido -> r1 = Retorno tt)).
  { destruct (valorVerdadeiro telefoneCliente).
    - unfold bind at 1, elevar.
      destruct (gerarMensagemCliente pedido) as [mc|erro] eqn:Hmc.
      + destruct (enviarMensagem_efeito telefoneCliente mc w)
          as (r & w1 & n1 & Hrun & Henv & Hped & _ & Hfalse & Hdesc & _).
        unfold bind. rewrite Hrun.
        assert (Hn : desconectado w -> n1 = []).
        { intros Hd. destruct (Hdesc Hd) as [Hr _]. apply Hfalse. rewrite Hr. discriminate. }
        destruct r as [b|erro].
        * exists (Retorno tt), w1, n1. unfold ret. auto 10.
        * exists (Excecao erro), w1, n1. split; [reflexivity|].
          split; [exact Henv|]. split; [exact Hped|]. split; [exact Hn|].
          intros Hd _. destruct (Hdesc Hd) as [Hr _]. discriminate.
      + exists (Excecao erro), w, []. split; [reflexivity|].
        split; [apply enviadas_refl|]. split; [reflexivity|]. split; [auto|].
        intros _ ((mc & Hmc') & _). congruence.
    - exists (Retorno tt), w, []. split; [reflexivity|].
      split; [apply enviadas_refl|]. auto. }
  destruct Hc as (r1 & w1 & n1 & Hrun1 & He1 & Hp1 & Hd1 & Hr1).
  (* the shop *)
  assert (Hl : exists r2 w2 n2,
    (if textoVerdadeiro NUMERO_LOJA then
       mensagemLoja <- elevar (gerarMensagemPedidoRecebido pedido) ;;
       enviadoLoja <- enviarMensagem (Cadeia NUMERO_LOJA) mensagemLoja ;;
       if enviadoLoja : bool then modificar contarPedidoNotificado else ret tt
     else ret tt) w1 = (r2, w2)
    /\ enviadas w1 w2 n2
    /\ (pedidosNotificados w2 = pedidosNotificados w1
        \/ (pedidosNotificados w2 = S (pedidosNotificados w1)
            /\ exists jid ml, formatarNumeroWhatsApp NUMERO_LOJA = Some jid
                              /\ gerarMensagemPedidoRecebido pedido = Retorno ml
                              /\ n2 = [(jid, ml)]))
    /\ (textoVerdadeiro NUMERO_LOJA = false ->
        pedidosNotificados w2 = pedidosNotificados w1)
    /\ (desconectado w1 -> n2 = [] /\ pedidosNotificados w2 = pedidosNotificados w1)
    /\ (geradoresRetornam pedido -> r2 = Retorno tt)).
  { destruct (textoVerdadeiro NUMERO_LOJA).
    - unfold bind at 1, elevar.
      destruct (gerarMensagemPedidoRecebido pedido) as [ml|erro] eqn:Hml.
      + destruct (enviarMensagem_efeito (Cadeia NUMERO_LOJA) ml w1)
          as (r & w2 & n2 & Hrun & Henv & Hped & Htrue & Hfalse & Hdesc & Hfmt & _).
        destruct (Hfmt eq_refl) as (b & ->).
        unfold bind. rewrite Hrun. destruct b.
        * unfold modificar. eexists (Retorno tt), _, n2. split; [reflexivity|].
          split; [destruct Henv as (? & ? & ? & ?); repeat split; assumption|].
          split.
          { right. split; [cbn; now rewrite Hped|].
            destruct (proj1 Htrue eq_refl) as (t & jid & [= <-] & Hj & Hn). eauto. }
          split; [discriminate|].
          split; [|reflexivity].
          intros Hd. destruct (Hdesc Hd) as [Hb _]. discriminate.
        * exists (Retorno tt), w2, n2. unfold ret. split; [reflexivity|].
          split; [exact Henv|]. split; [now left|]. split; [auto|].
          split; [|reflexivity].
          intros _. split; [apply Hfalse; discriminate | exact Hped].
      + exists (Excecao erro), w1, []. split; [reflexivity|].
        split; [apply enviadas_refl|]. split; [now left|]. split; [auto|].
        split; [auto|].
        intros (_ & (ml & Hml') & _). congruence.
    - exists (Retorno tt), w1, []. unfold ret. split; [reflexivity|].
      split; [apply enviadas_refl|]. split; [now left|]. auto. }
  destruct Hl as (r2 & w2 & n2 & Hrun2 & He2 & Hp2 & Hsem & Hd2 & Hr2).
  (* the couriers *)
  assert (He : exists r3 w3 n3,
    (if ehDelivery pedido then
       entregadores <- obterEntregadores ;;
       if (length entregadores =? 0)%nat then ret tt
       else
         mensagemEntregador <- elevar (gerarMensagemEntregador pedido) ;;
         paraCada (notificarEntregador mensagemEntregador) entregadores
     else ret tt) w2 = (r3, w3)
    /\ enviadas w2 w3 n3 /\ pedidosNotificados w3 = pedidosNotificados w2
    /\ (desconectado w2 -> n3 = [])
    /\ (desconectado w2 -> geradoresRetornam pedido -> r3 = Retorno tt)).
  { destruct (ehDelivery pedido).
    - destruct (obterEntregadores_estatisticas w2) as (es & w2' & Hrun & Henv & Hped).
      unfold bind at 1. rewrite Hrun.
      destruct (length es =? 0)%nat.
      + exists (Retorno tt), w2', []. unfold ret. split; [reflexivity|].
        split; [exact Henv|]. auto.
      + unfold bind, elevar.
        destruct (gerarMensagemEntregador pedido) as [me|erro] eqn:Hme.
        * destruct (paraCada_estatisticas me es w2')
            as (r3 & w3 & n3 & Hrun3 & Henv3 & Hped3 & Hd3).
          exists r3, w3, n3. split; [exact Hrun3|].
          split; [exact (enviadas_trans _ _ _ _ _ Henv Henv3)|].
          split; [congruence|].
          split; intros Hd; [|intros _]; apply Hd3;
            eapply desconectado_enviadas; eassumption.
        * exists (Excecao erro), w2', []. split; [reflexivity|].
          split; [exact Henv|]. split; [exact Hped|]. split; [auto|].
          intros _ (_ & _ & (me & Hme')). congruence.
    - exists (Retorno tt), w2, []. unfold ret. split; [reflexivity|].
      split; [apply enviadas_refl|]. auto. }
  destruct He as (r3 & w3 & n3 & Hrun3 & He3 & Hp3 & Hd3 & Hr3).
  unfold bind at 1. rewrite Hrun1.
  destruct r1 as [[]|erro1].
  2:{ exists (Excecao erro1), w1, n1. split; [reflexivity|]. split; [exact He1|].
      split; [now left|]. split; [auto|]. split; [auto|].
      intros Hd Hg. specialize (Hr1 Hd Hg). discriminate. }
  unfold bind at 1. rewrite Hrun2.
  destruct r2 as [[]|erro2].
  2:{ exists (Excecao erro2), w2, (n1 ++ n2). split; [reflexivity|].
      split; [eapply enviadas_trans; eassumption|].
      split.
      { destruct Hp2 as [Hp2|(Hp2 & jid & ml & Hj & Hml & ->)]; [left; congruence|].
        right. split; [congruence|]. exists jid, ml. split; [exact Hj|].
        split; [exact Hml|]. apply in_or_app. right. now left. }
      split; [intros Hv; rewrite (Hsem Hv); exact Hp1|].
      split.
      - intros Hd.
        assert (Hdw1 : desconectado w1) by (eapply desconectado_enviadas; eassumption).
        destruct (Hd2 Hdw1) as [-> Hq]. rewrite (Hd1 Hd). split; [reflexivity | congruence].
      - intros _ Hg. specialize (Hr2 Hg). discriminate. }
  exists r3, w3, (n1 ++ n2 ++ n3). split; [exact Hrun3|].
  split.
  { eapply enviadas_trans; [exact He1|]. eapply enviadas_trans; eassumption. }
  split.
  { destruct Hp2 as [Hp2|(Hp2 & jid & ml & Hj & Hml & ->)]; [left; congruence|].
    right. split; [congruence|]. exists jid, ml. split; [exact Hj|].
    split; [exact Hml|]. apply in_or_app. right. now left. }
  split.
  { intros Hv. rewrite Hp3, (Hsem Hv). exact Hp1. }
  assert (Hdesc : desconectado w -> desconectado w1 /\ desconectado w2).
  { intros Hd.
    assert (Hdw1 : desconectado w1) by (eapply desconectado_enviadas; eassumption).
    split; [exact Hdw1|]. eapply desconectado_enviadas; eassumption. }
  split.
  - intros Hd. destruct (Hdesc Hd) as [Hdw1 Hdw2].
    destruct (Hd2 Hdw1) as [Hn2 Hq].
    rewrite (Hd1 Hd), Hn2, (Hd3 Hdw2). split; [reflexivity | congruence].
  - intros Hd Hg. destruct (Hdesc Hd) as [_ Hdw2]. now apply Hr3.
Qed.

(** X8: the statistics of a new order.  Over the fan-out of
    [processarNovoPedido], at every exit, the counter of sent messages
    grows by exactly the number of messages that the socket accepted; the
    counter of notified orders grows by at most one, and only when the
    message to the shop was accepted, so it stays as it was when no shop
    number is configured; and on a bot that is not connected nothing is
    transmitted or counted. *)
Theorem estatisticas_novo_pedido (pedido : Pedido) (w : Mundo) :
  let w' := snd (processarNovoPedido NUMERO_LOJA gerarMensagemCliente
                   gerarMensagemPedidoRecebido gerarMensagemEntregador pedido w) in
  (mensagensEnviadas w' + length (transmitidas w)
   = mensagensEnviadas w + length (transmitidas w'))%nat
  /\ (mensagensEnviadas w <= mensagensEnviadas w')%nat
  /\ (pedidosNotificados w' = pedidosNotificados w
      \/ (pedidosNotificados w' = S (pedidosNotificados w)
          /\ exists jid mensagemLoja,
               formatarNumeroWhatsApp NUMERO_LOJA = Some jid
               /\ gerarMensagemPedidoRecebido pedido = Retorno mensagemLoja
               /\ In (jid, mensagemLoja) (transmitidas w')))
  /\ (textoVerdadeiro NUMERO_LOJA = false ->
      pedidosNotificados w' = pedidosNotificados w)
  /\ (desconectado w ->
      transmitidas w' = transmitidas w
      /\ mensagensEnviadas w' = mensagensEnviadas w
      /\ pedidosNotificados w' = pedidosNotificados w).
Proof.
  destruct (processarNovoPedido_efeito pedido w)
    as (r & w1 & novas & Hrun & (Ht & Hm & _) & Hped & Hsem & Hdesc & _).
  rewrite Hrun. cbn [snd]. cbn zeta.
  split; [rewrite Ht, Hm, List.length_app; lia|].
  split; [lia|].
  split.
  { destruct Hped as [Hped|(Hped & jid & ml & Hj & Hml & Hin)]; [now left|].
    right. split; [exact Hped|]. exists jid, ml. split; [exact Hj|].
    split; [exact Hml|]. rewrite Ht. apply List.in_or_app. now right. }
  split; [exact Hsem|].
  intros Hd. destruct (Hdesc Hd) as [-> Hp].
  rewrite Ht, Hm, List.app_nil_r. cbn. split; [reflexivity|]. split; [lia | exact Hp].
Qed.

End Configuracao.

(** *** The courier cache *)

(** [!ultimaAtualizacaoCache || (agora - ultimaAtualizacaoCache) > INTERVALO_CACHE_MS] *)
Definition cacheDesatualizado (w : Mundo) : bool :=
  match ultimaAtualizacaoCache w with
  | Some ultima => (ultima =? 0) || (INTERVALO_CACHE_MS <? relogio w - ultima)
  | None => true
  end.

(** A later moment of a world: the clock reads [agora] and the
    [funcionarios] query answers [resposta]. *)
Definition maisTarde (agora : Z) (resposta : RespostaSupabase (list Entregador))
  (w : Mundo) : Mundo :=
  {| sockAtivo := sockAtivo w; statusConexao := statusConexao w;
     mensagensEnviadas := mensagensEnviadas w; pedidosNotificados := pedidosNotificados w;
     cacheEntregadores := cacheEntregadores w;
     ultimaAtualizacaoCache := ultimaAtualizacaoCache w;
     relogio := agora; funcionarios := resposta; transporte := transporte w;
     chamadas := chamadas w; transmitidas := transmitidas w; esperas := esperas w |}.

(** X9: a failed courier query empties the cache.  When the cache is due
    for a refresh and the [funcionarios] query fails, [obterEntregadores]
    answers no courier and stamps the empty cache as fresh; every call in
    the following five minutes answers no courier either, whatever the
    table holds by then. *)
Theorem cache_vazio_apos_falha (w : Mundo) (erro : string) (passou : Z)
  (depois : RespostaSupabase (list Entregador)) :
  funcionarios w = Falha erro ->
  cacheDesatualizado w = true ->
  relogio w <> 0 ->
  passou <= INTERVALO_CACHE_MS ->
  let w1 := snd (obterEntregadores w) in
  fst (obterEntregadores w) = Retorno []
  /\ cacheEntregadores w1 = []
  /\ ultimaAtualizacaoCache w1 = Some (relogio w)
  /\ fst (obterEntregadores (maisTarde (relogio w + passou) depois w1)) = Retorno [].
Proof.
  intros Hf Hd Hr Hp w1.
  assert (Hrun : exists w0, obterEntregadores w = (Retorno [], w0)
                            /\ cacheEntregadores w0 = []
                            /\ ultimaAtualizacaoCache w0 = Some (relogio w)).
  { unfold cacheDesatualizado in Hd.
    unfold obterEntregadores, atualizarCacheEntregadores, buscarEntregadoresAtivos,
      tentar, bind, modificar, ler, ret. cbn.
    destruct (ultimaAtualizacaoCache w) as [ultima|].
    - rewrite Hd, Hf. cbn. eauto.
    - rewrite Hf. cbn. eauto. }
  destruct Hrun as (w0 & Hrun & Hc0 & Hu0).
  subst w1. rewrite Hrun. cbn [fst snd].
  split; [reflexivity|]. split; [exact Hc0|]. split; [exact Hu0|].
  unfold obterEntregadores, bind, ler, ret. cbn. rewrite Hu0.
  replace (relogio w =? 0) with false by (symmetry; now apply Z.eqb_neq).
  replace (INTERVALO_CACHE_MS <? relogio w + passou - relogio w) with false
    by (symmetry; apply Z.ltb_ge; lia).
  cbn. now rewrite Hc0.
Qed.

Definition mundoSemEntregadores : Mundo :=
  {| sockAtivo := true; statusConexao := Conectado;
     mensagensEnviadas := 0; pedidosNotificados := 0;
     cacheEntregadores :=
       [ {| nome := "A"; telefoneEntregador := Cadeia "86911110001" |} ];
     ultimaAtualizacaoCache := Some 1700000000000;
     relogio := 1700000400000; funcionarios := Falha "timeout"; transporte := [];
     chamadas := []; transmitidas := []; esperas := 0 |}.

Lemma cache_vazio_apos_falha_exemplo :
  fst (obterEntregadores mundoSemEntregadores) = Retorno []
  /\ fst (obterEntregadores
            (maisTarde (1700000400000 + 60000)
               (Dados [ {| nome := "A"; telefoneEntregador := Cadeia "86911110001" |} ])
               (snd (obterEntregadores mundoSemEntregadores)))) = Retorno [].
Proof.
  destruct (cache_vazio_apos_falha mundoSemEntregadores "timeout" 60000
              (Dados [ {| nome := "A"; telefoneEntregador := Cadeia "86911110001" |} ])
              eq_refl eq_refl) as (H1 & _ & _ & H2).
  - discriminate.
  - unfold INTERVALO_CACHE_MS. lia.
  - split; [exact H1 | exact H2].
Defined.

End EstatisticasFatos.

(** ** Starting the poller, and the poller over many ticks *)

Module ArranqueFatos.
Import JS JSFatos Envio Poller PollerFatos Arranque.

Lemma atualizarCacheEntregadores_retorna (w : Mundo) :
  exists w', atualizarCacheEntregadores w = (Retorno tt, w') /\ relogio w' = relogio w.
Proof.
  unfold atualizarCacheEntregadores, buscarEntregadoresAtivos, tentar, bind, modificar,
    ler, ret. cbn.
  destruct (funcionarios w); cbn; eexists; split; reflexivity.
Qed.

(** The row selected by the query for the latest order is at least as
    recent as every row of the table. *)
Lemma ultimoPedidoDe_maximo (linhas : list Pedido) :
  match ultimoPedidoDe linhas with
  | Some u => In u linhas /\ forall p, In p linhas -> created_at p <= created_at u
  | None => linhas = []
  end.
Proof.
  unfold ultimoPedidoDe.
  pose proof (ordenarPor_crescente (fun p : Pedido => - created_at p) linhas) as Hc.
  pose proof (ordenarPor_In (fun p : Pedido => - created_at p)) as Hin.
  pose proof (ordenarPor_length (fun p : Pedido => - created_at p) linhas) as Hlen.
  destruct (ordenarPor (fun p : Pedido => - created_at p) linhas) as [|u resto] eqn:Hord;
    cbn.
  - destruct linhas; [reflexivity | discriminate].
  - split; [apply Hin; rewrite Hord; now left|].
    intros p Hp. apply Hin in Hp. rewrite Hord in Hp. destruct Hp as [->|Hp]; [lia|].
    destruct Hc as [Hc _]. rewrite List.Forall_forall in Hc.
    specialize (Hc p Hp). cbn in Hc. lia.
Qed.

Lemma consultarNovosPedidos_In (tabela : list Pedido) (cursor : Z) (p : Pedido) :
  In p (consultarNovosPedidos tabela cursor) -> In p tabela /\ cursor < created_at p.
Proof.
  unfold consultarNovosPedidos. intros H. apply firstn_In in H.
  apply ordenarPor_In in H. apply List.filter_In in H as [H1 H2].
  split; [exact H1 | now apply Z.ltb_lt].
Qed.

Lemma verificarStatusLoja_fixos (r : RespostaSupabase (option string)) (s : Estado) :
  ultimoPedidoProcessado (verificarStatusLoja r s) = ultimoPedidoProcessado s
  /\ despachos (verificarStatusLoja r s) = despachos s
  /\ pedidosProcessados (verificarStatusLoja r s) = pedidosProcessados s.
Proof.
  unfold verificarStatusLoja. destruct r as [v|e]; [|auto].
  destruct (negb _); auto.
Qed.

Lemma consultarNovosPedidos_nao_vazio (tabela : list Pedido) (cursor : Z) (p : Pedido) :
  In p tabela -> cursor < created_at p -> consultarNovosPedidos tabela cursor <> [].
Proof.
  intros Hin Hlt. unfold consultarNovosPedidos.
  assert (Hp : In p (ordenarPor created_at
                       (List.filter (fun q => cursor <? created_at q) tabela))).
  { apply ordenarPor_In. apply List.filter_In. split; [exact Hin | now apply Z.ltb_lt]. }
  destruct (ordenarPor created_at (List.filter (fun q => cursor <? created_at q) tabela));
    [destruct Hp | discriminate].
Qed.

Section Configuracao.

Variable NUMERO_LOJA : string.
Variable gerarMensagemCliente : Pedido -> Resultado string.
Variable gerarMensagemPedidoRecebido : Pedido -> Resultado string.
Variable gerarMensagemEntregador : Pedido -> Resultado string.

Local Abbreviation verificarNovosPedidos :=
  (Poller.verificarNovosPedidos NUMERO_LOJA gerarMensagemCliente
     gerarMensagemPedidoRecebido gerarMensagemEntregador).
Local Abbreviation processarLote :=
  (Poller.processarLote NUMERO_LOJA gerarMensagemCliente
     gerarMensagemPedidoRecebido gerarMensagemEntregador).
Local Abbreviation tickConcluido :=
  (Poller.tickConcluido NUMERO_LOJA gerarMensagemCliente
     gerarMensagemPedidoRecebido gerarMensagemEntregador).
Local Abbreviation executarTicks :=
  (Poller.executarTicks NUMERO_LOJA gerarMensagemCliente
     gerarMensagemPedidoRecebido gerarMensagemEntregador).
Local Abbreviation geradoresRetornam :=
  (EstatisticasFatos.geradoresRetornam gerarMensagemCliente
     gerarMensagemPedidoRecebido gerarMensagemEntregador).

(** X10: orders that exist when the poller is configured are never
    notified, provided the query for the latest order is answered with the
    rows of the table.  Then [configurarPollingPedidos] returns normally,
    dispatches nothing, and leaves the cursor at or after the [created_at]
    of every row of the table; the first tick observes none of those rows,
    whatever the table holds by then, and with the same table it dispatches
    nothing.  When the query answers an error instead, the function still
    returns normally but sets the cursor to the clock of the bot: a row of
    the table dated after that clock is not protected, and the first tick
    with the shop open observes existing rows. *)
Theorem pedidos_existentes_ignorados (linhas depois : list Pedido)
  (statusLoja : RespostaSupabase (option string)) (sis : Sistema) :
  let r := configurarPollingPedidos (Tabela linhas) statusLoja sis in
  let s := poller (snd r) in
  fst r = Retorno tt
  /\ despachos s = despachos (poller sis)
  /\ (forall p, In p linhas -> created_at p <= ultimoPedidoProcessado s)
  /\ (forall p, In p linhas -> ~ In p (loteObservado (Dados depois) s))
  /\ despachos (verificarNovosPedidos (Dados linhas) s) = despachos (poller sis)
  /\ (forall erro,
        let r' := configurarPollingPedidos (ErroConsulta erro) statusLoja sis in
        let s' := poller (snd r') in
        fst r' = Retorno tt
        /\ ultimoPedidoProcessado s' = relogio (mundo (poller sis))
        /\ (forall p, In p linhas ->
              relogio (mundo (poller sis)) < created_at p ->
              lojaFechadaPeloAdmin s' = false ->
              loteObservado (Dados linhas) s' <> []
              /\ forall q, In q (loteObservado (Dados linhas) s') -> In q linhas)).
Proof.
  intros r s.
  destruct (atualizarCacheEntregadores_retorna (mundo (poller sis))) as (w1 & Hw1 & Hrel).
  assert (Hr : r = (Retorno tt,
                    {| poller := verificarStatusLoja statusLoja
                         (match ultimoPedidoDe linhas with
                          | Some p => comCursor (created_at p) (comMundo w1 (poller sis))
                          | None => comCursor (relogio w1) (comMundo w1 (poller sis))
                          end);
                       temporizadores := temporizadores (snd r) |})).
  { subst r. unfold configurarPollingPedidos. rewrite Hw1. reflexivity. }
  assert (Hs : s = verificarStatusLoja statusLoja
                     (match ultimoPedidoDe linhas with
                      | Some p => comCursor (created_at p) (comMundo w1 (poller sis))
                      | None => comCursor (relogio w1) (comMundo w1 (poller sis))
                      end)).
  { subst s. rewrite Hr. reflexivity. }
  destruct (verificarStatusLoja_fixos statusLoja
              (match ultimoPedidoDe linhas with
               | Some p => comCursor (created_at p) (comMundo w1 (poller sis))
               | None => comCursor (relogio w1) (comMundo w1 (poller sis))
               end)) as (Hc & Hd & Hp).
  rewrite <- Hs in Hc, Hd, Hp.
  assert (Hdesp : despachos s = despachos (poller sis)).
  { rewrite Hd. destruct (ultimoPedidoDe linhas); reflexivity. }
  assert (Hcur : forall p, In p linhas -> created_at p <= ultimoPedidoProcessado s).
  { intros p Hin. rewrite Hc.
    pose proof (ultimoPedidoDe_maximo linhas) as Hmax.
    destruct (ultimoPedidoDe linhas) as [u|].
    - cbn. now apply Hmax.
    - subst linhas. destruct Hin. }
  assert (Hfora : forall tabela p, In p linhas -> ~ In p (loteObservado (Dados tabela) s)).
  { intros tabela p Hin Hobs. unfold loteObservado in Hobs.
    destruct (lojaFechadaPeloAdmin s); [destruct Hobs|].
    apply consultarNovosPedidos_In in Hobs as [_ Hlt].
    specialize (Hcur p Hin). lia. }
  split; [now rewrite Hr|]. split; [exact Hdesp|]. split; [exact Hcur|].
  split; [apply Hfora|]. split.
  - rewrite <- Hdesp.
    assert (Hvazio : loteObservado (Dados linhas) s = []).
    { destruct (loteObservado (Dados linhas) s) as [|p lote] eqn:Hl; [reflexivity|].
      exfalso. apply (Hfora linhas p).
      - assert (Hin : In p (loteObservado (Dados linhas) s)) by (rewrite Hl; now left).
        unfold loteObservado in Hin. destruct (lojaFechadaPeloAdmin s); [destruct Hin|].
        now apply consultarNovosPedidos_In in Hin as [Hin _].
      - rewrite Hl. now left. }
    unfold Poller.verificarNovosPedidos, loteObservado in *.
    destruct (lojaFechadaPeloAdmin s); [reflexivity|].
    cbn [ultimoPedidoProcessado registrarConsulta]. rewrite Hvazio. reflexivity.
  - intros erro r' s'.
    assert (Hs' : s' = verificarStatusLoja statusLoja
                         (comCursor (relogio w1) (comMundo w1 (poller sis)))).
    { subst s' r'. unfold configurarPollingPedidos. rewrite Hw1. reflexivity. }
    destruct (verificarStatusLoja_fixos statusLoja
                (comCursor (relogio w1) (comMundo w1 (poller sis)))) as (Hc' & _ & _).
    rewrite <- Hs' in Hc'. cbn in Hc'. rewrite Hrel in Hc'.
    split; [subst r'; unfold configurarPollingPedidos; rewrite Hw1; reflexivity|].
    split; [exact Hc'|].
    intros p Hin Hlt Haberta. unfold loteObservado. rewrite Haberta, Hc'. split.
    + now apply (consultarNovosPedidos_nao_vazio linhas _ p).
    + intros q Hq. now apply consultarNovosPedidos_In in Hq as [Hq _].
Qed.

(** *** The processed set stays small *)

Lemma limitarCache_length (P : list string) :
  (length (limitarCache P) <= Nat.max (length P) MAX_PEDIDOS_CACHE)%nat
  /\ ((length P <= S MAX_PEDIDOS_CACHE)%nat ->
      (length (limitarCache P) <= MAX_PEDIDOS_CACHE)%nat).
Proof.
  unfold limitarCache.
  destruct (Nat.ltb_spec MAX_PEDIDOS_CACHE (length P)) as [Hgt|Hle]; [|lia].
  rewrite remocoes_set.
  set (k := (length P - MAX_PEDIDOS_CACHE)%nat).
  set (f := fun y => forallb (fun i => negb (String.eqb i y)) (firstn k P)).
  assert (Hcab : List.filter f (firstn k P) = []).
  { apply filter_nenhum. intros y Hy. unfold f.
    apply not_true_is_false. intros Hall.
    rewrite List.forallb_forall in Hall. specialize (Hall y Hy).
    now rewrite String.eqb_refl in Hall. }
  assert (Hlen : (length (List.filter f P) <= MAX_PEDIDOS_CACHE)%nat).
  { rewrite <- (List.firstn_skipn k P) at 1.
    rewrite List.filter_app, Hcab. cbn [app].
    pose proof (filter_length_le f (skipn k P)) as Hf.
    rewrite List.length_skipn in Hf. unfold k in *. lia. }
  lia.
Qed.

Lemma setAdd_NoDup (x : string) (P : list string) :
  List.NoDup P -> List.NoDup (setAdd x P).
Proof.
  intros Hnd. unfold setAdd. destruct (setHas x P) eqn:Hhas; [exact Hnd|].
  apply setHas_false in Hhas.
  induction P as [|y P IH]; cbn.
  - constructor; [intros [] | constructor].
  - apply List.NoDup_cons_iff in Hnd as [Hy Hnd]. constructor.
    + intros Hin. apply List.in_app_iff in Hin as [Hin|[<-|[]]]; [auto|].
      apply Hhas. now left.
    + apply IH; [exact Hnd|]. intros Hin. apply Hhas. now right.
Qed.

Lemma setAdd_length (x : string) (P : list string) :
  (length (setAdd x P) <= S (length P))%nat.
Proof.
  unfold setAdd. destruct (setHas x P); [lia|]. rewrite List.length_app. cbn. lia.
Qed.

Lemma limitarCache_NoDup (P : list string) :
  List.NoDup P -> List.NoDup (limitarCache P).
Proof.
  intros Hnd. unfold limitarCache. destruct (_ <? _)%nat; [|exact Hnd].
  rewrite remocoes_set. now apply List.NoDup_filter.
Qed.

(** The ids are a set of at most [MAX_PEDIDOS_CACHE] elements. *)
Definition cachePequeno (s : Estado) : Prop :=
  List.NoDup (pedidosProcessados s)
  /\ (length (pedidosProcessados s) <= MAX_PEDIDOS_CACHE)%nat.

Lemma processarLote_cachePequeno (lote : list Pedido) (s : Estado) :
  cachePequeno s -> cachePequeno (snd (processarLote lote s)).
Proof.
  revert s. induction lote as [|p lote IH]; intros s Hs; [exact Hs|].
  destruct (setHas (id p) (pedidosProcessados s)) eqn:Hhas.
  - rewrite (processarLote_repetido _ _ _ _ p lote s Hhas). apply IH. exact Hs.
  - destruct (processarLote_novo NUMERO_LOJA gerarMensagemCliente
                gerarMensagemPedidoRecebido gerarMensagemEntregador p lote s Hhas)
      as (r & s0 & _ & Hp0 & _ & _ & _ & _ & Hr).
    destruct r as [u|e].
    + destruct Hr as (s1 & -> & _ & Hp & _).
      apply IH. destruct Hs as [Hnd Hlen]. unfold cachePequeno. rewrite Hp. split.
      * now apply limitarCache_NoDup, setAdd_NoDup.
      * apply limitarCache_length.
        pose proof (setAdd_length (id p) (pedidosProcessados s)). lia.
    + rewrite Hr. cbn [snd]. unfold cachePequeno. now rewrite Hp0.
Qed.

(** X11: [pedidosProcessados] never holds more than [MAX_PEDIDOS_CACHE]
    ids.  From a set of at most 100 distinct ids (the empty set of a fresh
    process is one) any run of ticks, whatever the answers of the queries,
    ends with a set of at most 100 distinct ids. *)
Theorem cache_de_pedidos_limitado (respostas : list (RespostaSupabase (list Pedido)))
  (s : Estado) :
  List.NoDup (pedidosProcessados s) ->
  (length (pedidosProcessados s) <= MAX_PEDIDOS_CACHE)%nat ->
  let s' := executarTicks respostas s in
  List.NoDup (pedidosProcessados s')
  /\ (length (pedidosProcessados s') <= MAX_PEDIDOS_CACHE)%nat.
Proof.
  intros Hnd Hlen. cbn zeta.
  assert (Hs : cachePequeno s) by (split; assumption). clear Hnd Hlen.
  revert s Hs. induction respostas as [|r respostas IH]; intros s Hs; [exact Hs|].
  unfold Poller.executarTicks. cbn [fold_left]. apply IH.
  unfold Poller.verificarNovosPedidos.
  destruct (lojaFechadaPeloAdmin s); [exact Hs|].
  destruct r as [tabela|e]; [|exact Hs].
  apply processarLote_cachePequeno. exact Hs.
Qed.

(** *** What one tick dispatches *)

Lemma processarLote_despachos (lote : list Pedido) (s : Estado) :
  exists ids,
    despachos (snd (processarLote lote s)) = despachos s ++ ids
    /\ (length ids <= length lote)%nat
    /\ forall i, In i ids -> exists p, In p lote /\ id p = i.
Proof.
  revert s. induction lote as [|p lote IH]; intros s.
  - exists []. cbn. rewrite List.app_nil_r. split; [reflexivity|].
    split; [lia | intros i []].
  - destruct (setHas (id p) (pedidosProcessados s)) eqn:Hhas.
    + rewrite (processarLote_repetido _ _ _ _ p lote s Hhas).
      destruct (IH (comCursor (created_at p) s)) as (ids & Hd & Hl & Hin).
      exists ids. split; [exact Hd|]. split; [cbn; lia|].
      intros i Hi. destruct (Hin i Hi) as (q & Hq & Hid). exists q. split; [now right | exact Hid].
    + destruct (processarLote_novo NUMERO_LOJA gerarMensagemCliente
                  gerarMensagemPedidoRecebido gerarMensagemEntregador p lote s Hhas)
        as (r & s0 & _ & _ & _ & Hd0 & _ & _ & Hr).
      destruct r as [u|e].
      * destruct Hr as (s1 & -> & _ & _ & Hd1 & _).
        destruct (IH s1) as (ids & Hd & Hl & Hin).
        exists (id p :: ids). split; [rewrite Hd, Hd1, <- List.app_assoc; reflexivity|].
        split; [cbn; lia|].
        intros i [<-|Hi]; [exists p; split; [now left | reflexivity]|].
        destruct (Hin i Hi) as (q & Hq & Hid). exists q. split; [now right | exact Hid].
      * rewrite Hr. cbn [snd]. exists [id p]. split; [exact Hd0|].
        split; [cbn; lia|].
        intros i [<-|[]]. exists p. split; [now left | reflexivity].
Qed.

(** X12: one tick dispatches at most [LIMITE_CONSULTA] orders, and every
    order it dispatches is a row of the table whose [created_at] is
    strictly after the cursor that the tick started with. *)
Theorem despachos_por_tique (tabela : list Pedido) (s : Estado) :
  exists ids,
    despachos (verificarNovosPedidos (Dados tabela) s) = despachos s ++ ids
    /\ (length ids <= LIMITE_CONSULTA)%nat
    /\ forall i, In i ids ->
         exists p, In p tabela /\ id p = i /\ ultimoPedidoProcessado s < created_at p.
Proof.
  unfold Poller.verificarNovosPedidos.
  destruct (lojaFechadaPeloAdmin s).
  { exists []. rewrite List.app_nil_r. split; [reflexivity|]. split; [cbn; lia | intros i []]. }
  cbn [ultimoPedidoProcessado registrarConsulta].
  destruct (processarLote_despachos
              (consultarNovosPedidos tabela (ultimoPedidoProcessado s))
              (registrarConsulta s)) as (ids & Hd & Hl & Hin).
  exists ids. split; [exact Hd|]. split.
  - destruct (consultarNovosPedidos_lote tabela (ultimoPedidoProcessado s)) as (Hlen & _).
    lia.
  - intros i Hi. destruct (Hin i Hi) as (p & Hp & Hid).
    apply consultarNovosPedidos_In in Hp as [Hp Hlt]. eauto.
Qed.

(** *** Orders that arrive while the bot is not connected *)

(** On a bot that is not connected a batch transmits nothing, and it runs
    to its end when the generators return on its orders. *)
Lemma processarLote_desconectado (lote : list Pedido) (s : Estado) :
  EstatisticasFatos.desconectado (mundo s) ->
  transmitidas (mundo (snd (processarLote lote s))) = transmitidas (mundo s)
  /\ mensagensEnviadas (mundo (snd (processarLote lote s))) = mensagensEnviadas (mundo s)
  /\ (Forall geradoresRetornam lote ->
      retornou (fst (processarLote lote s)) = true).
Proof.
  revert s. induction lote as [|p lote IH]; intros s Hd; [auto|].
  cbn [Poller.processarLote].
  destruct (setHas (id p) (pedidosProcessados s)).
  { destruct (IH (comCursor (created_at p) s) Hd) as (IH1 & IH2 & IH3).
    split; [exact IH1|]. split; [exact IH2|].
    intros Hg. apply IH3. now apply List.Forall_cons_iff in Hg as [_ Hg]. }
  unfold despachar.
  destruct (EstatisticasFatos.processarNovoPedido_efeito NUMERO_LOJA gerarMensagemCliente
              gerarMensagemPedidoRecebido gerarMensagemEntregador p (mundo s))
    as (r & w & novas & Hrun & Henv & _ & _ & Hdesc & Hret).
  rewrite Hrun. destruct (Hdesc Hd) as [-> _].
  assert (Hdw : EstatisticasFatos.desconectado w)
    by (eapply EstatisticasFatos.desconectado_enviadas; eassumption).
  destruct Henv as (Ht & Hm & _).
  rewrite List.app_nil_r in Ht. cbn [length] in Hm. rewrite Nat.add_0_r in Hm.
  destruct r as [u|e].
  - destruct (IH (concluirPedido p (comMundo w (registrarDespacho (id p) s))) Hdw)
      as (IH1 & IH2 & IH3).
    cbn [mundo concluirPedido comCursor comProcessados comMundo] in IH1, IH2.
    split; [congruence|]. split; [congruence|].
    intros Hg. apply IH3. now apply List.Forall_cons_iff in Hg as [_ Hg].
  - cbn [fst snd mundo comMundo]. split; [exact Ht|]. split; [exact Hm|].
    intros Hg. apply List.Forall_cons_iff in Hg as [Hg _].
    specialize (Hret Hd Hg). discriminate.
Qed.

Lemma crescente_ultimo (lote : list Pedido) (cursor : Z) (p : Pedido) :
  crescente created_at lote -> In p lote ->
  created_at p <= List.last (List.map created_at lote) cursor.
Proof.
  revert cursor p. induction lote as [|q lote IH]; intros cursor p Hc Hin; [destruct Hin|].
  cbn [List.map]. rewrite last_cons. destruct Hc as [Hq Hc].
  destruct Hin as [->|Hin]; [|now apply IH].
  destruct lote as [|r lote]; [cbn; lia|].
  apply Z.le_trans with (created_at r).
  - apply List.Forall_cons_iff in Hq as [Hq _]. exact Hq.
  - apply IH; [exact Hc | now left].
Qed.

(** X13: orders that arrive while the bot is not connected are consumed
    without a notification.  A tick on a bot with no socket, or with a
    status other than connected, transmits nothing.  When no dispatch of
    the tick throws, which is the case when the message generators return
    on every order of the batch, the tick moves the cursor past every order
    it observed: none of them is observed by a later tick, so their
    notifications are never sent. *)
Theorem pedidos_perdidos_sem_conexao (tabela depois : list Pedido) (s : Estado) :
  EstatisticasFatos.desconectado (mundo s) ->
  let s' := verificarNovosPedidos (Dados tabela) s in
  transmitidas (mundo s') = transmitidas (mundo s)
  /\ mensagensEnviadas (mundo s') = mensagensEnviadas (mundo s)
  /\ (Forall geradoresRetornam (loteObservado (Dados tabela) s) ->
      tickConcluido (Dados tabela) s = true)
  /\ (tickConcluido (Dados tabela) s = true ->
      forall p, In p (loteObservado (Dados tabela) s) ->
        created_at p <= ultimoPedidoProcessado s'
        /\ ~ In p (loteObservado (Dados depois) s')).
Proof.
  intros Hd s'.
  assert (Hmundo : transmitidas (mundo s') = transmitidas (mundo s)
                   /\ mensagensEnviadas (mundo s') = mensagensEnviadas (mundo s)).
  { subst s'. unfold Poller.verificarNovosPedidos.
    destruct (lojaFechadaPeloAdmin s); [auto|].
    destruct (processarLote_desconectado
                (consultarNovosPedidos tabela (ultimoPedidoProcessado (registrarConsulta s)))
                (registrarConsulta s) Hd) as (H1 & H2 & _).
    split; assumption. }
  destruct Hmundo as [Ht Hm]. split; [exact Ht|]. split; [exact Hm|]. split.
  - intros Hg. unfold Poller.tickConcluido.
    destruct (processarLote_desconectado (loteObservado (Dados tabela) s)
                (registrarConsulta s) Hd) as (_ & _ & H3).
    specialize (H3 Hg). unfold retornou in H3.
    now destruct (fst (processarLote (loteObservado (Dados tabela) s) (registrarConsulta s))).
  - intros Hfim p Hp.
    assert (Hcur : created_at p <= ultimoPedidoProcessado s').
    { subst s'.
      destruct (verificarNovosPedidos_percurso NUMERO_LOJA gerarMensagemCliente
                  gerarMensagemPedidoRecebido gerarMensagemEntregador (Dados tabela) s)
        as (feitos & restantes & Hl & Hc & Hr & _).
      rewrite Hc. specialize (Hr Hfim). subst restantes.
      rewrite List.app_nil_r in Hl. rewrite <- Hl.
      apply crescente_ultimo; [|exact Hp].
      now destruct (loteObservado_lote (Dados tabela) s) as (_ & _ & Hcr). }
    split; [exact Hcur|].
    intros Hobs. unfold loteObservado in Hobs.
    destruct (lojaFechadaPeloAdmin s'); [destruct Hobs|].
    apply consultarNovosPedidos_In in Hobs as [_ Hlt]. lia.
Qed.

(** *** A shop closed by the admin stays closed *)

(** What the two intervals do to the poller: a tick, or a status check. *)
Inductive Acontecimento :=
| Tique (resposta : RespostaSupabase (list Pedido))
| VerificacaoLoja (resposta : RespostaSupabase (option string)).

Definition acontecer (s : Estado) (a : Acontecimento) : Estado :=
  match a with
  | Tique r => verificarNovosPedidos r s
  | VerificacaoLoja r => verificarStatusLoja r s
  end.

(** A status check that failed, or that read ['closed'] again. *)
Definition naoReabre (a : Acontecimento) : Prop :=
  match a with
  | VerificacaoLoja (Dados v) => v = Some "closed"
  | _ => True
  end.

(** X14: once the admin has closed the shop, the poller stands still
    until a status check succeeds and reads something other than
    ['closed'].  Ticks, failed status checks and checks that read
    ['closed'] again leave the whole state as it was: nothing is queried,
    dispatched or marked as processed, and the cursor does not move.  The
    first successful check that reads any other value reopens the shop. *)
Theorem loja_permanece_fechada (acontecimentos : list Acontecimento) (s : Estado) :
  lojaFechadaPeloAdmin s = true ->
  Forall naoReabre acontecimentos ->
  fold_left acontecer acontecimentos s = s
  /\ forall v, v <> Some "closed" ->
       lojaFechadaPeloAdmin (verificarStatusLoja (Dados v) s) = false.
Proof.
  intros Hf Hall. split.
  - induction Hall as [|a resto Ha _ IH]; [reflexivity|].
    cbn [fold_left].
    assert (Hs : acontecer s a = s).
    { destruct a as [r|[v|e]]; cbn.
      - unfold Poller.verificarNovosPedidos. now rewrite Hf.
      - cbn in Ha. subst v. cbn. now rewrite Hf.
      - reflexivity. }
    now rewrite Hs.
  - intros v Hv. unfold verificarStatusLoja. rewrite Hf.
    destruct v as [v|]; cbn.
    + destruct (String.eqb_spec v "closed") as [->|Hne]; [now elim Hv | reflexivity].
    + reflexivity.
Qed.

End Configuracao.

(** *** One interval per task *)

(** Every running interval is the one that its binding holds, and every
    handle in use is older than the next handle. *)
Definition umPorTarefa (t : Temporizadores) : Prop :=
  (forall h, intervaloPolling t = Some h -> (h < proximoHandle t)%nat)
  /\ (forall h, intervaloVerificacaoLoja t = Some h -> (h < proximoHandle t)%nat)
  /\ (forall h tarefa periodo, ativos t !! h = Some (tarefa, periodo) ->
        (h < proximoHandle t)%nat
        /\ match tarefa with
           | TarefaPolling => intervaloPolling t = Some h
           | TarefaVerificacaoLoja => intervaloVerificacaoLoja t = Some h
           end).

Lemma umPorTarefa_sem : umPorTarefa semTemporizadores.
Proof.
  split; [discriminate|]. split; [discriminate|].
  intros h tarefa periodo H. cbn in H. now rewrite lookup_empty in H.
Qed.

(** After the first lines of [configurarPollingPedidos] no polling
    interval is running. *)
Lemma limpar_polling (t : Temporizadores) :
  umPorTarefa t ->
  let t1 := match intervaloPolling t with
            | Some h => limparPolling h t
            | None => t
            end in
  umPorTarefa t1
  /\ proximoHandle t1 = proximoHandle t
  /\ forall h periodo, ativos t1 !! h <> Some (TarefaPolling, periodo).
Proof.
  intros Hinv. pose proof Hinv as (Hp & Hv & Ha). cbn zeta.
  destruct (intervaloPolling t) as [hp|] eqn:Hhp.
  - split; [|split; [reflexivity|]].
    + split; [discriminate|]. split; [exact Hv|].
      intros h tarefa periodo H. cbn in H.
      apply lookup_delete_Some in H as [Hne H].
      destruct (Ha h tarefa periodo H) as [Hlt Hb]. split; [exact Hlt|].
      destruct tarefa; [congruence | exact Hb].
    + intros h periodo H. cbn in H. apply lookup_delete_Some in H as [Hne H].
      destruct (Ha h _ _ H) as [_ Hb]. congruence.
  - split; [|split; [reflexivity|]].
    + exact Hinv.
    + intros h periodo H. destruct (Ha h _ _ H) as [_ Hb]. congruence.
Qed.

(** The intervals after the four timer statements of a call that the
    query did not reject. *)
Lemma temporizadores_configurados (t1 : Temporizadores) :
  umPorTarefa t1 ->
  (forall h periodo, ativos t1 !! h <> Some (TarefaPolling, periodo)) ->
  let t2 := iniciarPolling t1 in
  let t3 := match intervaloVerificacaoLoja t2 with
            | Some h => limparVerificacao h t2
            | None => t2
            end in
  let t4 := iniciarVerificacao t3 in
  umPorTarefa t4
  /\ ativos t4 = {[ proximoHandle t1 := (TarefaPolling, INTERVALO_POLLING_MS);
                    S (proximoHandle t1) :=
                      (TarefaVerificacaoLoja, INTERVALO_VERIFICACAO_LOJA_MS) ]}.
Proof.
  intros (Hp & Hv & Ha) Hsem. cbn zeta.
  set (n := proximoHandle t1).
  assert (Hativos :
    ativos (match intervaloVerificacaoLoja (iniciarPolling t1) with
            | Some h => limparVerificacao h (iniciarPolling t1)
            | None => iniciarPolling t1
            end) = {[ n := (TarefaPolling, INTERVALO_POLLING_MS) ]}
    /\ proximoHandle (match intervaloVerificacaoLoja (iniciarPolling t1) with
                      | Some h => limparVerificacao h (iniciarPolling t1)
                      | None => iniciarPolling t1
                      end) = S n
    /\ intervaloPolling (match intervaloVerificacaoLoja (iniciarPolling t1) with
                         | Some h => limparVerificacao h (iniciarPolling t1)
                         | None => iniciarPolling t1
                         end) = Some n).
  { cbn [intervaloVerificacaoLoja iniciarPolling].
    destruct (intervaloVerificacaoLoja t1) as [hv|] eqn:Hhv; cbn; fold n.
    - split; [|split; reflexivity].
      apply map_eq. intros h.
      destruct (decide (h = n)) as [->|Hne].
      + rewrite lookup_singleton_eq.
        rewrite lookup_delete_ne by (specialize (Hv hv eq_refl); lia).
        apply lookup_insert_eq.
      + rewrite lookup_singleton_ne by congruence.
        destruct (decide (hv = h)) as [->|Hne2]; [apply lookup_delete_eq|].
        rewrite lookup_delete_ne by exact Hne2.
        rewrite lookup_insert_ne by congruence.
        destruct (ativos t1 !! h) as [[[|] periodo]|] eqn:Hl; [| |reflexivity].
        * now elim (Hsem h periodo).
        * destruct (Ha h _ _ Hl) as [_ Hb]. congruence.
    - split; [|split; reflexivity].
      apply map_eq. intros h.
      destruct (decide (h = n)) as [->|Hne].
      + rewrite lookup_singleton_eq. apply lookup_insert_eq.
      + rewrite lookup_singleton_ne by congruence.
        rewrite lookup_insert_ne by congruence.
        destruct (ativos t1 !! h) as [[[|] periodo]|] eqn:Hl; [| |reflexivity].
        * now elim (Hsem h periodo).
        * destruct (Ha h _ _ Hl) as [_ Hb]. congruence. }
  destruct Hativos as (Hat & Hprox & Hpol).
  unfold iniciarVerificacao. rewrite Hat, Hprox, Hpol.
  split.
  - split; [intros h [= <-]; cbn; lia|]. split; [intros h [= <-]; cbn; lia|].
    intros h tarefa periodo H. cbn in H.
    apply lookup_insert_Some in H as [[<- [= <- <-]]|[Hne H]].
    + split; [cbn; lia | reflexivity].
    + apply lookup_singleton_Some in H as [<- [= <- <-]].
      split; [cbn; lia | reflexivity].
  - cbn. apply map_eq. intros h.
    destruct (decide (h = S n)) as [->|Hne].
    + rewrite lookup_insert_eq.
      rewrite lookup_insert_ne by lia. now rewrite lookup_singleton_eq.
    + rewrite lookup_insert_ne by congruence.
      destruct (decide (h = n)) as [->|Hne2].
      * now rewrite lookup_singleton_eq, lookup_insert_eq.
      * rewrite lookup_singleton_ne by congruence.
        rewrite lookup_insert_ne by congruence.
        now rewrite lookup_singleton_ne by congruence.
Qed.

(** Calls of [configurarPollingPedidos] one after the other, each with
    its two answers. *)
Definition configurarVarias
  (chamadas : list (ConsultaUltimo * RespostaSupabase (option string)))
  (sis : Sistema) : Sistema :=
  fold_left (fun acc c => snd (configurarPollingPedidos (fst c) (snd c) acc)) chamadas sis.

Lemma configurar_umPorTarefa (ultimo : ConsultaUltimo)
  (statusLoja : RespostaSupabase (option string)) (sis : Sistema) :
  umPorTarefa (temporizadores sis) ->
  umPorTarefa (temporizadores (snd (configurarPollingPedidos ultimo statusLoja sis)))
  /\ (fst (configurarPollingPedidos ultimo statusLoja sis) = Retorno tt ->
      exists hp hv,
        hp <> hv
        /\ ativos (temporizadores (snd (configurarPollingPedidos ultimo statusLoja sis)))
           = {[ hp := (TarefaPolling, INTERVALO_POLLING_MS);
                hv := (TarefaVerificacaoLoja, INTERVALO_VERIFICACAO_LOJA_MS) ]}).
Proof.
  intros Hinv.
  destruct (limpar_polling (temporizadores sis) Hinv) as (H1 & Hprox & Hsem).
  destruct (temporizadores_configurados _ H1 Hsem) as (H4 & Hat).
  destruct (atualizarCacheEntregadores_retorna (mundo (poller sis))) as (w1 & Hw1 & _).
  unfold configurarPollingPedidos. rewrite Hw1.
  destruct ultimo as [linhas|e|e]; cbn [fst snd temporizadores].
  - split; [exact H4|]. intros _. eexists _, _. split; [|exact Hat]. lia.
  - split; [exact H4|]. intros _. eexists _, _. split; [|exact Hat]. lia.
  - split; [exact H1 | discriminate].
Qed.

(** X15: calls of [configurarPollingPedidos] that do not overlap never
    leave two intervals running for the same task.  Starting with no
    interval, after any number of calls every running interval is the one
    held by [intervaloPolling] or by [intervaloVerificacaoLoja]; and when
    the last call returned normally, exactly two intervals are running:
    one polling interval of 10 s and one status check of 30 s. *)
Theorem um_intervalo_por_tarefa
  (chamadas : list (ConsultaUltimo * RespostaSupabase (option string)))
  (ultimo : ConsultaUltimo) (statusLoja : RespostaSupabase (option string))
  (s : Poller.Estado) :
  let antes := configurarVarias chamadas
                 {| poller := s; temporizadores := semTemporizadores |} in
  let r := configurarPollingPedidos ultimo statusLoja antes in
  let t := temporizadores (snd r) in
  (forall h1 h2 tarefa p1 p2,
      ativos t !! h1 = Some (tarefa, p1) -> ativos t !! h2 = Some (tarefa, p2) ->
      h1 = h2)
  /\ (fst r = Retorno tt ->
      exists hp hv,
        hp <> hv
        /\ ativos t = {[ hp := (TarefaPolling, INTERVALO_POLLING_MS);
                         hv := (TarefaVerificacaoLoja, INTERVALO_VERIFICACAO_LOJA_MS) ]}).
Proof.
  intros antes r t.
  assert (Hantes : umPorTarefa (temporizadores antes)).
  { subst antes. unfold configurarVarias.
    assert (Hgen : forall cs sis, umPorTarefa (temporizadores sis) ->
              umPorTarefa (temporizadores
                (fold_left (fun acc c => snd (configurarPollingPedidos (fst c) (snd c) acc))
                   cs sis))).
    { induction cs as [|c cs IH]; intros sis Hsis; [exact Hsis|].
      cbn [fold_left]. apply IH. now apply configurar_umPorTarefa. }
    apply Hgen. apply umPorTarefa_sem. }
  destruct (configurar_umPorTarefa ultimo statusLoja antes Hantes) as [Hinv Hok].
  split; [|exact Hok].
  intros h1 h2 tarefa p1 p2 Ha1 Ha2.
  destruct Hinv as (_ & _ & Ha).
  destruct (Ha h1 _ _ Ha1) as [_ Hb1]. destruct (Ha h2 _ _ Ha2) as [_ Hb2].
  fold r t in Hb1, Hb2. destruct tarefa; congruence.
Qed.

(** *** Examples *)

Definition mundoDeExemplo : Mundo :=
  {| sockAtivo := true; statusConexao := Conectado;
     mensagensEnviadas := 0; pedidosNotificados := 0;
     cacheEntregadores := []; ultimaAtualizacaoCache := None;
     relogio := 1700000000000; funcionarios := Dados []; transporte := [];
     chamadas := []; transmitidas := []; esperas := 0 |}.

Definition pollerDeExemplo (fechada : bool) : Estado :=
  {| mundo := mundoDeExemplo; ultimoPedidoProcessado := 0; pedidosProcessados := [];
     lojaFechadaPeloAdmin := fechada; despachos := []; consultas := [] |}.

Definition pedidoDeExemplo (i : string) (criado : Z) : Pedido :=
  {| id := i; created_at := criado; status := "pending";
     customer_phone := Cadeia "86922220000"; telefone := Nulo;
     order_type := Some "pickup"; tipo_entrega := None |}.

Definition pollerSemConexao : Estado :=
  {| mundo := {| sockAtivo := false; statusConexao := Desconectado;
                 mensagensEnviadas := 0; pedidosNotificados := 0;
                 cacheEntregadores := []; ultimaAtualizacaoCache := None;
                 relogio := 1700000000000; funcionarios := Dados []; transporte := [];
                 chamadas := []; transmitidas := []; esperas := 0 |};
     ultimoPedidoProcessado := 0; pedidosProcessados := [];
     lojaFechadaPeloAdmin := false; despachos := []; consultas := [] |}.

(** Generators that return a fixed text each. *)
Definition textoC (_ : Pedido) : Resultado string := Retorno "c".
Definition textoL (_ : Pedido) : Resultado string := Retorno "l".
Definition textoE (_ : Pedido) : Resultado string := Retorno "e".

Lemma pedidos_perdidos_sem_conexao_exemplo :
  let tique := Poller.verificarNovosPedidos "86933330000" textoC textoL textoE in
  let s1 := tique (Dados [pedidoDeExemplo "a" 10]) pollerSemConexao in
  despachos s1 = ["a"]
  /\ transmitidas (mundo s1) = []
  /\ ultimoPedidoProcessado s1 = 10
  /\ despachos (tique (Dados [pedidoDeExemplo "a" 10]) s1) = ["a"].
Proof.
  cbn zeta. split; [reflexivity|].
  destruct (pedidos_perdidos_sem_conexao "86933330000" textoC textoL textoE
              [pedidoDeExemplo "a" 10] [] pollerSemConexao (or_introl eq_refl))
    as (Ht & _ & _ & _).
  split; [exact Ht|]. split; reflexivity.
Defined.

(** The query for the latest order answers an error while the table holds
    an order dated after the clock of the bot: the first tick dispatches
    that order, which existed before the poller was configured. *)
Lemma pedido_existente_despachado :
  let futuro := pedidoDeExemplo "a" 1700000000001 in
  let r := configurarPollingPedidos (ErroConsulta "timeout") (Dados None)
             {| poller := pollerDeExemplo false; temporizadores := semTemporizadores |} in
  let s := poller (snd r) in
  fst r = Retorno tt
  /\ ultimoPedidoProcessado s = 1700000000000
  /\ despachos (Poller.verificarNovosPedidos "" textoC textoL textoE (Dados [futuro]) s)
     = ["a"].
Proof. repeat split. Qed.

Lemma cache_de_pedidos_limitado_exemplo :
  (length (pedidosProcessados
             (Poller.executarTicks "" textoC textoL textoE
                [Dados [pedidoDeExemplo "a" 10; pedidoDeExemplo "b" 20]]
                (pollerDeExemplo false))) <= MAX_PEDIDOS_CACHE)%nat.
Proof.
  refine (proj2 (cache_de_pedidos_limitado "" textoC textoL textoE
                   [Dados [pedidoDeExemplo "a" 10; pedidoDeExemplo "b" 20]]
                   (pollerDeExemplo false) _ _)).
  - constructor.
  - cbn. unfold MAX_PEDIDOS_CACHE. lia.
Defined.

Lemma loja_permanece_fechada_exemplo :
  fold_left (acontecer "" textoC textoL textoE)
    [ Tique (Dados [pedidoDeExemplo "a" 10]);
      VerificacaoLoja (Falha "timeout");
      VerificacaoLoja (Dados (Some "closed"));
      Tique (Dados [pedidoDeExemplo "a" 10; pedidoDeExemplo "b" 20]) ]
    (pollerDeExemplo true)
  = pollerDeExemplo true.
Proof.
  refine (proj1 (loja_permanece_fechada "" textoC textoL textoE
                   _ (pollerDeExemplo true) eq_refl _)).
  repeat constructor.
Defined.

End ArranqueFatos.

(** ** The PIX history and the use counters *)

Module HistoricoFatos.
Import JS JSFatos Pix PixFatos TextoFatos.

Lemma filter_identidade {A} (f : A -> bool) (l : list A) :
  Forall (fun x => f x = true) l -> List.filter f l = l.
Proof.
  induction 1 as [|x l Hx _ IH]; cbn; [reflexivity|]. now rewrite Hx, IH.
Qed.

Lemma expirado_false (agora : Z) (info : UltimoEnvio) :
  expirado agora info = false <->
  timestamp info <> 0 /\ agora - timestamp info <= RETENCAO_HISTORICO_MS.
Proof.
  unfold expirado. rewrite orb_false_iff, Z.eqb_neq, Z.ltb_ge. reflexivity.
Qed.

(** The entries that are not expired, before the size limit is applied. *)
Lemma limpar_nao_expirados (agora : Z) (h : list (string * UltimoEnvio))
  (e : string * UltimoEnvio) :
  In e (limparHistoricoAntigo agora h) -> expirado agora (snd e) = false.
Proof.
  unfold limparHistoricoAntigo. destruct (_ <=? _)%nat.
  - intros H. apply List.filter_In in H as [_ H]. now apply negb_true_iff.
  - rewrite remocoes_filter. intros H.
    apply List.filter_In in H as [H _]. apply List.filter_In in H as [_ H].
    now apply negb_true_iff.
Qed.

(** X16: what [limparHistoricoAntigo] leaves.  The cleaned history holds
    at most [LIMITE_HISTORICO] entries, all of them entries of the history
    before, none with a zero timestamp and none older than the retention of
    24 hours; cleaning it again at the same moment changes nothing. *)
Theorem historico_limpo (agora : Z) (h : list (string * UltimoEnvio)) :
  let h' := limparHistoricoAntigo agora h in
  (length h' <= LIMITE_HISTORICO)%nat
  /\ incl h' h
  /\ Forall (fun e => timestamp (snd e) <> 0
                      /\ agora - timestamp (snd e) <= RETENCAO_HISTORICO_MS) h'
  /\ limparHistoricoAntigo agora h' = h'.
Proof.
  intros h'.
  assert (Hlen : (length h' <= LIMITE_HISTORICO)%nat) by apply limpar_length.
  assert (Hexp : Forall (fun e => expirado agora (snd e) = false) h').
  { apply List.Forall_forall. intros e He. eapply limpar_nao_expirados. exact He. }
  split; [exact Hlen|]. split; [intros e He; eapply limpar_In; exact He|].
  split.
  - eapply List.Forall_impl; [|exact Hexp]. intros e He. now apply expirado_false.
  - unfold limparHistoricoAntigo at 1.
    rewrite (filter_identidade (fun e => negb (expirado agora (snd e))) h').
    + apply Nat.leb_le in Hlen. now rewrite Hlen.
    + eapply List.Forall_impl; [|exact Hexp]. intros e He. cbn. now rewrite He.
Qed.

Lemma crescente_firstn_skipn {A} (chave : A -> Z) (n : nat) (l : list A) (a b : A) :
  crescente chave l -> In a (firstn n l) -> In b (skipn n l) -> chave a <= chave b.
Proof.
  revert n. induction l as [|x l IH]; intros n Hc Ha Hb.
  - destruct n; destruct Ha.
  - destruct n as [|n]; [destruct Ha|].
    cbn in Ha, Hb. destruct Hc as [Hx Hc]. destruct Ha as [<-|Ha].
    + rewrite List.Forall_forall in Hx. apply Hx.
      rewrite <- (List.firstn_skipn n l). apply List.in_or_app. now right.
    + now apply (IH n).
Qed.

Lemma chave_unica {V} (m : list (string * V)) (k : string) (v v' : V) :
  List.NoDup (List.map fst m) -> In (k, v) m -> In (k, v') m -> v = v'.
Proof.
  induction m as [|[k0 v0] m IH]; intros Hnd H1 H2; [destruct H1|].
  cbn in Hnd. apply List.NoDup_cons_iff in Hnd as [Hk Hnd].
  destruct H1 as [H1|H1], H2 as [H2|H2].
  - congruence.
  - exfalso. apply Hk. injection H1 as -> _. apply List.in_map_iff. now exists (k, v').
  - exfalso. apply Hk. injection H2 as -> _. apply List.in_map_iff. now exists (k, v).
  - now apply IH.
Qed.

Lemma foraDe_false {V} (ds : list (string * V)) (e : string * V) :
  foraDe ds e = false -> exists d, In d ds /\ fst d = fst e.
Proof.
  unfold foraDe. induction ds as [|d ds IH]; cbn; [discriminate|].
  destruct (String.eqb_spec (fst d) (fst e)) as [Heq|Hne]; cbn.
  - intros _. exists d. auto.
  - intros H. destruct (IH H) as (d' & Hin & Hd'). exists d'. auto.
Qed.

(** X17: the size limit removes the oldest entries.  In a history with
    one entry per number, an entry that is not expired and that the
    cleaning removed is at most as recent as every entry that the cleaning
    kept. *)
Theorem limpeza_remove_mais_antigos (agora : Z) (h : list (string * UltimoEnvio))
  (removida mantida : string * UltimoEnvio) :
  List.NoDup (chaves h) ->
  In removida h ->
  expirado agora (snd removida) = false ->
  ~ In removida (limparHistoricoAntigo agora h) ->
  In mantida (limparHistoricoAntigo agora h) ->
  timestamp (snd removida) <= timestamp (snd mantida).
Proof.
  intros Hnd Hr Hexp Hfora Hm. unfold limparHistoricoAntigo in Hfora, Hm.
  set (h1 := List.filter (fun e => negb (expirado agora (snd e))) h) in *.
  assert (Hr1 : In removida h1).
  { apply List.filter_In. split; [exact Hr | now rewrite Hexp]. }
  destruct (length h1 <=? LIMITE_HISTORICO)%nat; [now elim Hfora|].
  rewrite remocoes_filter in Hfora, Hm.
  set (ordenadas := ordenarPor (fun e : string * UltimoEnvio => timestamp (snd e)) h1) in *.
  set (k := (length h1 - LIMITE_HISTORICO)%nat) in *.
  assert (Hnd1 : List.NoDup (List.map fst h1)) by now apply filter_NoDup_chaves.
  assert (Hrd : In removida (firstn k ordenadas)).
  { destruct (foraDe (firstn k ordenadas) removida) eqn:Hf.
    - exfalso. apply Hfora. apply List.filter_In. auto.
    - destruct (foraDe_false _ _ Hf) as (d & Hd & Hkey).
      assert (Hd1 : In d h1).
      { apply (ordenarPor_In (fun e : string * UltimoEnvio => timestamp (snd e))).
        eapply PollerFatos.firstn_In. exact Hd. }
      destruct d as [kd vd], removida as [kr vr]. cbn in Hkey. subst kd.
      now rewrite <- (chave_unica h1 kr vd vr Hnd1 Hd1 Hr1). }
  apply List.filter_In in Hm as [Hm1 Hmf].
  assert (Hmd : In mantida (skipn k ordenadas)).
  { assert (Hmo : In mantida ordenadas) by now apply ordenarPor_In.
    rewrite <- (List.firstn_skipn k ordenadas) in Hmo.
    apply List.in_app_or in Hmo as [Hmo|Hmo]; [|exact Hmo].
    rewrite (foraDe_proprio _ _ Hmo) in Hmf. discriminate. }
  apply (crescente_firstn_skipn (fun e : string * UltimoEnvio => timestamp (snd e))
           k ordenadas); [apply ordenarPor_crescente | exact Hrd | exact Hmd].
Qed.

(** A list in ascending order is sorted into itself. *)
Lemma ordenarPor_ordenada {A} (chave : A -> Z) (l : list A) :
  crescente chave l -> ordenarPor chave l = l.
Proof.
  induction l as [|x l IH]; intros Hc; [reflexivity|].
  destruct Hc as [Hx Hc]. unfold ordenarPor in *. cbn [fold_right].
  rewrite (IH Hc). destruct l as [|y l]; [reflexivity|].
  cbn [inserirOrdenado]. apply List.Forall_cons_iff in Hx as [Hxy _].
  apply Z.leb_le in Hxy. now rewrite Hxy.
Qed.

(** A history one entry over the limit: the numbers 1, 11, 111, ..., each
    more recent than the one before. *)
Fixpoint uns (k : nat) : string :=
  match k with
  | O => ""
  | S k' => String "1" (uns k')
  end.

Definition entradaCheia (k : nat) : string * UltimoEnvio :=
  (uns (S k), {| indice := 0; timestamp := 1000 + Z.of_nat k |}).

Definition historicoCheio : list (string * UltimoEnvio) :=
  List.map entradaCheia (seq 0 (S LIMITE_HISTORICO)).

Lemma uns_length (k : nat) : String.length (uns k) = k.
Proof. induction k as [|k IH]; [reflexivity | cbn; now rewrite IH]. Qed.

Lemma NoDup_map_injetiva {A B} (f : A -> B) (l : list A) :
  (forall a b, f a = f b -> a = b) -> List.NoDup l -> List.NoDup (List.map f l).
Proof.
  intros Hinj. induction 1 as [|x l Hx _ IH]; cbn; constructor; [|exact IH].
  intros Hin. apply List.in_map_iff in Hin as (y & Hy & Hin).
  apply Hinj in Hy. now subst y.
Qed.

Lemma historicoCheio_chaves : List.NoDup (chaves historicoCheio).
Proof.
  unfold chaves, historicoCheio. rewrite List.map_map.
  apply NoDup_map_injetiva; [|apply List.seq_NoDup].
  intros a b Hab. cbn [entradaCheia fst] in Hab.
  apply (f_equal String.length) in Hab. rewrite !uns_length in Hab. lia.
Qed.

Lemma historicoCheio_crescente :
  crescente (fun e : string * UltimoEnvio => timestamp (snd e)) historicoCheio.
Proof.
  unfold historicoCheio. generalize (S LIMITE_HISTORICO) as n. generalize 0%nat as a.
  intros a n. revert a. induction n as [|n IH]; intros a; [exact I|].
  cbn [seq List.map crescente]. split; [|apply IH].
  apply List.Forall_forall. intros e He.
  apply List.in_map_iff in He as (k & <- & Hk). apply List.in_seq in Hk.
  cbn. lia.
Qed.

Lemma historicoCheio_limpo :
  limparHistoricoAntigo 5000 historicoCheio
  = List.filter (foraDe [entradaCheia 0]) historicoCheio.
Proof.
  assert (Hfilt : List.filter (fun e => negb (expirado 5000 (snd e))) historicoCheio
                  = historicoCheio).
  { apply filter_identidade. apply List.Forall_forall. intros e He.
    apply List.in_map_iff in He as (k & <- & _).
    apply negb_true_iff, expirado_false. cbn. unfold RETENCAO_HISTORICO_MS. lia. }
  assert (Hlen : length historicoCheio = S LIMITE_HISTORICO).
  { unfold historicoCheio. now rewrite List.length_map, List.length_seq. }
  unfold limparHistoricoAntigo. rewrite Hfilt, Hlen.
  replace (S LIMITE_HISTORICO <=? LIMITE_HISTORICO)%nat with false
    by (symmetry; apply Nat.leb_gt; lia).
  rewrite remocoes_filter, (ordenarPor_ordenada _ _ historicoCheio_crescente).
  replace (S LIMITE_HISTORICO - LIMITE_HISTORICO)%nat with 1%nat by lia.
  reflexivity.
Qed.

Lemma limpeza_remove_mais_antigos_exemplo :
  In (entradaCheia 1) (limparHistoricoAntigo 5000 historicoCheio)
  /\ ~ In (entradaCheia 0) (limparHistoricoAntigo 5000 historicoCheio)
  /\ timestamp (snd (entradaCheia 0)) <= timestamp (snd (entradaCheia 1)).
Proof.
  assert (Hm : In (entradaCheia 1) (limparHistoricoAntigo 5000 historicoCheio)).
  { rewrite historicoCheio_limpo. apply List.filter_In. split; [|reflexivity].
    apply List.in_map_iff. exists 1%nat. split; [reflexivity|].
    apply List.in_seq. pose proof LIMITE_HISTORICO_pos. lia. }
  assert (Hr : ~ In (entradaCheia 0) (limparHistoricoAntigo 5000 historicoCheio)).
  { rewrite historicoCheio_limpo. intros Hin. apply List.filter_In in Hin as [_ Hin].
    pose proof (foraDe_proprio [entradaCheia 0] (entradaCheia 0) (or_introl eq_refl))
      as Hf.
    congruence. }
  split; [exact Hm|]. split; [exact Hr|].
  apply (limpeza_remove_mais_antigos 5000 historicoCheio (entradaCheia 0)
           (entradaCheia 1)).
  - exact historicoCheio_chaves.
  - apply List.in_map_iff. exists 0%nat. split; [reflexivity|].
    apply List.in_seq. lia.
  - reflexivity.
  - exact Hr.
  - exact Hm.
Defined.

(** *** The use counters *)

Lemma aplicarSelecao_uso (s : Estado) (c : Selecao) :
  sorteioValido (sorteio c) ->
  let s' := aplicarSelecao s c in
  (uso (usoPorIndice s') 0 + uso (usoPorIndice s') 1
   = S (uso (usoPorIndice s) 0 + uso (usoPorIndice s) 1))%nat
  /\ (uso (usoPorIndice s) 0 <= uso (usoPorIndice s') 0)%nat
  /\ (uso (usoPorIndice s) 1 <= uso (usoPorIndice s') 1)%nat.
Proof.
  intros Hr s'.
  destruct (selecionarComIndice_sorteado (remetente c) (leituraLimpeza c) (leitura c)
              (sorteio c) s Hr) as (i & k & _ & Hk & Hsel).
  assert (Hs' : s' = fst (selecionarComIndice (remetente c) (leituraLimpeza c)
                            (leitura c) (sorteio c) s)).
  { unfold s', aplicarSelecao, selecionarChavePixInteligente.
    now destruct (selecionarComIndice _ _ _ _ s). }
  rewrite Hsel in Hs'. cbn [fst] in Hs'. rewrite Hs'. cbn [usoPorIndice].
  rewrite !uso_insert.
  assert (Hi : (i < 2)%nat).
  { change 2%nat with (length CHAVES_PIX). apply nth_error_Some. congruence. }
  destruct i as [|[|i]]; cbn; lia.
Qed.

(** X18: the use counters count the keys handed out.  From the initial
    state, after any run of selections, by any senders at any times, the
    two counters add up to the number of selections made. *)
Theorem contagem_de_usos (cs : list Selecao) :
  Forall (fun c => sorteioValido (sorteio c)) cs ->
  let s := executarSelecoes cs inicial in
  (uso (usoPorIndice s) 0 + uso (usoPorIndice s) 1 = length cs)%nat.
Proof.
  intros Hval. cbn zeta.
  assert (Hgen : forall s0,
    (uso (usoPorIndice (executarSelecoes cs s0)) 0
     + uso (usoPorIndice (executarSelecoes cs s0)) 1
     = uso (usoPorIndice s0) 0 + uso (usoPorIndice s0) 1 + length cs)%nat).
  { induction Hval as [|c cs Hc _ IH]; intros s0; [cbn; lia|].
    unfold executarSelecoes. cbn [fold_left length].
    change (fold_left aplicarSelecao cs (aplicarSelecao s0 c))
      with (executarSelecoes cs (aplicarSelecao s0 c)).
    rewrite IH. destruct (aplicarSelecao_uso s0 c Hc) as (H & _). cbn zeta in H. lia. }
  rewrite Hgen. reflexivity.
Qed.

Lemma contagem_de_usos_exemplo :
  let cs := [ {| remetente := "5586911112222"; leituraLimpeza := 1000; leitura := 1000;
                 sorteio := 0 |};
              {| remetente := "5586911112222"; leituraLimpeza := 2000; leitura := 2000;
                 sorteio := 1 # 2 |};
              {| remetente := "sem numero"; leituraLimpeza := 3000; leitura := 3000;
                 sorteio := 0 |} ] in
  (uso (usoPorIndice (executarSelecoes cs inicial)) 0
   + uso (usoPorIndice (executarSelecoes cs inicial)) 1 = 3)%nat.
Proof.
  cbn zeta.
  refine (contagem_de_usos _ _).
  repeat constructor; discriminate.
Defined.

(** *** What the history records *)

(** A key of the history: a text of digits, not empty. *)
Definition numeroValido (k : string) : Prop :=
  textoVerdadeiro k = true /\ apenasDigitos k = k.

(** X19: the history records what was sent, and only for senders with a
    number.  A call returns a key; when the sender's number has a digit, the
    entry of the normalized number then holds the index of that key and the
    time of the call; when it has none, the history is the cleaned history,
    with no entry added.  Every key of the history stays a non-empty text
    of digits. *)
Theorem historico_registra_envio (numero : string) (t0 t : Z) (r : Q) (s : Estado) :
  sorteioValido r ->
  let n := normalizarNumero numero in
  let s' := fst (selecionarComIndice numero t0 t r s) in
  exists i c,
    snd (selecionarComIndice numero t0 t r s) = Some (i, c)
    /\ nth_error CHAVES_PIX i = Some c
    /\ (textoVerdadeiro n = true ->
        mapGet n (ultimoEnvioPorNumero s') = Some {| indice := i; timestamp := t |})
    /\ (textoVerdadeiro n = false ->
        ultimoEnvioPorNumero s' = limparHistoricoAntigo t0 (ultimoEnvioPorNumero s))
    /\ (Forall numeroValido (chaves (ultimoEnvioPorNumero s)) ->
        Forall numeroValido (chaves (ultimoEnvioPorNumero s'))).
Proof.
  intros Hr n s'.
  destruct (selecionarComIndice_sorteado numero t0 t r s Hr) as (i & c & _ & Hc & Hsel).
  exists i, c. subst s'. rewrite Hsel. cbn [fst snd ultimoEnvioPorNumero]. fold n.
  split; [reflexivity|]. split; [exact Hc|].
  split; [intros ->; apply mapGet_mapSet|].
  split; [intros ->; reflexivity|].
  intros Hval.
  assert (HL : Forall numeroValido
                 (chaves (limparHistoricoAntigo t0 (ultimoEnvioPorNumero s)))).
  { apply List.Forall_forall. intros k Hk. rewrite List.Forall_forall in Hval.
    apply Hval. eapply chaves_limpar. exact Hk. }
  destruct (textoVerdadeiro n) eqn:Hn; [|exact HL].
  apply List.Forall_forall. intros k Hk.
  apply chaves_mapSet in Hk. destruct Hk as [<-|Hk].
  - split; [exact Hn|]. apply filtrarTexto_idempotente.
  - rewrite List.Forall_forall in HL. now apply HL.
Qed.

Lemma historico_registra_envio_exemplo :
  exists i,
    mapGet "5586911112222"
      (ultimoEnvioPorNumero
         (fst (selecionarComIndice "+55 (86) 91111-2222" 5000 5000 0 inicial)))
    = Some {| indice := i; timestamp := 5000 |}.
Proof.
  destruct (historico_registra_envio "+55 (86) 91111-2222" 5000 5000 0 inicial
              sorteioValido_zero) as (i & c & _ & _ & Hreg & _).
  exists i. exact (Hreg eq_refl).
Defined.

End HistoricoFatos.

(** ** The PIX history between two calls of the same sender *)

Module RepeticaoFatos.
Import JS JSFatos Pix PixFatos TextoFatos HistoricoFatos.

(** The entries stamped at [T] or later. *)
Definition recente (T : Z) (e : string * UltimoEnvio) : bool :=
  T <=? timestamp (snd e).

Lemma filter_filter_length {A} (f g : A -> bool) (l : list A) :
  (length (List.filter f (List.filter g l)) <= length (List.filter f l))%nat.
Proof.
  induction l as [|x l IH]; cbn; [lia|].
  destruct (g x), (f x) eqn:Hf; cbn; rewrite ?Hf; cbn; lia.
Qed.

Lemma filter_presente {A} (f : A -> bool) (l : list A) (x : A) :
  In x l -> f x = true -> (1 <= length (List.filter f l))%nat.
Proof.
  intros Hin Hf.
  assert (H : In x (List.filter f l)) by (apply List.filter_In; auto).
  destruct (List.filter f l); [destruct H | cbn; lia].
Qed.

Lemma mapGet_mapSet_outro {V} (k k' : string) (v : V) (m : list (string * V)) :
  k <> k' -> mapGet k (mapSet k' v m) = mapGet k m.
Proof.
  intros Hne. induction m as [|[k0 v0] m IH]; cbn.
  - destruct (String.eqb_spec k k'); [congruence | reflexivity].
  - destruct (String.eqb_spec k' k0) as [->|Hne0]; cbn.
    + destruct (String.eqb_spec k k0); [congruence | reflexivity].
    + destruct (String.eqb_spec k k0); [reflexivity | exact IH].
Qed.

(** The entries of the other senders stamped at [T] or later. *)
Definition recenteDeOutro (n : string) (T : Z) (e : string * UltimoEnvio) : bool :=
  negb (String.eqb (fst e) n) && recente T e.

(** The cleaning adds no entry. *)
Lemma filtrados_limpar (f : string * UltimoEnvio -> bool) (agora : Z)
  (h : list (string * UltimoEnvio)) :
  (length (List.filter f (limparHistoricoAntigo agora h))
   <= length (List.filter f h))%nat.
Proof.
  unfold limparHistoricoAntigo. destruct (_ <=? _)%nat.
  - apply filter_filter_length.
  - rewrite remocoes_filter.
    etransitivity; [apply filter_filter_length | apply filter_filter_length].
Qed.

(** Recording a selection adds at most one entry. *)
Lemma recentes_mapSet (T : Z) (k : string) (v : UltimoEnvio)
  (h : list (string * UltimoEnvio)) :
  (length (List.filter (recente T) (mapSet k v h))
   <= S (length (List.filter (recente T) h)))%nat.
Proof.
  induction h as [|[k' v'] h IH]; cbn [mapSet].
  - cbn. destruct (recente T (k, v)); cbn; lia.
  - destruct (String.eqb k k'); cbn [List.filter].
    + destruct (recente T (k', v)), (recente T (k', v')); cbn; lia.
    + destruct (recente T (k', v')); cbn; lia.
Qed.

(** After a sender has recorded a selection at [T], the entries stamped
    [T] or later are that one and those of the other senders. *)
Lemma recentes_primeiro (T : Z) (n : string) (v : UltimoEnvio)
  (h : list (string * UltimoEnvio)) :
  List.NoDup (chaves h) ->
  (length (List.filter (recente T) (mapSet n v h))
   <= S (length (List.filter (recenteDeOutro n T) h)))%nat.
Proof.
  induction h as [|[k' v'] h IH]; intros Hnd; cbn [mapSet].
  - cbn. destruct (recente T (n, v)); cbn; lia.
  - cbn in Hnd. apply List.NoDup_cons_iff in Hnd as [Hk' Hnd].
    cbn [List.filter]. unfold recenteDeOutro at 1. cbn [fst].
    destruct (String.eqb_spec n k') as [->|Hne].
    + rewrite String.eqb_refl. cbn [negb andb List.filter].
      assert (Hr : List.filter (recente T) h = List.filter (recenteDeOutro k' T) h).
      { apply List.filter_ext_in. intros e He. unfold recenteDeOutro.
        destruct (String.eqb_spec (fst e) k') as [Heq|_]; [|reflexivity].
        exfalso. apply Hk'. rewrite <- Heq. apply List.in_map_iff. eauto. }
      rewrite Hr. destruct (recente T (k', v)); cbn; lia.
    + replace (String.eqb k' n) with false by (symmetry; apply String.eqb_neq; congruence).
      cbn [negb andb List.filter]. specialize (IH Hnd).
      destruct (recente T (k', v')); cbn [length]; lia.
Qed.

(** The entry of a sender outlives a cleaning when it is not expired and at
    most [LIMITE_HISTORICO] entries are as recent as it is: the size limit
    deletes older entries first. *)
Lemma limpar_sobrevive (n : string) (v : UltimoEnvio) (h : list (string * UltimoEnvio))
  (agora : Z) :
  List.NoDup (chaves h) ->
  mapGet n h = Some v ->
  expirado agora v = false ->
  (length (List.filter (recente (timestamp v)) h) <= LIMITE_HISTORICO)%nat ->
  mapGet n (limparHistoricoAntigo agora h) = Some v.
Proof.
  intros Hnd Hg Hexp Hcont.
  apply mapGet_In in Hg as Hin.
  unfold limparHistoricoAntigo.
  set (h1 := List.filter (fun e => negb (expirado agora (snd e))) h).
  assert (Hin1 : In (n, v) h1).
  { apply List.filter_In. split; [exact Hin|]. cbn. now rewrite Hexp. }
  assert (Hnd1 : List.NoDup (List.map fst h1)) by now apply filter_NoDup_chaves.
  destruct (Nat.leb_spec (length h1) LIMITE_HISTORICO) as [Hle|Hgt].
  { now apply mapGet_presente. }
  rewrite remocoes_filter.
  set (ordenadas := ordenarPor (fun e : string * UltimoEnvio => timestamp (snd e)) h1).
  set (excedente := (length h1 - LIMITE_HISTORICO)%nat).
  apply mapGet_presente; [now apply filter_NoDup_chaves|].
  apply List.filter_In. split; [exact Hin1|].
  destruct (foraDe (firstn excedente ordenadas) (n, v)) eqn:Hfora; [reflexivity|].
  exfalso.
  apply foraDe_false in Hfora as ([k u] & Hd & Hk). cbn in Hk. subst k.
  assert (Hu : u = v).
  { apply (chave_unica h1 n u v Hnd1); [|exact Hin1].
    apply (ordenarPor_In (fun e : string * UltimoEnvio => timestamp (snd e))).
    eapply PollerFatos.firstn_In. exact Hd. }
  subst u.
  assert (Hdepois : Forall (fun e => recente (timestamp v) e = true)
                      (skipn excedente ordenadas)).
  { apply List.Forall_forall. intros b Hb. unfold recente. apply Z.leb_le.
    apply (crescente_firstn_skipn (fun e : string * UltimoEnvio => timestamp (snd e))
             excedente ordenadas (n, v) b); [apply ordenarPor_crescente | exact Hd | exact Hb]. }
  assert (Hantes : (1 <= length (List.filter (recente (timestamp v))
                                   (firstn excedente ordenadas)))%nat).
  { apply (filter_presente _ _ (n, v)); [exact Hd|]. unfold recente. apply Z.leb_le. cbn. lia. }
  assert (Htot : length (List.filter (recente (timestamp v)) ordenadas)
                 = length (List.filter (recente (timestamp v)) h1))
    by apply filter_ordenarPor_length.
  rewrite <- (List.firstn_skipn excedente ordenadas) in Htot at 1.
  rewrite List.filter_app, List.length_app, (filter_identidade _ _ Hdepois),
    List.length_skipn in Htot.
  assert (Hlo : length ordenadas = length h1) by apply ordenarPor_length.
  pose proof (filter_filter_length (recente (timestamp v))
                (fun e => negb (expirado agora (snd e))) h) as Hf.
  fold h1 in Hf. unfold excedente in *. lia.
Qed.

(** The history of a state holds the entry [v] of sender [n], and at most
    [c] entries as recent as [v]. *)
Definition guardado (n : string) (v : UltimoEnvio) (c : nat)
  (h : list (string * UltimoEnvio)) : Prop :=
  List.NoDup (chaves h)
  /\ mapGet n h = Some v
  /\ (length (List.filter (recente (timestamp v)) h) <= c)%nat.

(** The only entry that the history may hold for sender [n] is [v]. *)
Definition proprio (n : string) (v : UltimoEnvio) (h : list (string * UltimoEnvio)) : Prop :=
  List.NoDup (chaves h) /\ forall u, mapGet n h = Some u -> u = v.

Lemma aplicarSelecao_historico (s : Estado) (c : Selecao) :
  sorteioValido (sorteio c) ->
  exists i,
    ultimoEnvioPorNumero (aplicarSelecao s c)
    = if textoVerdadeiro (normalizarNumero (remetente c))
      then mapSet (normalizarNumero (remetente c))
             {| indice := i; timestamp := leitura c |}
             (limparHistoricoAntigo (leituraLimpeza c) (ultimoEnvioPorNumero s))
      else limparHistoricoAntigo (leituraLimpeza c) (ultimoEnvioPorNumero s).
Proof.
  intros Hr.
  destruct (selecionarComIndice_sorteado (remetente c) (leituraLimpeza c) (leitura c)
              (sorteio c) s Hr) as (i & k & _ & _ & Hsel).
  exists i. unfold aplicarSelecao, selecionarChavePixInteligente. rewrite Hsel. reflexivity.
Qed.

Lemma aplicarSelecao_guarda (n : string) (v : UltimoEnvio) (c0 : nat) (s : Estado)
  (c : Selecao) :
  sorteioValido (sorteio c) ->
  normalizarNumero (remetente c) <> n ->
  expirado (leituraLimpeza c) v = false ->
  (c0 <= LIMITE_HISTORICO)%nat ->
  guardado n v c0 (ultimoEnvioPorNumero s) ->
  guardado n v (S c0) (ultimoEnvioPorNumero (aplicarSelecao s c)).
Proof.
  intros Hr Hne Hexp Hc0 (Hnd & Hg & Hcont).
  destruct (aplicarSelecao_historico s c Hr) as (i & ->).
  set (L := limparHistoricoAntigo (leituraLimpeza c) (ultimoEnvioPorNumero s)).
  assert (HL : guardado n v c0 L).
  { split; [now apply limpar_NoDup|]. split.
    - apply limpar_sobrevive; [exact Hnd | exact Hg | exact Hexp | lia].
    - etransitivity; [apply filtrados_limpar | exact Hcont]. }
  destruct HL as (HndL & HgL & HcL).
  destruct (textoVerdadeiro (normalizarNumero (remetente c))).
  - split; [now apply mapSet_NoDup|]. split.
    + rewrite mapGet_mapSet_outro by congruence. exact HgL.
    + etransitivity; [apply recentes_mapSet | lia].
  - split; [exact HndL|]. split; [exact HgL | lia].
Qed.

Lemma executarSelecoes_guarda (n : string) (v : UltimoEnvio) (outras : list Selecao) :
  forall (c0 : nat) (s : Estado),
    Forall (fun c => sorteioValido (sorteio c)) outras ->
    Forall (fun c => normalizarNumero (remetente c) <> n) outras ->
    Forall (fun c => expirado (leituraLimpeza c) v = false) outras ->
    (c0 + length outras <= LIMITE_HISTORICO)%nat ->
    guardado n v c0 (ultimoEnvioPorNumero s) ->
    guardado n v (c0 + length outras) (ultimoEnvioPorNumero (executarSelecoes outras s)).
Proof.
  induction outras as [|c outras IH]; intros c0 s Hr Hne Hexp Hlen Hg.
  - cbn. now rewrite Nat.add_0_r.
  - cbn [length] in Hlen |- *.
    apply List.Forall_cons_iff in Hr as [Hr1 Hr].
    apply List.Forall_cons_iff in Hne as [Hne1 Hne].
    apply List.Forall_cons_iff in Hexp as [Hexp1 Hexp].
    replace (c0 + S (length outras))%nat with (S c0 + length outras)%nat by lia.
    cbn [executarSelecoes fold_left].
    apply (IH (S c0) (aplicarSelecao s c) Hr Hne Hexp); [lia|].
    apply aplicarSelecao_guarda; try assumption. lia.
Qed.

Lemma aplicarSelecao_proprio (n : string) (v : UltimoEnvio) (s : Estado) (c : Selecao) :
  sorteioValido (sorteio c) ->
  normalizarNumero (remetente c) <> n ->
  proprio n v (ultimoEnvioPorNumero s) ->
  proprio n v (ultimoEnvioPorNumero (aplicarSelecao s c)).
Proof.
  intros Hr Hne (Hnd & Hp).
  destruct (aplicarSelecao_historico s c Hr) as (i & ->).
  set (L := limparHistoricoAntigo (leituraLimpeza c) (ultimoEnvioPorNumero s)).
  assert (HL : proprio n v L).
  { split; [now apply limpar_NoDup|]. intros u Hu. apply Hp.
    apply mapGet_In, limpar_In in Hu. now apply mapGet_presente. }
  destruct HL as (HndL & HpL).
  destruct (textoVerdadeiro (normalizarNumero (remetente c))); [|split; assumption].
  split; [now apply mapSet_NoDup|].
  intros u Hu. rewrite mapGet_mapSet_outro in Hu by congruence. now apply HpL.
Qed.

Lemma executarSelecoes_proprio (n : string) (v : UltimoEnvio) (outras : list Selecao) :
  forall (s : Estado),
    Forall (fun c => sorteioValido (sorteio c)) outras ->
    Forall (fun c => normalizarNumero (remetente c) <> n) outras ->
    proprio n v (ultimoEnvioPorNumero s) ->
    proprio n v (ultimoEnvioPorNumero (executarSelecoes outras s)).
Proof.
  induction outras as [|c outras IH]; intros s Hr Hne Hp; [exact Hp|].
  apply List.Forall_cons_iff in Hr as [Hr1 Hr].
  apply List.Forall_cons_iff in Hne as [Hne1 Hne].
  cbn [executarSelecoes fold_left].
  apply (IH (aplicarSelecao s c) Hr Hne). now apply aplicarSelecao_proprio.
Qed.

(** C7 (amended): a sender whose normalized number is not empty selects at
    reading [T]; then come the selections [outras] of other senders, and
    then the same sender selects again, at reading [T2]; [t0] and [t2] are
    the readings of the two cleanings.  The other senders that hold an
    entry stamped [T] or later and the selections in between are together
    fewer than [LIMITE_HISTORICO].  Both calls return a key of [CHAVES_PIX].  When [T2 - T] is inside the
    block window the second key is not the first; when it is not, the
    candidates of the second call are all the indices.  Whatever happened
    before a call, it does not return the key of the sender's history entry
    while that entry is stored and younger than the block window. *)
Theorem anti_repeticao (numero : string) (t0 T t2 T2 : Z) (r1 r2 : Q)
  (outras : list Selecao) (s : Estado) :
  textoVerdadeiro (normalizarNumero numero) = true ->
  List.NoDup (chaves (ultimoEnvioPorNumero s)) ->
  sorteioValido r1 -> sorteioValido r2 ->
  Forall (fun c => sorteioValido (sorteio c)) outras ->
  Forall (fun c => normalizarNumero (remetente c) <> normalizarNumero numero) outras ->
  Forall (fun c => leituraLimpeza c <= T2) outras ->
  (length (List.filter (recenteDeOutro (normalizarNumero numero) T)
             (ultimoEnvioPorNumero s))
   + length outras < LIMITE_HISTORICO)%nat ->
  0 < T -> t2 <= T2 ->
  let n := normalizarNumero numero in
  let s1 := fst (selecionarChavePixInteligente numero t0 T r1 s) in
  let sm := executarSelecoes outras s1 in
  let k1 := snd (selecionarChavePixInteligente numero t0 T r1 s) in
  let k2 := snd (selecionarChavePixInteligente numero t2 T2 r2 sm) in
  (exists c1 c2,
      k1 = Some c1 /\ k2 = Some c2 /\ In c1 CHAVES_PIX /\ In c2 CHAVES_PIX
      /\ (T2 - T < INTERVALO_BLOQUEIO_REPETICAO_MS -> c1 <> c2))
  /\ (INTERVALO_BLOQUEIO_REPETICAO_MS <= T2 - T ->
      indicesCandidatos
        (ultimoEnvioDe n (limparHistoricoAntigo t2 (ultimoEnvioPorNumero sm))) T2
      = todosIndices)
  /\ (forall s' u,
        ultimoEnvioDe n (limparHistoricoAntigo t2 (ultimoEnvioPorNumero s')) = Some u ->
        T2 - timestamp u < INTERVALO_BLOQUEIO_REPETICAO_MS ->
        exists i c,
          snd (selecionarComIndice numero t2 T2 r2 s') = Some (i, c) /\ i <> indice u).
Proof.
  intros Hn Hnd Hr1 Hr2 Hrs Houtros Hantes Hlen HT HT2 n s1 sm k1 k2.
  fold n in Hn, Hlen, Houtros.
  set (c0 := length (List.filter (recenteDeOutro n T) (ultimoEnvioPorNumero s))) in *.
  destruct (selecionarComIndice_sorteado numero t0 T r1 s Hr1)
    as (i1 & c1 & Hnth1 & Hc1 & Hsel1).
  fold n in Hnth1, Hsel1. rewrite Hn in Hsel1.
  set (L := limparHistoricoAntigo t0 (ultimoEnvioPorNumero s)) in *.
  set (v := {| indice := i1; timestamp := T |}) in *.
  assert (Hs1 : ultimoEnvioPorNumero s1 = mapSet n v L).
  { unfold s1, selecionarChavePixInteligente. now rewrite Hsel1. }
  assert (Hk1 : k1 = Some c1).
  { unfold k1, selecionarChavePixInteligente. now rewrite Hsel1. }
  assert (HndL : List.NoDup (chaves L)) by now apply limpar_NoDup.
  assert (Hg1 : guardado n v (S c0) (ultimoEnvioPorNumero s1)).
  { rewrite Hs1. split; [now apply mapSet_NoDup|]. split; [apply mapGet_mapSet|].
    etransitivity; [apply (recentes_primeiro T n v L HndL)|].
    pose proof (filtrados_limpar (recenteDeOutro n T) t0 (ultimoEnvioPorNumero s)) as Hf.
    fold L in Hf. cbn [timestamp v]. unfold c0. lia. }
  assert (Hp1 : proprio n v (ultimoEnvioPorNumero s1)).
  { destruct Hg1 as (H1 & H2 & _). split; [exact H1|]. intros u Hu. congruence. }
  destruct (selecionarComIndice_sorteado numero t2 T2 r2 sm Hr2)
    as (i2 & c2 & Hnth2 & Hc2 & Hsel2).
  fold n in Hnth2.
  assert (Hk2 : k2 = Some c2).
  { unfold k2, selecionarChavePixInteligente. now rewrite Hsel2. }
  assert (Hi1 : i1 = 0%nat \/ i1 = 1%nat).
  { assert (i1 < 2)%nat; [|lia].
    change 2%nat with (length CHAVES_PIX). apply nth_error_Some. congruence. }
  split; [|split].
  3:{ intros s' u Hu Hjanela.
      now apply (selecao_evita_bloqueada numero t2 T2 r2 s' u Hr2 Hu Hjanela). }
  - exists c1, c2. repeat split; try assumption;
      try (eapply nth_error_In; eassumption).
    intros Hjanela.
    assert (Hexp : forall a, a <= T2 -> expirado a v = false).
    { intros a Ha. unfold expirado, RETENCAO_HISTORICO_MS. cbn [timestamp v].
      unfold INTERVALO_BLOQUEIO_REPETICAO_MS in Hjanela.
      apply orb_false_iff. split; [apply Z.eqb_neq; lia | apply Z.ltb_ge; lia]. }
    assert (Hgm : guardado n v (S c0 + length outras) (ultimoEnvioPorNumero sm)).
    { apply executarSelecoes_guarda; [exact Hrs | exact Houtros | | lia | exact Hg1].
      eapply List.Forall_impl; [|exact Hantes]. intros c Hc. now apply Hexp. }
    destruct Hgm as (Hndm & Hgm & Hcm).
    assert (Hget : mapGet n (limparHistoricoAntigo t2 (ultimoEnvioPorNumero sm)) = Some v).
    { apply limpar_sobrevive; [exact Hndm | exact Hgm | now apply Hexp | lia]. }
    unfold ultimoEnvioDe in Hnth2. rewrite Hn, Hget, indicesCandidatos_dois in Hnth2.
    cbn [timestamp indice v] in Hnth2.
    replace (T2 - T <? INTERVALO_BLOQUEIO_REPETICAO_MS) with true in Hnth2
      by (symmetry; apply Z.ltb_lt; exact Hjanela).
    destruct Hi1 as [-> | ->]; rewrite grupoSorteio_um in Hnth2;
      apply nth_error_In in Hnth2; destruct Hnth2 as [<-|[]];
      cbn in Hc1, Hc2; congruence.
  - intros Hfora. rewrite indicesCandidatos_dois.
    destruct (ultimoEnvioDe n (limparHistoricoAntigo t2 (ultimoEnvioPorNumero sm)))
      as [u|] eqn:Hu; [|reflexivity].
    unfold ultimoEnvioDe in Hu. rewrite Hn in Hu.
    destruct (executarSelecoes_proprio n v outras s1 Hrs Houtros Hp1) as (Hndm & Hpm).
    apply mapGet_In, limpar_In in Hu.
    assert (Hv : u = v) by (apply Hpm; now apply mapGet_presente).
    subst u. cbn [timestamp v].
    replace (T2 - T <? INTERVALO_BLOQUEIO_REPETICAO_MS) with false
      by (symmetry; apply Z.ltb_ge; exact Hfora).
    reflexivity.
Qed.

(** *** Examples *)

(** One hour after the first key, and after another sender received a key
    in between, the same sender receives another key. *)
Lemma anti_repeticao_exemplo :
  let outra := {| remetente := "5586933334444"; leituraLimpeza := 2000;
                  leitura := 2000; sorteio := 0 |} in
  let s1 := fst (selecionarChavePixInteligente "5586911112222" 1000 1000 0 inicial) in
  let sm := executarSelecoes [outra] s1 in
  exists c1 c2,
    snd (selecionarChavePixInteligente "5586911112222" 1000 1000 0 inicial) = Some c1
    /\ snd (selecionarChavePixInteligente "5586911112222" 3601000 3601000 0 sm) = Some c2
    /\ c1 <> c2.
Proof.
  cbn zeta.
  destruct (anti_repeticao "5586911112222" 1000 1000 3601000 3601000 0 0
              [ {| remetente := "5586933334444"; leituraLimpeza := 2000;
                   leitura := 2000; sorteio := 0 |} ] inicial
              eq_refl (List.NoDup_nil _)
              sorteioValido_zero sorteioValido_zero)
    as [(c1 & c2 & H1 & H2 & _ & _ & Hne) _].
  - repeat constructor; discriminate.
  - repeat constructor. vm_compute. discriminate.
  - repeat constructor. cbn. lia.
  - unfold LIMITE_HISTORICO. cbn. lia.
  - lia.
  - lia.
  - exists c1, c2. split; [exact H1|]. split; [exact H2|].
    apply Hne. unfold INTERVALO_BLOQUEIO_REPETICAO_MS. lia.
Defined.

(** *** More senders than the history holds *)

(** Sender number [k] of a long run of distinct senders. *)
Definition outro (k : nat) : string :=
  "55868" +:+ NilEmpty.string_of_uint (Nat.to_uint k).

Definition selecaoDe (k : nat) : Selecao :=
  {| remetente := outro k; leituraLimpeza := 2000 + Z.of_nat k;
     leitura := 2000 + Z.of_nat k; sorteio := 0 |}.

(** One selection more than the history holds, each by a new sender. *)
Definition outrasSelecoes : list Selecao :=
  List.map selecaoDe (seq 0 (S LIMITE_HISTORICO)).

Lemma decimal_digitos (d : Decimal.uint) :
  apenasDigitos (NilEmpty.string_of_uint d) = NilEmpty.string_of_uint d.
Proof.
  unfold apenasDigitos. induction d; cbn; [reflexivity | now rewrite IHd ..].
Qed.

Lemma outro_normalizado (k : nat) : normalizarNumero (outro k) = outro k.
Proof.
  unfold normalizarNumero, apenasDigitos, outro.
  rewrite filtrarTexto_append. fold (apenasDigitos (NilEmpty.string_of_uint (Nat.to_uint k))).
  now rewrite decimal_digitos.
Qed.

Lemma outro_verdadeiro (k : nat) : textoVerdadeiro (outro k) = true.
Proof. unfold outro. now rewrite append_cons. Qed.

Lemma outro_injetiva (a b : nat) : outro a = outro b -> a = b.
Proof.
  unfold outro. rewrite !append_cons, !append_nil. intros [= H].
  apply (f_equal NilEmpty.uint_of_string) in H. rewrite !NilEmpty.usu in H.
  injection H as H. apply (f_equal Nat.of_uint) in H.
  now rewrite !Unsigned.of_to in H.
Qed.

Lemma outro_distinto (k : nat) : outro k <> "5586911112222".
Proof. unfold outro. rewrite !append_cons. discriminate. Qed.

(** The senders and the timestamps of a history, in its order. *)
Definition perfil (h : list (string * UltimoEnvio)) : list (string * Z) :=
  List.map (fun e => (fst e, timestamp (snd e))) h.

(** The history after the first sender and [j] of the others. *)
Definition perfilApos (j : nat) : list (string * Z) :=
  ("5586911112222", 1000) :: List.map (fun k => (outro k, 2000 + Z.of_nat k)) (seq 0 j).

Lemma perfil_chaves (h : list (string * UltimoEnvio)) :
  chaves h = List.map fst (perfil h).
Proof. unfold chaves, perfil. rewrite List.map_map. reflexivity. Qed.

Lemma perfil_In (h : list (string * UltimoEnvio)) (e : string * UltimoEnvio) :
  In e h -> In (fst e, timestamp (snd e)) (perfil h).
Proof. intros H. unfold perfil. apply List.in_map_iff. eauto. Qed.

Lemma perfilApos_In (j : nat) (k : string) (t : Z) :
  In (k, t) (perfilApos j) ->
  1000 <= t < 2000 + Z.of_nat j
  /\ (k = "5586911112222" \/ exists i, (i < j)%nat /\ k = outro i).
Proof.
  intros [[= <- <-]|H]; [split; [lia | now left]|].
  apply List.in_map_iff in H as (i & [= <- <-] & Hi).
  apply List.in_seq in Hi. split; [lia|]. right. exists i. split; [lia | reflexivity].
Qed.

Lemma perfil_cabeca (e : string * UltimoEnvio) (resto : list (string * UltimoEnvio))
  (k : string) (t : Z) (l : list (string * Z)) :
  perfil (e :: resto) = (k, t) :: l -> fst e = k.
Proof. intros H. now injection H. Qed.

Lemma perfil_crescente (h : list (string * UltimoEnvio)) :
  crescente snd (perfil h) ->
  crescente (fun e : string * UltimoEnvio => timestamp (snd e)) h.
Proof.
  induction h as [|e h IH]; [auto|]. cbn. intros [He Hh]. split; [|now apply IH].
  apply List.Forall_forall. intros y Hy. rewrite List.Forall_forall in He.
  apply (He (fst y, timestamp (snd y))). now apply perfil_In.
Qed.

Lemma perfilApos_crescente (j : nat) : crescente snd (perfilApos j).
Proof.
  unfold perfilApos. cbn [crescente]. split.
  - apply List.Forall_forall. intros [k t] H. apply List.in_map_iff in H as (i & [= <- <-] & _).
    cbn. lia.
  - generalize 0%nat as a. induction j as [|j IH]; intros a; [exact I|].
    cbn [seq List.map crescente]. split; [|apply IH].
    apply List.Forall_forall. intros [k t] H.
    apply List.in_map_iff in H as (i & [= <- <-] & Hi). apply List.in_seq in Hi. cbn. lia.
Qed.

Lemma perfilApos_NoDup (j : nat) : List.NoDup (List.map fst (perfilApos j)).
Proof.
  unfold perfilApos. cbn [List.map fst]. rewrite List.map_map. cbn [fst].
  constructor.
  - intros H. apply List.in_map_iff in H as (i & Hi & _). now apply (outro_distinto i).
  - apply NoDup_map_injetiva; [exact outro_injetiva | apply List.seq_NoDup].
Qed.

Lemma perfilApos_novo (j : nat) : ~ In (outro j) (List.map fst (perfilApos j)).
Proof.
  unfold perfilApos. cbn [List.map fst]. rewrite List.map_map. cbn [fst].
  intros [H|H]; [now apply (outro_distinto j)|].
  apply List.in_map_iff in H as (i & Hi & Hin). apply outro_injetiva in Hi. subst i.
  apply List.in_seq in Hin. lia.
Qed.

Lemma perfilApos_S (j : nat) :
  perfilApos (S j) = perfilApos j ++ [(outro j, 2000 + Z.of_nat j)].
Proof. unfold perfilApos. rewrite List.seq_S, List.map_app. reflexivity. Qed.

(** Nothing of such a history is expired when sender [j] selects. *)
Lemma perfilApos_validos (j : nat) (h : list (string * UltimoEnvio)) :
  perfil h = perfilApos j -> (j <= LIMITE_HISTORICO)%nat ->
  List.filter (fun e => negb (expirado (2000 + Z.of_nat j) (snd e))) h = h.
Proof.
  intros Hp Hj. apply filter_identidade. apply List.Forall_forall. intros e He.
  apply perfil_In in He. rewrite Hp in He. apply perfilApos_In in He as [Ht _].
  apply negb_true_iff, expirado_false.
  unfold RETENCAO_HISTORICO_MS, LIMITE_HISTORICO in *. lia.
Qed.

(** While the history is within its limit, sender [j] is appended to it. *)
Lemma outro_acrescentado (j : nat) (s : Estado) :
  perfil (ultimoEnvioPorNumero s) = perfilApos j ->
  (j < LIMITE_HISTORICO)%nat ->
  perfil (ultimoEnvioPorNumero (aplicarSelecao s (selecaoDe j))) = perfilApos (S j).
Proof.
  intros Hp Hj.
  destruct (aplicarSelecao_historico s (selecaoDe j) sorteioValido_zero) as (i & ->).
  cbn [remetente leituraLimpeza leitura selecaoDe].
  rewrite outro_normalizado, outro_verdadeiro.
  assert (Hlen : length (ultimoEnvioPorNumero s) = S j).
  { rewrite <- (List.length_map (fun e => (fst e, timestamp (snd e)))).
    fold (perfil (ultimoEnvioPorNumero s)). rewrite Hp. unfold perfilApos. cbn [length].
    now rewrite List.length_map, List.length_seq. }
  assert (HL : limparHistoricoAntigo (2000 + Z.of_nat j) (ultimoEnvioPorNumero s)
               = ultimoEnvioPorNumero s).
  { unfold limparHistoricoAntigo. rewrite (perfilApos_validos j) by (auto; lia).
    rewrite Hlen. destruct (Nat.leb_spec (S j) LIMITE_HISTORICO); [reflexivity | lia]. }
  rewrite HL, mapSet_ausente.
  - unfold perfil in *. rewrite List.map_app, Hp, perfilApos_S. reflexivity.
  - apply mapGet_ausente. fold (chaves (ultimoEnvioPorNumero s)).
    rewrite perfil_chaves, Hp. apply perfilApos_novo.
Qed.

Lemma executarSelecoes_app (a b : list Selecao) (s : Estado) :
  executarSelecoes (a ++ b) s = executarSelecoes b (executarSelecoes a s).
Proof. unfold executarSelecoes. apply List.fold_left_app. Qed.

Lemma outros_acrescentados (s : Estado) (j : nat) :
  perfil (ultimoEnvioPorNumero s) = perfilApos 0 ->
  (j <= LIMITE_HISTORICO)%nat ->
  perfil (ultimoEnvioPorNumero (executarSelecoes (List.map selecaoDe (seq 0 j)) s))
  = perfilApos j.
Proof.
  intros Hp. induction j as [|j IH]; intros Hj; [exact Hp|].
  rewrite List.seq_S, List.map_app, executarSelecoes_app. cbn [List.map Nat.add].
  apply outro_acrescentado; [apply IH; lia | lia].
Qed.

(** On a full history the next sender takes the place of the oldest
    entry, the one of the first sender. *)
Lemma primeiro_removido (s : Estado) :
  perfil (ultimoEnvioPorNumero s) = perfilApos LIMITE_HISTORICO ->
  ~ In "5586911112222"
      (chaves (ultimoEnvioPorNumero (aplicarSelecao s (selecaoDe LIMITE_HISTORICO)))).
Proof.
  intros Hp.
  destruct (aplicarSelecao_historico s (selecaoDe LIMITE_HISTORICO) sorteioValido_zero)
    as (i & ->).
  cbn [remetente leituraLimpeza leitura selecaoDe].
  rewrite outro_normalizado, outro_verdadeiro.
  set (h := ultimoEnvioPorNumero s) in *.
  assert (Hlen : length h = S LIMITE_HISTORICO).
  { rewrite <- (List.length_map (fun e => (fst e, timestamp (snd e)))).
    fold (perfil h). rewrite Hp. unfold perfilApos. cbn [length].
    now rewrite List.length_map, List.length_seq. }
  assert (Hnd : List.NoDup (chaves h)).
  { rewrite perfil_chaves, Hp. apply perfilApos_NoDup. }
  assert (Hcr : crescente (fun e : string * UltimoEnvio => timestamp (snd e)) h).
  { apply perfil_crescente. rewrite Hp. apply perfilApos_crescente. }
  destruct h as [|e resto] eqn:Hh; [discriminate|].
  assert (He : fst e = "5586911112222")
    by exact (perfil_cabeca e resto _ _ _ Hp).
  assert (HL : limparHistoricoAntigo (2000 + Z.of_nat LIMITE_HISTORICO) (e :: resto)
               = resto).
  { unfold limparHistoricoAntigo.
    rewrite (perfilApos_validos LIMITE_HISTORICO (e :: resto) Hp (le_n _)).
    rewrite Hlen. destruct (Nat.leb_spec (S LIMITE_HISTORICO) LIMITE_HISTORICO); [lia|].
    rewrite (ordenarPor_ordenada _ _ Hcr).
    replace (S LIMITE_HISTORICO - LIMITE_HISTORICO)%nat with 1%nat by lia.
    cbn [firstn fold_left]. unfold mapDelete. cbn [List.filter].
    rewrite String.eqb_refl. cbn [negb].
    apply filter_identidade. apply List.Forall_forall. intros x Hx.
    apply negb_true_iff. apply String.eqb_neq. intros Heq.
    cbn in Hnd. apply List.NoDup_cons_iff in Hnd as [Hfora _]. apply Hfora.
    rewrite Heq. apply List.in_map_iff. eauto. }
  rewrite HL.
  intros Hin. apply chaves_mapSet in Hin. destruct Hin as [Hin|Hin].
  - now apply (outro_distinto LIMITE_HISTORICO).
  - cbn in Hnd. apply List.NoDup_cons_iff in Hnd as [Hfora _]. apply Hfora.
    now rewrite He.
Qed.

(** The first selection, from the initial state. *)
Lemma primeira_selecao :
  let r := selecionarChavePixInteligente "5586911112222" 1000 1000 0 inicial in
  snd r = nth_error CHAVES_PIX 0
  /\ perfil (ultimoEnvioPorNumero (fst r)) = perfilApos 0
  /\ uso (usoPorIndice (fst r)) 0 = 1%nat
  /\ uso (usoPorIndice (fst r)) 1 = 0%nat.
Proof. vm_compute. repeat split. Qed.

(** A sender without an entry in the history, when both keys were used
    equally often and [Math.random()] reads 0, receives the first key. *)
Lemma selecao_em_empate (numero : string) (t0 t : Z) (s : Estado) :
  ~ In (normalizarNumero numero) (chaves (ultimoEnvioPorNumero s)) ->
  uso (usoPorIndice s) 0 = uso (usoPorIndice s) 1 ->
  snd (selecionarChavePixInteligente numero t0 t 0 s) = nth_error CHAVES_PIX 0.
Proof.
  intros Hfora Huso.
  destruct (selecionarComIndice_sorteado numero t0 t 0 s sorteioValido_zero)
    as (i & c & Hnth & Hc & Hsel).
  assert (Hue : ultimoEnvioDe (normalizarNumero numero)
                  (limparHistoricoAntigo t0 (ultimoEnvioPorNumero s)) = None).
  { unfold ultimoEnvioDe. destruct (textoVerdadeiro (normalizarNumero numero)); [|reflexivity].
    apply mapGet_ausente. intros Hin. apply Hfora.
    exact (chaves_limpar t0 (ultimoEnvioPorNumero s) _ Hin). }
  rewrite Hue, indicesCandidatos_dois, grupoSorteio_dois, Huso, Nat.ltb_irrefl in Hnth.
  change (nth_error [0%nat; 1%nat] (indiceAleatorio 0 (length [0%nat; 1%nat])))
    with (Some 0%nat) in Hnth.
  injection Hnth as <-.
  unfold selecionarChavePixInteligente. rewrite Hsel. cbn [snd option_map]. now rewrite Hc.
Qed.

Lemma outrasSelecoes_length : length outrasSelecoes = S LIMITE_HISTORICO.
Proof. unfold outrasSelecoes. now rewrite List.length_map, List.length_seq. Qed.

(** After the first sender and the run of other senders both keys were
    used equally often, and the history no longer holds the first sender. *)
Lemma apos_outras_selecoes (s0 : Estado) :
  perfil (ultimoEnvioPorNumero s0) = perfilApos 0 ->
  uso (usoPorIndice s0) 0 = 1%nat ->
  uso (usoPorIndice s0) 1 = 0%nat ->
  let sm := executarSelecoes outrasSelecoes s0 in
  uso (usoPorIndice sm) 0 = uso (usoPorIndice sm) 1
  /\ ~ In "5586911112222" (chaves (ultimoEnvioPorNumero sm)).
Proof.
  intros Hp0 Hu0 Hu1 sm.
  assert (Hnorm : normalizados outrasSelecoes
                  = List.map outro (seq 0 (S LIMITE_HISTORICO))).
  { unfold normalizados, outrasSelecoes. rewrite List.map_map.
    apply List.map_ext. intros k. apply outro_normalizado. }
  split.
  - pose proof (executarSelecoes_equilibrio outrasSelecoes s0 ["5586911112222"]) as H.
    cbn zeta in H. fold sm in H. rewrite Hu0, Hu1, outrasSelecoes_length in H.
    destruct H as (H1 & H2 & H3).
    + rewrite perfil_chaves, Hp0. apply incl_refl.
    + rewrite Hnorm. apply NoDup_map_injetiva; [exact outro_injetiva | apply List.seq_NoDup].
    + rewrite Hnorm. intros n Hn [Heq|[]].
      apply List.in_map_iff in Hn as (k & Hk & _). apply (outro_distinto k). congruence.
    + apply List.Forall_forall. intros c Hc. unfold outrasSelecoes in Hc.
      apply List.in_map_iff in Hc as (k & <- & _). exact sorteioValido_zero.
    + lia.
    + lia.
    + unfold LIMITE_HISTORICO in H3. lia.
  - unfold sm, outrasSelecoes.
    rewrite List.seq_S, List.map_app, executarSelecoes_app. cbn [List.map Nat.add].
    apply primeiro_removido. apply outros_acrescentados; [exact Hp0 | lia].
Qed.

(** C7, as the specification states it, for every requester.  A sender
    whose number holds no digit is not recorded in the history: after
    another sender received the first key, such a sender receives the
    second key and, one hour later, the second key again.  And the history
    holds [LIMITE_HISTORICO] senders: a sender receives the first key;
    within the hour [LIMITE_HISTORICO + 1] other senders select, which
    deletes the entry of the first sender, the oldest; one hour after the
    first key the first sender receives the first key again. *)
Lemma anti_repeticao_contraexemplo :
  let s0 := fst (selecionarChavePixInteligente "5586911112222" 1000 1000 0 inicial) in
  let s1 := fst (selecionarChavePixInteligente "" 2000 2000 0 s0) in
  let sm := executarSelecoes outrasSelecoes s0 in
  (snd (selecionarChavePixInteligente "" 2000 2000 0 s0) = nth_error CHAVES_PIX 1
   /\ snd (selecionarChavePixInteligente "" 3602000 3602000 (1 # 2) s1)
      = nth_error CHAVES_PIX 1
   /\ 3602000 - 2000 < INTERVALO_BLOQUEIO_REPETICAO_MS)
  /\ (length outrasSelecoes = S LIMITE_HISTORICO
      /\ Forall (fun c => normalizarNumero (remetente c) <> "5586911112222"
                          /\ 1000 < leitura c < 3601000
                          /\ sorteio c = 0%Q) outrasSelecoes
      /\ snd (selecionarChavePixInteligente "5586911112222" 1000 1000 0 inicial)
         = nth_error CHAVES_PIX 0
      /\ snd (selecionarChavePixInteligente "5586911112222" 3601000 3601000 0 sm)
         = nth_error CHAVES_PIX 0
      /\ 3601000 - 1000 < INTERVALO_BLOQUEIO_REPETICAO_MS).
Proof.
  split; [vm_compute; repeat split|].
  destruct primeira_selecao as (Hk1 & Hp0 & Hu0 & Hu1).
  destruct (apos_outras_selecoes _ Hp0 Hu0 Hu1) as (Huso & Hfora).
  split; [exact outrasSelecoes_length|].
  split.
  { unfold outrasSelecoes. apply List.Forall_forall. intros c Hc.
    apply List.in_map_iff in Hc as (k & <- & Hk). apply List.in_seq in Hk.
    cbn [remetente leitura sorteio selecaoDe]. rewrite outro_normalizado.
    split; [apply outro_distinto|]. unfold LIMITE_HISTORICO in Hk. split; [lia | reflexivity]. }
  split; [exact Hk1|].
  split; [|unfold INTERVALO_BLOQUEIO_REPETICAO_MS; lia].
  exact (selecao_em_empate "5586911112222" 3601000 3601000 _ Hfora Huso).
Qed.

End RepeticaoFatos.

(** ** Anti-spam bookkeeping and the settings cache *)

Module ConfiguracoesFatos.
Import JS Respostas Configuracoes.

(** X20: the anti-spam table forgets.  After [registrarResposta] the
    sender's entry is the time of the call, no entry is older than one
    hour, every other entry that is at most one hour old is kept as it
    was, and no entry appears from nowhere. *)
Theorem registrarResposta_retencao (agora : Z) (numero : string) (m : gmap string Z) :
  let m' := registrarResposta agora numero m in
  m' !! numero = Some agora
  /\ (forall k t, m' !! k = Some t -> agora - t <= 60 * 60 * 1000)
  /\ (forall k t, k <> numero -> m !! k = Some t -> agora - t <= 60 * 60 * 1000 ->
        m' !! k = Some t)
  /\ (forall k t, m' !! k = Some t -> k = numero \/ m !! k = Some t).
Proof.
  intros m'. subst m'. unfold registrarResposta.
  split; [|split; [|split]].
  - apply map_lookup_filter_Some. split; [apply lookup_insert_eq | cbn; lia].
  - intros k t H. apply map_lookup_filter_Some in H as [_ H]. cbn in H. lia.
  - intros k t Hk Hm Ht. apply map_lookup_filter_Some.
    split; [now rewrite lookup_insert_ne by congruence | cbn; lia].
  - intros k t H. apply map_lookup_filter_Some in H as [H _].
    apply lookup_insert_Some in H as [[-> _]|[_ H]]; auto.
Qed.

(** X21: [resetarAntiSpam] reopens the window.  After the reset of a
    number that number may be answered at once, whatever the clock reads,
    and the entries of the other numbers are as they were; a reset without
    a number, or with the empty text, forgets every sender. *)
Theorem resetarAntiSpam_libera (numero : option string) (m : gmap string Z) (agora : Z) :
  (forall n, numero = Some n -> textoVerdadeiro n = true ->
     podeResponder agora n (resetarAntiSpam numero m) = true
     /\ forall k, k <> n -> resetarAntiSpam numero m !! k = m !! k)
  /\ (verdadeiro numero = false ->
      forall k, podeResponder agora k (resetarAntiSpam numero m) = true).
Proof.
  split.
  - intros n -> Hn. unfold resetarAntiSpam. rewrite Hn. split.
    + unfold podeResponder. now rewrite lookup_delete_eq.
    + intros k Hk. now rewrite lookup_delete_ne by congruence.
  - intros Hv k. unfold resetarAntiSpam, podeResponder.
    destruct numero as [n|]; cbn in Hv; [rewrite Hv|]; now rewrite lookup_empty.
Qed.

(** X22: a failed reload never loses the settings.  After a load that
    fetched the rows at time [agora0], every later call that comes within
    five minutes, or whose query fails, answers the settings built from
    those rows and leaves the cache as it was: inside the five minutes the
    answer of Supabase is not even looked at. *)
Theorem configuracoes_sobrevivem_a_falhas (agora0 : Z) (data : list (string * string))
  (c : Cache) (agora : Z) (resposta : RespostaSupabase (list (string * string))) :
  agora0 <> 0 ->
  cacheValido agora0 c = false ->
  agora - agora0 < INTERVALO_CACHE_CONFIG_MS \/ (exists erro, resposta = Falha erro) ->
  let primeira := carregarConfiguracoesLoja agora0 (Dados data) c in
  fst primeira = montarConfiguracoes data
  /\ carregarConfiguracoesLoja agora resposta (snd primeira)
     = (montarConfiguracoes data, snd primeira).
Proof.
  intros H0 Hinv Hcaso primeira.
  assert (Hp : primeira
               = (montarConfiguracoes data,
                  {| configuracoesLoja := Some (montarConfiguracoes data);
                     ultimaAtualizacaoConfig := Some agora0 |})).
  { subst primeira. unfold carregarConfiguracoesLoja. now rewrite Hinv. }
  rewrite Hp. cbn [fst snd]. split; [reflexivity|].
  unfold carregarConfiguracoesLoja, cacheValido. cbn.
  replace (agora0 =? 0) with false by (symmetry; now apply Z.eqb_neq). cbn [negb andb].
  destruct (Z.ltb_spec (agora - agora0) INTERVALO_CACHE_CONFIG_MS) as [Hlt|Hge];
    [reflexivity|].
  destruct Hcaso as [Hlt|(erro & ->)]; [lia | reflexivity].
Qed.

Definition cacheVazio : Cache :=
  {| configuracoesLoja := None; ultimaAtualizacaoConfig := None |}.

Lemma configuracoes_sobrevivem_a_falhas_exemplo :
  let primeira := carregarConfiguracoesLoja 1700000000000
                    (Dados [("manual_status", "closed")]) cacheVazio in
  fst (carregarConfiguracoesLoja 1700000900000 (Falha "timeout") (snd primeira))
    !! "manual_status" = Some "closed".
Proof.
  cbn zeta.
  destruct (configuracoes_sobrevivem_a_falhas 1700000000000
              [("manual_status", "closed")] cacheVazio 1700000900000 (Falha "timeout"))
    as [_ H].
  - discriminate.
  - reflexivity.
  - right. eauto.
  - rewrite H. reflexivity.
Defined.

End ConfiguracoesFatos.

(** ** Easter *)

Module CalendarioFatos.
Import Calendario.

(** X23: [calcularPascoa] always answers a date between 22 March and
    25 April, for every year from 0 on. *)
Theorem pascoa_entre_marco_e_abril (ano : Z) :
  0 <= ano ->
  let mes := fst (calcularPascoa ano) in
  let dia := snd (calcularPascoa ano) in
  (mes = 3 /\ 22 <= dia <= 31) \/ (mes = 4 /\ 1 <= dia <= 25).
Proof.
  intros H. unfold calcularPascoa. cbn [fst snd].
  set (a := Z.rem ano 19).
  set (b := ano / 100).
  set (c := Z.rem ano 100).
  set (d := b / 4).
  set (e := Z.rem b 4).
  set (f := (b + 8) / 25).
  set (g := (b - f + 1) / 3).
  assert (Ha : 0 <= a < 19) by (apply Z.rem_bound_pos; lia).
  assert (Hb : 0 <= b) by (apply Z.div_pos; lia).
  assert (Hc : 0 <= c < 100) by (apply Z.rem_bound_pos; lia).
  assert (Hd : 0 <= d /\ 4 * d <= b)
    by (split; [apply Z.div_pos; lia | apply Z.mul_div_le; lia]).
  assert (He : 0 <= e < 4) by (apply Z.rem_bound_pos; lia).
  assert (Hf : 0 <= f /\ 25 * f <= b + 8)
    by (split; [apply Z.div_pos; lia | apply Z.mul_div_le; lia]).
  assert (Hg : 3 * g <= b - f + 1) by (apply Z.mul_div_le; lia).
  set (h := Z.rem (19 * a + b - d - g + 15) 30).
  assert (Hh : 0 <= h < 30) by (apply Z.rem_bound_pos; lia).
  set (i := c / 4).
  assert (Hi : 0 <= i) by (apply Z.div_pos; lia).
  set (k := Z.rem c 4).
  assert (Hk : 0 <= k < 4) by (apply Z.rem_bound_pos; lia).
  set (l := Z.rem (32 + 2 * e + 2 * i - h - k) 7).
  assert (Hl : 0 <= l < 7) by (apply Z.rem_bound_pos; lia).
  set (m := (a + 11 * h + 22 * l) / 451).
  assert (Hm : 451 * m <= a + 11 * h + 22 * l < 451 * m + 451).
  { unfold m. split; [apply Z.mul_div_le; lia|].
    pose proof (Z.mul_succ_div_gt (a + 11 * h + 22 * l) 451 ltac:(lia)). lia. }
  set (v := h + l - 7 * m + 114).
  assert (Hv : 114 <= v <= 148) by (unfold v; lia).
  rewrite Z.rem_mod_nonneg by lia.
  pose proof (Z.div_mod v 31 ltac:(lia)) as Hdm.
  pose proof (Z.mod_pos_bound v 31 ltac:(lia)) as Hmb.
  assert (v / 31 = 3 \/ v / 31 = 4) as [Hq|Hq] by lia; rewrite Hq in *; lia.
Qed.

(** Easter of 2024 was 31 March, Easter of 2025 is 20 April. *)
Lemma pascoa_entre_marco_e_abril_exemplo :
  calcularPascoa 2024 = (3, 31) /\ calcularPascoa 2025 = (4, 20)
  /\ ((fst (calcularPascoa 2025) = 3 /\ 22 <= snd (calcularPascoa 2025) <= 31)
      \/ (fst (calcularPascoa 2025) = 4 /\ 1 <= snd (calcularPascoa 2025) <= 25)).
Proof.
  split; [reflexivity|]. split; [reflexivity|].
  apply (pascoa_entre_marco_e_abril 2025). lia.
Defined.

End CalendarioFatos.

(** ** Keyword detection: a PIX request is always recognised *)

Module DeteccaoFatos.
Import JS Respostas Deteccao TextoFatos.

Lemma prefix_vazio (s : string) : String.prefix "" s = true.
Proof. now destruct s. Qed.

Lemma prefix_cons (a b : ascii) (t s : string) :
  String.prefix (String a t) (String b s) = true <-> a = b /\ String.prefix t s = true.
Proof.
  cbn [String.prefix]. destruct (ascii_dec a b) as [->|Hne].
  - split; [auto | now intros [_ H]].
  - split; [discriminate | now intros [H _]].
Qed.

Lemma includes_prefix (t s : string) :
  String.prefix t s = true -> includes t s = true.
Proof. intros H. destruct s; cbn [includes]; now rewrite H. Qed.

Lemma includes_cons (t : string) (c : ascii) (s : string) :
  includes t s = true -> includes t (String c s) = true.
Proof. intros H. cbn [includes]. rewrite H. apply orb_true_r. Qed.

Lemma includes_vazio (t : string) : includes t "" = true -> t = "".
Proof. destruct t; [reflexivity | discriminate]. Qed.

(** *** Removing characters that are not in the term *)

Lemma prefix_filtrarTexto (f : ascii -> bool) (t s : string) :
  todos f t = true -> String.prefix t s = true ->
  String.prefix t (filtrarTexto f s) = true.
Proof.
  revert s. induction t as [|a t IH]; intros s Ht Hp; [apply prefix_vazio|].
  destruct s as [|b s]; [discriminate|].
  apply prefix_cons in Hp as [<- Hp]. cbn in Ht. apply andb_prop in Ht as [Ha Ht].
  cbn [filtrarTexto]. rewrite Ha. apply prefix_cons. split; [reflexivity|]. now apply IH.
Qed.

Lemma includes_filtrarTexto (f : ascii -> bool) (t s : string) :
  todos f t = true -> includes t s = true -> includes t (filtrarTexto f s) = true.
Proof.
  intros Ht. induction s as [|c s IH]; intros Hi; [exact Hi|].
  cbn [includes] in Hi. apply orb_prop in Hi as [Hp|Hi].
  - apply includes_prefix. now apply prefix_filtrarTexto.
  - cbn [filtrarTexto]. destruct (f c); [apply includes_cons|]; now apply IH.
Qed.

(** *** Trimming *)

(** A term that neither starts nor ends with a blank, and is not empty. *)
Definition semBrancosNasPontas (t : string) : bool :=
  match t with
  | EmptyString => false
  | String a _ => negb (ehEspaco a) && String.eqb (trimEnd t) t
  end.

Lemma includes_trimStart (t s : string) :
  semBrancosNasPontas t = true -> includes t s = true -> includes t (trimStart s) = true.
Proof.
  intros Ht. destruct t as [|a t]; [discriminate|].
  cbn [semBrancosNasPontas] in Ht. apply andb_prop in Ht as [Ha _].
  apply negb_true_iff in Ha.
  induction s as [|c s IH]; intros Hi; [exact Hi|].
  cbn [trimStart]. destruct (ehEspaco c) eqn:Hc; [|exact Hi].
  cbn [includes] in Hi. apply orb_prop in Hi as [Hp|Hi]; [|now apply IH].
  apply prefix_cons in Hp as [-> _]. congruence.
Qed.

Lemma trimEnd_cons (c : ascii) (s : string) :
  trimEnd s <> "" -> trimEnd (String c s) = String c (trimEnd s).
Proof. intros H. cbn [trimEnd]. destruct (trimEnd s); [now elim H | reflexivity]. Qed.

Lemma trimEnd_fixo_cauda (a : ascii) (t : string) :
  t <> "" -> trimEnd (String a t) = String a t -> trimEnd t = t /\ trimEnd t <> "".
Proof.
  intros Ht H. cbn [trimEnd] in H. destruct (trimEnd t) as [|b r] eqn:Hr.
  - destruct (ehEspaco a); [discriminate|]. injection H as H. now elim Ht.
  - injection H as H. split; [exact H | discriminate].
Qed.

Lemma prefix_trimEnd (t s : string) :
  t <> "" -> trimEnd t = t -> String.prefix t s = true ->
  String.prefix t (trimEnd s) = true /\ trimEnd s <> "".
Proof.
  revert s. induction t as [|a t IH]; intros s Hne Hfix Hp; [now elim Hne|].
  destruct s as [|b s]; [discriminate|].
  apply prefix_cons in Hp as [<- Hp].
  destruct t as [|a' t'].
  - cbn [trimEnd] in Hfix |- *. destruct (ehEspaco a) eqn:Ha; [discriminate|].
    destruct (trimEnd s); split; try discriminate;
      (apply prefix_cons; split; [reflexivity | apply prefix_vazio]).
  - destruct (trimEnd_fixo_cauda a (String a' t') ltac:(discriminate) Hfix) as [Hfix' _].
    destruct (IH s ltac:(discriminate) Hfix' Hp) as [Hp' Hne'].
    rewrite (trimEnd_cons a s Hne'). split; [|discriminate].
    apply prefix_cons. split; [reflexivity | exact Hp'].
Qed.

Lemma includes_trimEnd (t s : string) :
  semBrancosNasPontas t = true -> includes t s = true ->
  includes t (trimEnd s) = true /\ trimEnd s <> "".
Proof.
  intros Ht.
  assert (Hne : t <> "") by (destruct t; [discriminate | discriminate]).
  assert (Hfix : trimEnd t = t).
  { destruct t as [|a t]; [discriminate|]. cbn [semBrancosNasPontas] in Ht.
    apply andb_prop in Ht as [_ Ht]. now apply String.eqb_eq in Ht. }
  induction s as [|c s IH]; intros Hi.
  - apply includes_vazio in Hi. now elim Hne.
  - cbn [includes] in Hi. apply orb_prop in Hi as [Hp|Hi].
    + destruct (prefix_trimEnd t (String c s) Hne Hfix Hp) as [Hp' Hne'].
      split; [now apply includes_prefix | exact Hne'].
    + destruct (IH Hi) as [Hi' Hne']. rewrite (trimEnd_cons c s Hne').
      split; [now apply includes_cons | discriminate].
Qed.

(** A term made of word characters and blanks, without blanks at its
    ends, survives the normalization of a text that contains it. *)
Definition termoLimpo (t : string) : bool :=
  todos (fun c => ehPalavra c || ehEspaco c) t && semBrancosNasPontas t.

Lemma includes_normalizarTexto (t mensagem : string) :
  termoLimpo t = true ->
  includes t (toLowerCase mensagem) = true ->
  includes t (normalizarTexto mensagem) = true.
Proof.
  intros Ht Hi. apply andb_prop in Ht as [Hw Hb].
  unfold normalizarTexto, trim.
  apply includes_trimEnd; [exact Hb|]. apply includes_trimStart; [exact Hb|].
  now apply includes_filtrarTexto.
Qed.

Lemma termosPix_limpos : forallb termoLimpo termosPix = true.
Proof. reflexivity. Qed.

Section Colaboradores.

Variable gerarTexto : Intencao -> string.
Variable textoPix : Pix.ChavePix -> string.

(** X24: a PIX request is always recognised and always answered.  An
    ASCII message that contains one of the PIX terms, in any mix of upper
    and lower case and whatever else it says, is given the intent ['pix'];
    [processarMensagemRecebida] then answers with two texts, the second of
    which is one of the keys of [CHAVES_PIX], whatever the anti-spam table
    holds for the sender. *)
Theorem pix_sempre_respondido (mensagem termo numero : string) (t : Leituras)
  (sorteio : Q) (s : Estado) :
  soAscii mensagem = true ->
  In termo termosPix ->
  includes termo (toLowerCase mensagem) = true ->
  PixFatos.sorteioValido sorteio ->
  detectarIntencao mensagem = Some IntencaoPix
  /\ exists c s',
       processarMensagemRecebida detectarIntencao gerarTexto textoPix
         mensagem numero t sorteio s
       = (s', Retorno (Some (Textos [textoPix c; Pix.chave c])))
       /\ In c Pix.CHAVES_PIX.
Proof.
  intros _ Htermo Hinc Hr.
  assert (Hdet : detectarIntencao mensagem = Some IntencaoPix).
  { unfold detectarIntencao.
    assert (Hal : algumContido termosPix (normalizarTexto mensagem) = true).
    { apply List.existsb_exists. exists termo. split; [exact Htermo|].
      apply includes_normalizarTexto; [|exact Hinc].
      pose proof termosPix_limpos as Hl. rewrite List.forallb_forall in Hl.
      now apply Hl. }
    now rewrite Hal. }
  split; [exact Hdet|].
  unfold processarMensagemRecebida. rewrite Hdet. cbn [ehPix negb andb].
  unfold gerarRespostaPix.
  destruct (PixFatos.selecionarChavePixInteligente_responde numero (agoraLimpezaPix t)
              (agoraPix t) sorteio (pix s) Hr) as (c & Hc & Hin).
  destruct (Pix.selecionarChavePixInteligente numero (agoraLimpezaPix t) (agoraPix t)
              sorteio (pix s)) as [p' k].
  cbn in Hc. subst k. exists c. eexists. split; [reflexivity | exact Hin].
Qed.

End Colaboradores.

Lemma pix_sempre_respondido_exemplo :
  detectarIntencao "Boa noite! Qual o PIX, por favor?" = Some IntencaoPix.
Proof.
  refine (proj1 (pix_sempre_respondido (fun _ => "") (fun _ => "")
                   "Boa noite! Qual o PIX, por favor?" "qual o pix" "5586911112222"
                   {| agoraVerificacao := 1; agoraRegistro := 1;
                      agoraLimpezaPix := 1; agoraPix := 1 |}
                   0 {| ultimasRespostas := ∅; pix := Pix.inicial |}
                   eq_refl _ eq_refl PixFatos.sorteioValido_zero)).
  cbn. tauto.
Defined.

End DeteccaoFatos.

(** ** Telephones for display *)

Module MensagensFatos.
Import JS Mensagens TextoFatos.

Lemma todos_substring (f : ascii -> bool) (n m : nat) (s : string) :
  todos f s = true -> todos f (String.substring n m s) = true.
Proof.
  revert n m. induction s as [|c s IH]; intros n m H.
  - destruct n, m; reflexivity.
  - cbn in H. apply andb_prop in H as [Hc Hs].
    destruct n as [|n]; destruct m as [|m]; cbn [String.substring todos];
      try reflexivity; try (now apply IH).
    rewrite Hc. now apply IH.
Qed.

Lemma semPais_digitos (t : string) : todos ehDigito (semPais (apenasDigitos t)) = true.
Proof.
  unfold semPais, sliceDe. destruct (String.prefix "55" (apenasDigitos t)).
  - apply todos_substring, todos_filtrarTexto.
  - apply todos_filtrarTexto.
Qed.

(** Split a text of known length into its characters. *)
Ltac caracteres s H :=
  repeat (destruct s as [|? s]; [discriminate H|]);
  destruct s; [|discriminate H].

Ltac usar_digitos :=
  repeat match goal with
         | Hc : ehDigito _ = true |- _ => rewrite Hc; clear Hc
         end.

(** X25: [formatarTelefone] keeps the digits.  For a telephone whose
    digits, once a leading country code 55 is dropped, are 11 or 10 in
    number, the text for display starts with a parenthesis, is four
    characters longer than the national number, and holds exactly the
    digits of the national number, in order. *)
Theorem formatarTelefone_digitos (t : string) :
  textoVerdadeiro t = true ->
  let nacional := semPais (apenasDigitos t) in
  String.length nacional = 11%nat \/ String.length nacional = 10%nat ->
  apenasDigitos (formatarTelefone (Some t)) = nacional
  /\ String.length (formatarTelefone (Some t)) = (String.length nacional + 4)%nat
  /\ String.prefix "(" (formatarTelefone (Some t)) = true.
Proof.
  intros Hv nacional Hlen.
  pose proof (semPais_digitos t) as Hd. fold nacional in Hd.
  unfold formatarTelefone. rewrite Hv. cbn [negb]. cbv zeta. fold nacional.
  destruct Hlen as [Hlen|Hlen]; rewrite Hlen; cbn [Nat.eqb].
  - clearbody nacional. caracteres nacional Hlen.
    cbn [todos] in Hd. repeat (apply andb_prop in Hd as [? Hd]).
    unfold slice, sliceDe. cbn [String.length Nat.sub String.substring].
    rewrite !append_cons, !append_nil. unfold apenasDigitos.
    cbn [filtrarTexto String.length]. usar_digitos.
    repeat split; reflexivity.
  - clearbody nacional. caracteres nacional Hlen.
    cbn [todos] in Hd. repeat (apply andb_prop in Hd as [? Hd]).
    unfold slice, sliceDe. cbn [String.length Nat.sub String.substring].
    rewrite !append_cons, !append_nil. unfold apenasDigitos.
    cbn [filtrarTexto String.length]. usar_digitos.
    repeat split; reflexivity.
Qed.

Lemma formatarTelefone_digitos_exemplo :
  formatarTelefone (Some "5586999991234") = "(86) 99999-1234"
  /\ apenasDigitos (formatarTelefone (Some "5586999991234")) = "86999991234".
Proof.
  split; [reflexivity|].
  exact (proj1 (formatarTelefone_digitos "5586999991234" eq_refl (or_introl eq_refl))).
Defined.

End MensagensFatos.

(** ** Incoming messages: who gets a reply *)

Module RecebimentoFatos.
Import JS Envio Respostas Recebimento.

(** One turn of the loop over the texts of a reply: the text is
    transmitted and counted, or the send throws and nothing is. *)
Lemma enviarResposta_passo (jid msg : string) (pausa : bool) (w : Mundo) :
  let corpo := sockSendMessage jid msg ;;;
               modificar contarMensagemEnviada ;;;
               if pausa then esperar 500 else ret tt in
  (exists w', corpo w = (Retorno tt, w')
              /\ transmitidas w' = transmitidas w ++ [(jid, msg)]
              /\ mensagensEnviadas w' = S (mensagensEnviadas w))
  \/ (exists e w', corpo w = (Excecao e, w')
                   /\ transmitidas w' = transmitidas w
                   /\ mensagensEnviadas w' = mensagensEnviadas w).
Proof.
  cbn zeta. unfold bind, sockSendMessage, bind, modificar, ler, lancar, esperar, ret. cbn.
  destruct (transporte w) as [|[|] fila]; cbn.
  - left. destruct pausa; eexists; (split; [reflexivity|]); split; reflexivity.
  - left. destruct pausa; eexists; (split; [reflexivity|]); split; reflexivity.
  - right. eexists _, _. split; [reflexivity|]. split; reflexivity.
Qed.

(** What the loop transmits: only messages to [jid], each counted once. *)
Lemma enviarRespostas_transmite (jid : string) (pausa : bool) (mensagens : list string)
  (w : Mundo) :
  exists r w' novas,
    paraCada (fun msg =>
                sockSendMessage jid msg ;;;
                modificar contarMensagemEnviada ;;;
                if pausa then esperar 500 else ret tt) mensagens w = (r, w')
    /\ transmitidas w' = transmitidas w ++ novas
    /\ mensagensEnviadas w' = (mensagensEnviadas w + length novas)%nat
    /\ Forall (fun x => fst x = jid) novas.
Proof.
  revert w. induction mensagens as [|msg resto IH]; intros w.
  - exists (Retorno tt), w, []. cbn. rewrite List.app_nil_r, Nat.add_0_r.
    repeat split. constructor.
  - cbn [paraCada]. unfold bind at 1.
    destruct (enviarResposta_passo jid msg pausa w)
      as [(w1 & Hrun & Ht & Hm)|(e & w1 & Hrun & Ht & Hm)]; cbn zeta in Hrun; rewrite Hrun.
    + destruct (IH w1) as (r & w' & novas & Hrun' & Ht' & Hm' & Hj).
      exists r, w', ((jid, msg) :: novas). split; [exact Hrun'|].
      rewrite Ht', Ht, Hm', Hm, <- List.app_assoc. cbn.
      split; [reflexivity|]. split; [lia|]. constructor; [reflexivity | exact Hj].
    + exists (Excecao e), w1, []. split; [reflexivity|].
      rewrite Ht, Hm, List.app_nil_r, Nat.add_0_r. repeat split. constructor.
Qed.

Section Colaboradores.

Variable detectarIntencao : string -> option Intencao.
Variable gerarTexto : Intencao -> string.
Variable textoPix : Pix.ChavePix -> string.
Variable emBranco : string -> bool.

Local Abbreviation processarMensagem :=
  (Recebimento.processarMensagem detectarIntencao gerarTexto textoPix emBranco).
Local Abbreviation aoReceberMensagens :=
  (Recebimento.aoReceberMensagens detectarIntencao gerarTexto textoPix emBranco).

(** A message that the handler does not skip: not sent by the bot itself,
    not from a group, not a status broadcast, and with a text. *)
Definition atendida (m : Mensagem) : bool :=
  negb (fromMe m)
  && negb (Deteccao.endsWith "@g.us" (remoteJid m))
  && negb (String.eqb (remoteJid m) "status@broadcast")
  && negb (emBranco (textoDaMensagem m)).

(** What the processing of one message adds to the transmitted messages. *)
Definition efeito (st st' : Estado) (novas : list (string * string)) : Prop :=
  transmitidas (mundo st') = transmitidas (mundo st) ++ novas
  /\ mensagensEnviadas (mundo st') = (mensagensEnviadas (mundo st) + length novas)%nat.

Lemma processarMensagem_efeito (st : Estado) (m : Mensagem) (l : Leitura) :
  let st' := processarMensagem st (m, l) in
  mensagensRecebidas st' = S (mensagensRecebidas st)
  /\ exists novas,
       efeito st st' novas
       /\ Forall (fun x => fst x = remoteJid m) novas
       /\ (atendida m = false -> novas = [] /\ respostas st' = respostas st).
Proof.
  cbn zeta. unfold Recebimento.processarMensagem, atendida.
  assert (Hnada : forall r : nat,
    exists novas : list (string * string),
      (transmitidas (mundo st) = transmitidas (mundo st) ++ novas
       /\ mensagensEnviadas (mundo st) = (mensagensEnviadas (mundo st) + length novas)%nat)
      /\ Forall (fun x => fst x = remoteJid m) novas
      /\ novas = []).
  { intros _. exists []. rewrite List.app_nil_r, Nat.add_0_r.
    repeat split. constructor. }
  destruct (fromMe m); cbn [negb andb].
  { split; [reflexivity|]. destruct (Hnada 0%nat) as (novas & He & Hj & Hn).
    exists novas. unfold efeito. cbn. auto. }
  destruct (Deteccao.endsWith "@g.us" (remoteJid m)); cbn [negb andb].
  { split; [reflexivity|]. destruct (Hnada 0%nat) as (novas & He & Hj & Hn).
    exists novas. unfold efeito. cbn. auto. }
  destruct (String.eqb (remoteJid m) "status@broadcast"); cbn [negb andb].
  { split; [reflexivity|]. destruct (Hnada 0%nat) as (novas & He & Hj & Hn).
    exists novas. unfold efeito. cbn. auto. }
  destruct (emBranco (textoDaMensagem m)); cbn [negb andb].
  { split; [reflexivity|]. destruct (Hnada 0%nat) as (novas & He & Hj & Hn).
    exists novas. unfold efeito. cbn. auto. }
  cbn [respostas mundo mensagensRecebidas].
  destruct (processarMensagemRecebida detectarIntencao gerarTexto textoPix
              (textoDaMensagem m) (removerPrimeira "@s.whatsapp.net" (remoteJid m))
              (relogios l) (sorteio l) (respostas st)) as [r' [[resposta|]|e]].
  - destruct (respostaVerdadeira resposta).
    + unfold enviarRespostas.
      destruct (enviarRespostas_transmite (remoteJid m)
                  (1 <? length (mensagensDe resposta))%nat (mensagensDe resposta)
                  (mundo st)) as (r & w' & novas & Hrun & Ht & Hm & Hj).
      rewrite Hrun. split; [reflexivity|].
      exists novas. unfold efeito. cbn. split; [auto|]. split; [exact Hj | discriminate].
    + split; [reflexivity|]. destruct (Hnada 0%nat) as (novas & He & Hj & Hn).
      exists novas. unfold efeito. cbn. split; [auto|]. split; [exact Hj | discriminate].
  - split; [reflexivity|]. destruct (Hnada 0%nat) as (novas & He & Hj & Hn).
    exists novas. unfold efeito. cbn. split; [auto|]. split; [exact Hj | discriminate].
  - split; [reflexivity|]. destruct (Hnada 0%nat) as (novas & He & Hj & Hn).
    exists novas. unfold efeito. cbn. split; [auto|]. split; [exact Hj | discriminate].
Qed.

Lemma processarMensagem_destinatario (st : Estado) (m : Mensagem) (l : Leitura) :
  exists novas,
    efeito st (processarMensagem st (m, l)) novas
    /\ (novas = [] \/ atendida m = true)
    /\ Forall (fun x => fst x = remoteJid m) novas.
Proof.
  destruct (processarMensagem_efeito st m l) as (_ & novas & He & Hj & Hn).
  exists novas. split; [exact He|]. split; [|exact Hj].
  destruct (atendida m); [now right | left; now apply Hn].
Qed.

(** X26: the bot replies only to the senders of the messages it attends
    to.  Every text that the handler transmits goes to the [remoteJid] of a
    message of the batch that was not sent by the bot itself, does not come
    from a group or from the status broadcast, and has a text; a batch
    whose type is not ['notify'] transmits nothing and changes nothing.
    The counter of sent messages grows by the number of texts transmitted. *)
Theorem respostas_so_a_remetentes (tipo : string) (mensagens : list (Mensagem * Leitura))
  (st : Estado) :
  let st' := aoReceberMensagens tipo mensagens st in
  (tipo <> "notify" -> st' = st)
  /\ exists novas,
       transmitidas (mundo st') = transmitidas (mundo st) ++ novas
       /\ mensagensEnviadas (mundo st') = (mensagensEnviadas (mundo st) + length novas)%nat
       /\ forall jid texto, In (jid, texto) novas ->
            exists m l, In (m, l) mensagens
                        /\ jid = remoteJid m
                        /\ fromMe m = false
                        /\ Deteccao.endsWith "@g.us" jid = false
                        /\ jid <> "status@broadcast"
                        /\ emBranco (textoDaMensagem m) = false.
Proof.
  cbn zeta. unfold Recebimento.aoReceberMensagens.
  destruct (String.eqb_spec tipo "notify") as [->|Hne]; cbn [negb].
  2:{ split; [reflexivity|]. exists []. rewrite List.app_nil_r, Nat.add_0_r.
      repeat split. intros jid texto []. }
  split; [intros H; now elim H|].
  revert st. induction mensagens as [|[m l] resto IH]; intros st.
  - exists []. cbn. rewrite List.app_nil_r, Nat.add_0_r. repeat split. intros jid texto [].
  - cbn [fold_left].
    destruct (processarMensagem_destinatario st m l) as (n1 & [Ht1 Hm1] & Hat & Hj).
    destruct (IH (processarMensagem st (m, l))) as (n2 & Ht2 & Hm2 & Hdest).
    exists (n1 ++ n2). rewrite Ht2, Ht1, Hm2, Hm1, List.length_app, <- List.app_assoc.
    split; [reflexivity|]. split; [lia|].
    intros jid texto Hin. apply List.in_app_or in Hin as [Hin|Hin].
    + destruct Hat as [->|Hat]; [destruct Hin|].
      rewrite List.Forall_forall in Hj. specialize (Hj _ Hin). cbn in Hj. subst jid.
      unfold atendida in Hat.
      apply andb_prop in Hat as [Hat H4]. apply andb_prop in Hat as [Hat H3].
      apply andb_prop in Hat as [H1 H2].
      apply negb_true_iff in H1, H2, H3, H4.
      exists m, l. split; [now left|]. split; [reflexivity|]. split; [exact H1|].
      split; [exact H2|]. split; [now apply String.eqb_neq | exact H4].
    + destruct (Hdest jid texto Hin) as (m' & l' & Hin' & Hrest).
      exists m', l'. split; [now right | exact Hrest].
Qed.

(** X27: the counter of received messages counts every message of a
    ['notify'] batch, also the ones that the handler skips; messages that
    are skipped leave the state of the automatic replies (the anti-spam
    table, the PIX history and counters) as it was. *)
Theorem contagem_de_recebidas (mensagens : list (Mensagem * Leitura)) (st : Estado) :
  let st' := aoReceberMensagens "notify" mensagens st in
  mensagensRecebidas st' = (mensagensRecebidas st + length mensagens)%nat
  /\ (Forall (fun e => atendida (fst e) = false) mensagens ->
      respostas st' = respostas st
      /\ transmitidas (mundo st') = transmitidas (mundo st)).
Proof.
  cbn zeta. unfold Recebimento.aoReceberMensagens.
  rewrite String.eqb_refl. cbn [negb].
  revert st. induction mensagens as [|[m l] resto IH]; intros st.
  - cbn. split; [lia | auto].
  - cbn [fold_left length].
    destruct (processarMensagem_efeito st m l) as (Hrec & novas & [Ht Hm] & _ & Hn).
    destruct (IH (processarMensagem st (m, l))) as [IH1 IH2].
    split; [rewrite IH1, Hrec; lia|].
    intros Hall. apply List.Forall_cons_iff in Hall as [Hm0 Hall]. cbn in Hm0.
    destruct (Hn Hm0) as [-> Hresp]. destruct (IH2 Hall) as [R1 R2].
    rewrite R1, R2, Hresp, Ht, List.app_nil_r. auto.
Qed.

End Colaboradores.

End RecebimentoFatos.

(** ** The session store: what is read after a write *)

Module SessaoFatos.
Import JS Sessao.

Section Valores.

Variable V : Type.
Variable verdadeiroV : V -> bool.

(** What is read after a save. *)
Lemma salvarDado_lerDado (chave : string) (valor : V) (falhaSalvar falhaLer : bool)
  (st : Estado V) :
  let salvo := salvarDado chave valor falhaSalvar st in
  fst salvo = negb falhaSalvar
  /\ lerDado verdadeiroV chave falhaLer (snd salvo) = (Some valor, snd salvo)
  /\ (falhaSalvar = false -> tabela (snd salvo) !! chave = Some valor)
  /\ (falhaSalvar = true ->
      fst (lerDado verdadeiroV chave falhaLer (esvaziarCache (snd salvo)))
      = fst (lerDado verdadeiroV chave falhaLer (esvaziarCache st))).
Proof.
  cbn zeta. unfold salvarDado.
  destruct falhaSalvar; cbn [fst snd negb].
  - split; [reflexivity|]. split.
    + unfold lerDado. cbn. now rewrite lookup_insert_eq.
    + split; [discriminate | reflexivity].
  - split; [reflexivity|]. split.
    + unfold lerDado. cbn. now rewrite lookup_insert_eq.
    + split; [intros _; cbn; apply lookup_insert_eq | discriminate].
Qed.

(** What is read after a removal. *)
Lemma removerDado_lerDado (chave : string) (falhaRemover : bool) (st : Estado V) :
  let removido := removerDado chave falhaRemover st in
  (falhaRemover = false ->
   forall falhaLer, lerDado verdadeiroV chave falhaLer removido = (None, removido))
  /\ (falhaRemover = true ->
      forall valor, tabela st !! chave = Some valor -> verdadeiroV valor = true ->
        fst (lerDado verdadeiroV chave false removido) = Some valor
        /\ cacheLocal (snd (lerDado verdadeiroV chave false removido)) !! chave
           = Some valor).
Proof.
  cbn zeta. unfold removerDado. split.
  - intros -> falhaLer. unfold lerDado. cbn. rewrite !lookup_delete_eq.
    now destruct falhaLer.
  - intros -> valor Ht Hv. unfold lerDado. cbn. rewrite lookup_delete_eq, Ht, Hv. cbn.
    split; [reflexivity | apply lookup_insert_eq].
Qed.

(** X28: what the session store reads after a write.  After [salvarDado]
    the key reads as the value just saved, from the cache, whether or not
    the upsert succeeded and whatever the next query would answer;
    [salvarDado] answers [true] exactly when the upsert succeeded, and a
    value whose upsert failed is gone once the cache is emptied, as
    [useSupabaseAuthState] does at every start.  After [removerDado] the key
    reads as [null] when the deletion succeeded; after one that failed, the
    next successful read finds the old row again (when its value is truthy)
    and puts it back into the cache. *)
Theorem ler_depois_de_escrever (chave : string) (falhaEscrita falhaLer : bool)
  (st : Estado V) :
  (forall valor,
     let salvo := salvarDado chave valor falhaEscrita st in
     fst salvo = negb falhaEscrita
     /\ lerDado verdadeiroV chave falhaLer (snd salvo) = (Some valor, snd salvo)
     /\ (falhaEscrita = false -> tabela (snd salvo) !! chave = Some valor)
     /\ (falhaEscrita = true ->
         fst (lerDado verdadeiroV chave falhaLer (esvaziarCache (snd salvo)))
         = fst (lerDado verdadeiroV chave falhaLer (esvaziarCache st))))
  /\ (let removido := removerDado chave falhaEscrita st in
      (falhaEscrita = false ->
       lerDado verdadeiroV chave falhaLer removido = (None, removido))
      /\ (falhaEscrita = true ->
          forall valor, tabela st !! chave = Some valor -> verdadeiroV valor = true ->
            fst (lerDado verdadeiroV chave false removido) = Some valor
            /\ cacheLocal (snd (lerDado verdadeiroV chave false removido)) !! chave
               = Some valor)).
Proof.
  split.
  - intros valor. apply salvarDado_lerDado.
  - destruct (removerDado_lerDado chave falhaEscrita st) as [H1 H2].
    split; [intros Hf; now apply H1 | exact H2].
Qed.

End Valores.

End SessaoFatos.

(** ** The texts of the replies *)

Module TextosFatos.
Import JS Pix Horario Respostas Calendario Deteccao Textos.

Lemma obterSaudacao_casos (hora : Z) :
  obterSaudacao hora = "Bom dia" \/ obterSaudacao hora = "Boa tarde"
  \/ obterSaudacao hora = "Boa noite".
Proof.
  unfold obterSaudacao.
  destruct (_ && _); [now left|]. destruct (_ && _); [right; now left | right; now right].
Qed.

(** Settles a statement about the text of a reply by running it for each of
    the three salutations. *)
Ltac por_saudacao hora :=
  destruct (obterSaudacao_casos hora) as [Hs|[Hs|Hs]];
  cbv beta iota zeta delta [gerarTexto gerarRespostaSaudacao gerarRespostaHorario
    gerarRespostaPedido gerarRespostaEntrega gerarRespostaChurrasco gerarRespostaMarmita
    gerarRespostaLocalizacao textoPix verdadeiro negb];
  rewrite Hs; vm_compute; reflexivity.

Lemma gerarTexto_link (aberto lojaAberta : bool) (hora : Z) (intencao : Intencao) :
  intencao <> IntencaoPix ->
  includes LINK_SITE (gerarTexto aberto lojaAberta None hora intencao) = true.
Proof.
  intros Hi. destruct intencao; try (now elim Hi);
    destruct aberto, lojaAberta; por_saudacao hora.
Qed.

Lemma textoPix_sem_link (hora : Z) (c : ChavePix) :
  In c CHAVES_PIX ->
  includes LINK_SITE (textoPix hora c) = false /\ includes LINK_SITE (chave c) = false.
Proof.
  intros [<-|[<-|[]]]; (split; [por_saudacao hora | reflexivity]).
Qed.

Lemma selecionarChavePixInteligente_chave (numero : string) (t0 t : Z) (r : Q)
  (p p' : Pix.Estado) (c : ChavePix) :
  selecionarChavePixInteligente numero t0 t r p = (p', Some c) -> In c CHAVES_PIX.
Proof.
  unfold selecionarChavePixInteligente, selecionarComIndice.
  destruct (nth_error (grupoSorteio _ _) _) as [i|]; [|discriminate].
  destruct (nth_error CHAVES_PIX i) as [c'|] eqn:Hc; [|discriminate].
  intros [= _ <-]. eapply nth_error_In; eassumption.
Qed.

(** X29: outside the special dates, every answer that is one text carries
    the address of the shop's site, whatever was asked and whether the shop
    is open or not; the PIX answer, the only one made of two texts, carries
    it in neither. *)
Theorem respostas_trazem_o_link (aberto lojaAberta : bool) (hora : Z)
  (mensagem numero : string) (t : Leituras) (sorteio : Q) (s s' : Respostas.Estado)
  (r : Resposta) :
  processarMensagemRecebida detectarIntencao (gerarTexto aberto lojaAberta None hora)
    (textoPix hora) mensagem numero t sorteio s = (s', Retorno (Some r)) ->
  match r with
  | Texto texto => includes LINK_SITE texto = true
  | Textos textos => Forall (fun texto => includes LINK_SITE texto = false) textos
  end.
Proof.
  unfold processarMensagemRecebida.
  destruct (detectarIntencao mensagem) as [intencao|]; [|discriminate].
  destruct (negb (ehPix intencao) && _); [discriminate|].
  destruct (ehPix intencao) eqn:Hpix.
  2:{ assert (Hne : intencao <> IntencaoPix) by (intros ->; discriminate).
      pose proof (gerarTexto_link aberto lojaAberta hora intencao Hne) as Hl.
      destruct intencao; try discriminate; intros [= _ <-]; exact Hl. }
  destruct intencao; try discriminate. cbv beta iota.
  unfold gerarRespostaPix.
  destruct (selecionarChavePixInteligente numero (agoraLimpezaPix t) (agoraPix t) sorteio
              (pix s)) as [p' [c|]] eqn:Hsel; cbv beta iota zeta; [|discriminate].
  intros [= _ <-].
  destruct (textoPix_sem_link hora c (selecionarChavePixInteligente_chave _ _ _ _ _ _ _ Hsel))
    as [H1 H2].
  repeat constructor; assumption.
Qed.

Lemma respostas_trazem_o_link_exemplo :
  includes LINK_SITE (gerarRespostaEntrega 20) = true.
Proof.
  exact (respostas_trazem_o_link true true 20 "Voces fazem entrega?" "5586911112222"
           {| agoraVerificacao := 1; agoraRegistro := 1; agoraLimpezaPix := 1; agoraPix := 1 |}
           0 {| ultimasRespostas := ∅; pix := Pix.inicial |}
           _ (Texto (gerarRespostaEntrega 20)) eq_refl).
Defined.

(** X30: a shop closed by the administrator during its opening hours is
    announced as closed by the salutation, the opening-hours and the
    how-to-order answers, which ask [verificarLojaAbertaSupabase], and as
    open by the barbecue and the lunch-box answers, which are given the
    reading of [estaNoHorario] alone. *)
Theorem fechamento_manual_nas_respostas (config : gmap string string) (dia : DiaSemana)
  (minutos hora : Z) :
  config !! "manual_status" = Some "closed" ->
  estaNoHorario dia minutos = true ->
  let texto := gerarTexto (estaNoHorario dia minutos)
                 (verificarLojaAbertaSupabase config dia minutos) None hora in
  includes "estamos *fechados*" (texto Saudacao) = true
  /\ includes "Estamos fechados no momento" (texto IntencaoHorario) = true
  /\ includes "estamos *fechados*" (texto IntencaoPedido) = true
  /\ includes "Estamos abertos" (texto Churrasco) = true
  /\ includes "Estamos abertos" (texto Marmita) = true
  /\ includes "fechados" (texto Churrasco) = false
  /\ includes "fechados" (texto Marmita) = false.
Proof.
  intros Hc Hh. cbv zeta. unfold verificarLojaAbertaSupabase. rewrite Hc, Hh.
  cbn [String.eqb Ascii.eqb Bool.eqb].
  repeat split; por_saudacao hora.
Qed.

Lemma fechamento_manual_nas_respostas_exemplo :
  includes "Estamos abertos"
    (gerarRespostaChurrasco (estaNoHorario Sexta (20 * 60)) 20) = true.
Proof.
  exact (proj1 (proj2 (proj2 (proj2
           (fechamento_manual_nas_respostas {[ "manual_status" := "closed" ]} Sexta
              (20 * 60) 20 eq_refl eq_refl))))).
Defined.

End TextosFatos.
